(** * spykeutils.plot.analog_signals: the signal plot builder

    A shallow embedding of [signals] and [_add_spike_waveforms] from
    [spykeutils/plot/analog_signals.py].

    - Times and rates are exact rationals holding the magnitude in SI
      base units (seconds, hertz); [rescale] to a time unit divides by the
      size of that unit.  By a zero sampling rate numpy gives an
      infinite period and goes on; the rationals have no such number,
      and the model ends the run there ([quot]).
    - Sample values and waveform values are exact rationals: the
      magnitudes in the unit the array carries ([sig_units],
      [wf_units]).  The quantities package leaves magnitudes as they are
      when it subtracts, compares or adds arrays of one unit; between
      different units it converts, and it raises [ValueError] when they
      are incompatible.  The arithmetic on these values is that of one
      common unit: what is proved about offsets and the values of
      stacked curves assumes it ([same_units], [common_unit]).
    - numpy computes on binary64 numbers, where [sp.arange] can return
      one point more than over the rationals: module [F64] renders the
      x coordinates of a spike on binary64.
    - The GUI toolkit, the drawing helpers and the progress indicator are
      external collaborators: every call made to them is appended to the
      [calls] of the [World], in program order, with its arguments.
    - Python exceptions are the left summand of the result.
    - Which objects the builder updates in place is the subject of a
      second rendering of the function, over a store of Python objects
      (module [Py]). *)

From Stdlib Require Import List String Arith Lia ZArith QArith Qround Lqa.
From Stdlib Require Uint63 Floats.
From stdpp Require Import gmap.
Import ListNotations.
Local Open Scope string_scope.
Local Open Scope list_scope.

(** ** Data model *)

Inductive exn : Type :=
| SpykeException (msg : string)
| AttributeError
| IndexError
| TypeError
| ValueError
| ZeroDivisionError.

(** A recording channel or segment object: Python compares and hashes
    them by identity, [obj_id]; [obj_name] is the [name] attribute. *)
Record NeoObject : Type := mkObj {
  obj_id : nat;
  obj_name : option string
}.

Record AnalogSignal : Type := mkSignal {
  sig_samples : list Q;               (* the array itself *)
  sampling_rate : Q;                  (* Hz *)
  sig_units : string;                 (* dimensionality.string *)
  recordingchannel : option NeoObject;
  segment : option NeoObject
}.

(** A logical unit, compared by identity; [None] is Python's [None]. *)
Definition PyUnit : Type := option nat.

Definition Color : Type := string.

Record Waveform : Type := mkWaveform {
  wf_rows : list (list Q);            (* shape[0] rows of samples *)
  wf_channels : nat;                  (* shape[1] *)
  wf_units : string                   (* dimensionality.string *)
}.

Record Spike : Type := mkSpike {
  spike_unit : PyUnit;
  spike_time : Q;                     (* s *)
  left_sweep : option Q;              (* s, or None *)
  spike_sampling_rate : Q;            (* Hz *)
  waveform : option Waveform
}.

Record SpikeTrain : Type := mkTrain {
  train_unit : PyUnit;
  train_times : list Q
}.

Record Event : Type := mkEvent { event_time : Q; event_label : string }.
Record Epoch : Type := mkEpoch {
  epoch_time : Q; epoch_duration : Q; epoch_label : string
}.

(** A time unit such as [pq.s] or [pq.ms]: its dimensionality string and
    its size in seconds. *)
Record TimeUnit : Type := mkTimeUnit {
  tu_string : string;
  tu_seconds : Q
}.

(** ** The outside world *)

Inductive Axis : Type := X_BOTTOM | Y_LEFT.

(** [make.curve(x, y)] and [make.curve(x, y, color=..., linewidth=...)]. *)
Record Curve : Type := mkCurve {
  curve_x : list Q;
  curve_y : list Q;
  curve_style : option (Color * nat)
}.

Inductive Call : Type :=
| PlotDialog (wintitle : string)
| BaseCurveWidget (plot : nat)
| add_epochs (plot : nat) (epochs : list Epoch) (units : TimeUnit)
| add_events (plot : nat) (events : list Event) (units : TimeUnit)
| add_spikes (plot : nat) (train : SpikeTrain) (color : Color)
    (units : TimeUnit)
| add_item (plot : nat) (item : Curve)
| add_plot_widget (plot : nat) (pos : nat)
| set_axis_title (plot : nat) (axis : Axis) (title : string)
| set_axis_unit (plot : nat) (axis : Axis) (unit : string)
| add_custom_curve_tools (flag : bool)
| make_window_legend (units : list PyUnit) (flag : bool)
| win_show
| add_x_synchronization_option (flag : bool) (ids : list nat)
| add_y_synchronization_option (flag : bool) (ids : list nat)
| progress_set_ticks (n : nat)
| progress_step
| progress_done.

Record World : Type := mkWorld {
  calls : list Call;      (* oldest first *)
  widgets : nat           (* curve widgets constructed so far *)
}.

Definition empty_world : World := mkWorld [] 0.

(** ** Exceptions, and the state monad of the outside world *)

(** A computation that touches nothing outside and may raise. *)
Definition E (A : Type) : Type := (exn + A)%type.

Definition bindE {A B} (e : E A) (k : A -> E B) : E B :=
  match e with
  | inl x => inl x
  | inr a => k a
  end.

(** A computation that may raise and works on a state [S]: the outside
    world for the builder, the store of Python objects further down. *)
Definition ST (S A : Type) : Type := S -> E A * S.

Definition M (A : Type) : Type := ST World A.

Definition ret {S A} (a : A) : ST S A := fun w => (inr a, w).

Definition lift {S A} (e : E A) : ST S A := fun w => (e, w).

Definition bind {S A B} (m : ST S A) (k : A -> ST S B) : ST S B :=
  fun w => match m w with
           | (inl e, w') => (inl e, w')
           | (inr a, w') => k a w'
           end.

Notation "x <-- e ;; k" := (bindE e (fun x => k))
  (at level 100, e at next level, right associativity).
Notation "x <- m ;; k" := (bind m (fun x => k))
  (at level 100, m at next level, right associativity).
Notation "m ;;; k" := (bind m (fun _ => k))
  (at level 100, right associativity).

(** The world after [out] more calls and [k] more widgets. *)
Definition emit (w : World) (out : list Call) (k : nat) : World :=
  mkWorld (calls w ++ out) (widgets w + k).

Definition call (c : Call) : M unit := fun w => (inr tt, emit w [c] 0).

Definition new_BaseCurveWidget : M nat :=
  fun w => (inr (widgets w), emit w [BaseCurveWidget (widgets w)] 1).

(** [for x in l: body x] *)
Fixpoint for_each {S A} (l : list A) (body : A -> ST S unit) : ST S unit :=
  match l with
  | [] => ret tt
  | x :: l' => body x ;;; for_each l' body
  end.

(** A loop that updates a local variable [v]. *)
Fixpoint for_fold {S A V} (l : list A) (v : V) (body : V -> A -> ST S V)
    : ST S V :=
  match l with
  | [] => ret v
  | x :: l' => v' <- body v x ;; for_fold l' v' body
  end.

Fixpoint for_foldE {A S} (l : list A) (s : S) (body : S -> A -> E S) : E S :=
  match l with
  | [] => inr s
  | x :: l' => s' <-- body s x ;; for_foldE l' s' body
  end.

(** ** Python and numpy primitives *)

(** [l[i]] *)
Definition getitem {A} (l : list A) (i : nat) : E A :=
  match nth_error l i with
  | Some a => inr a
  | None => inl IndexError
  end.

(** Attribute access on an object that may be [None]. *)
Definition deref {A} (o : option A) : E A :=
  match o with
  | Some a => inr a
  | None => inl AttributeError
  end.

(** Truth value of a [name] attribute: [None] and [''] are false. *)
Definition name_truthy (n : option string) : bool :=
  match n with
  | Some s => negb (String.eqb s "")
  | None => false
  end.

(** ['%s' % name] *)
Definition name_text (n : option string) : string :=
  match n with
  | Some s => s
  | None => "None"
  end.

Definition obj_key (o : option NeoObject) : option nat :=
  option_map obj_id o.

Definition key_eq_dec (a b : option nat) : {a = b} + {a <> b}.
Proof. decide equality. apply Nat.eq_dec. Defined.

(** [len(set(l))] for objects hashed by identity. *)
Definition len_set (l : list (option nat)) : nat :=
  List.length (nodup key_eq_dec l).

(** [a.max()], [a.min()]: numpy raises [ValueError] on an empty array. *)
Definition Qmax (a b : Q) : Q := if Qlt_le_dec a b then b else a.
Definition Qmin (a b : Q) : Q := if Qlt_le_dec b a then b else a.

Definition array_max (a : list Q) : E Q :=
  match a with
  | [] => inl ValueError
  | v :: a' => inr (fold_left Qmax a' v)
  end.

Definition array_min (a : list Q) : E Q :=
  match a with
  | [] => inl ValueError
  | v :: a' => inr (fold_left Qmin a' v)
  end.

Definition Qzero_b (q : Q) : bool := Qeq_bool q 0.

(** [a / b] on quantities.  By a zero [b] numpy gives an infinite
    quotient and goes on; the rationals have no such number, and the
    model ends the run there. *)
Definition quot (a b : Q) : E Q :=
  if Qzero_b b then inl ZeroDivisionError else inr (a / b)%Q.

(** [a / b] on the way to [sp.arange]: handed the infinite quotient
    by a zero [b], [sp.arange] raises [ValueError]. *)
Definition quot_ranged (a b : Q) : E Q :=
  if Qzero_b b then inl ValueError else inr (a / b)%Q.

(** [q.rescale(u)] for a time [q] held in seconds. *)
Definition rescale (q : Q) (u : TimeUnit) : Q := (q / tu_seconds u)%Q.

(** [sp.arange(n)] as rationals. *)
Definition arange_n (n : nat) : list Q :=
  map (fun i => inject_Z (Z.of_nat i)) (seq 0 n).

(** [sp.arange(start, stop, step)] over the rationals:
    [ceil((stop - start) / step)] points [start + i * step], and
    [ValueError] when the step is zero.  [F64.arange] is the same on
    binary64. *)
Definition arange (start stop step : Q) : E (list Q) :=
  if Qzero_b step then inl ValueError
  else
    let n := Z.to_nat (Qceiling ((stop - start) / step)) in
    inr (map (fun i => (start + inject_Z (Z.of_nat i) * step)%Q) (seq 0 n)).

(** [w[:, channel]] *)
Definition column (w : Waveform) (channel : nat) : E (list Q) :=
  if Nat.ltb channel (wf_channels w)
  then inr (map (fun row => nth channel row 0%Q) (wf_rows w))
  else inl IndexError.

(** [a + offset], elementwise into a new array. *)
Definition shifted (a : list Q) (offset : Q) : list Q :=
  map (fun v => (v + offset)%Q) a.

(** [enumerate(l, start)] *)
Definition enumerate {A} (l : list A) (start : nat) : list (nat * A) :=
  combine (seq start (List.length l)) l.

(** [x if x is not None else empty] *)
Definition or_default {A} (o : option (list A)) : list A :=
  match o with
  | Some l => l
  | None => []
  end.

(** ** The builder *)

Section Builder.

(** Modelled from the spec: [helper.get_object_color] is not part of the
    sources at hand; the spec describes it as the color helper
    capability [get_object_color(unit)] whose result is derived
    deterministically from the logical unit, so it is a function of
    the unit. *)
Variable get_object_color : PyUnit -> Color.

(** [conversions.spikes_from_spike_train], the helper that turns a
    spike train into waveform-bearing spike records. *)
Variable spikes_from_spike_train : SpikeTrain -> list Spike.

(** [spike.left_sweep if spike.left_sweep else 0.0 * pq.ms] *)
Definition lsweep_of (spike : Spike) : Q :=
  match left_sweep spike with
  | Some l => if Qzero_b l then 0%Q else l
  | None => 0%Q
  end.

(** The x coordinates of one spike in [_add_spike_waveforms]. *)
Definition spike_x_of (x_units : TimeUnit) (spike : Spike) : E (list Q) :=
  let lsweep := lsweep_of spike in
  let start := rescale (spike_time spike - lsweep)%Q x_units in
  wf <-- deref (waveform spike) ;;
  span <-- quot_ranged (inject_Z (Z.of_nat (List.length (wf_rows wf))))
                (spike_sampling_rate spike) ;;
  let stop := rescale (span + spike_time spike - lsweep)%Q x_units in
  period <-- quot_ranged 1%Q (spike_sampling_rate spike) ;;
  arange start stop (rescale period x_units).

(** The curve [make.curve(spike_x, spike.waveform[:, channel] + offset,
    color=color, linewidth=2)] of one spike; [offset] is added as a
    magnitude in the unit of the waveform. *)
Definition spike_curve (x_units : TimeUnit) (channel : nat) (offset : Q)
    (spike : Spike) : E Curve :=
  let color := get_object_color (spike_unit spike) in
  spike_x <-- spike_x_of x_units spike ;;
  wf <-- deref (waveform spike) ;;
  wave <-- column wf channel ;;
  inr (mkCurve spike_x (shifted wave offset) (Some (color, 2))).

Definition _add_spike_waveforms (plot : nat) (spikes : list Spike)
    (x_units : TimeUnit) (channel : nat) (offset : Q) : M unit :=
  for_each spikes (fun spike =>
    curve <- lift (spike_curve x_units channel offset spike) ;;
    call (add_item plot curve) ;;;
    call progress_step).

(** One fragment of the window title. *)
Definition title_part (label : string)
    (field : AnalogSignal -> option NeoObject)
    (signals : list AnalogSignal) (win_title : string) : E string :=
  if Nat.eqb (len_set (map (fun s => obj_key (field s)) signals)) 1
  then
    s0 <-- getitem signals 0 ;;
    o <-- deref (field s0) ;;
    if name_truthy (obj_name o)
    then inr (win_title ++ label ++ name_text (obj_name o))%string
    else inr win_title
  else inr win_title.

Definition make_title (signals : list AnalogSignal) : E string :=
  let win_title := "Analog Signal" in
  win_title <-- title_part " | Recording Channel: " recordingchannel
                  signals win_title ;;
  title_part " | Segment: " segment signals win_title.

(** The x axis. *)
Definition x_axis (signals : list AnalogSignal) (time_unit : TimeUnit)
    : E (list Q) :=
  s0 <-- getitem signals 0 ;;
  sample <-- quot 1%Q (sampling_rate s0) ;;
  inr (map (fun i => rescale (i * sample)%Q time_unit)
           (arange_n (List.length (sig_samples s0)))).

(** Spike trains drawn as vertical lines. *)
Definition draw_trains (plot : nat) (spike_trains : list SpikeTrain)
    (x_units : TimeUnit) : M unit :=
  for_each spike_trains (fun train =>
    let color := get_object_color (train_unit train) in
    call (add_spikes plot train color x_units)).

(** Body of the loop of the [use_subplots] branch. *)
Definition subplot_body (signals : list AnalogSignal)
    (events : list Event) (epochs : list Epoch)
    (spike_trains : list SpikeTrain) (spikes draw_spikes : list Spike)
    (spike_train_waveforms : bool) (x : list Q) (x_units : TimeUnit)
    (offset : Q) (_ : option nat) (c : nat) : M (option nat) :=
  plot <- new_BaseCurveWidget ;;
  call (add_epochs plot epochs x_units) ;;;
  sc <- lift (getitem signals c) ;;
  call (add_item plot (mkCurve x (sig_samples sc) None)) ;;;
  call (add_events plot events x_units) ;;;
  _add_spike_waveforms plot spikes x_units c offset ;;;
  _add_spike_waveforms plot draw_spikes x_units c offset ;;;
  (if negb spike_train_waveforms
   then draw_trains plot spike_trains x_units
   else ret tt) ;;;
  call (add_plot_widget plot c) ;;;
  sc <- lift (getitem signals c) ;;
  call (set_axis_unit plot Y_LEFT (sig_units sc)) ;;;
  call progress_step ;;;
  ret (Some plot).

(** Body of the loop that finds the plot y offset, on the magnitudes
    of signals of one unit. *)
Definition offset_body (signals : list AnalogSignal) (channels : list nat)
    (max_offset : Q) (ic : nat * nat) : E Q :=
  let (i, c) := ic in
  prev <-- getitem channels (i - 1) ;;
  sp <-- getitem signals prev ;;
  hi <-- array_max (sig_samples sp) ;;
  sc <-- getitem signals c ;;
  lo <-- array_min (sig_samples sc) ;;
  let cur_offset := (hi - lo)%Q in
  if Qlt_le_dec max_offset cur_offset
  then inr cur_offset
  else inr max_offset.

Definition find_max_offset (signals : list AnalogSignal)
    (channels : list nat) : E Q :=
  for_foldE (enumerate (tl channels) 1) 0%Q (offset_body signals channels).

(** [offset -= signals[channels[0]].min()], on the magnitudes of
    signals of one unit. *)
Definition first_offset (signals : list AnalogSignal)
    (channels : list nat) (offset : Q) : E Q :=
  c0 <-- getitem channels 0 ;;
  s <-- getitem signals c0 ;;
  lo <-- array_min (sig_samples s) ;;
  inr (offset - lo)%Q.

(** Body of the drawing loop of the stacked branch; [offset] is added
    to the samples as a magnitude in their unit. *)
Definition stacked_body (signals : list AnalogSignal)
    (spikes draw_spikes : list Spike) (x : list Q) (x_units : TimeUnit)
    (plot : nat) (max_offset : Q) (offset : Q) (c : nat) : M Q :=
  sc <- lift (getitem signals c) ;;
  call (add_item plot (mkCurve x (shifted (sig_samples sc) offset) None)) ;;;
  _add_spike_waveforms plot spikes x_units c offset ;;;
  _add_spike_waveforms plot draw_spikes x_units c offset ;;;
  let offset := (offset + max_offset)%Q in
  call progress_step ;;;
  ret offset.

Definition signals (signals : list AnalogSignal)
    (events : option (list Event)) (epochs : option (list Epoch))
    (spike_trains : option (list SpikeTrain))
    (spikes : option (list Spike))
    (spike_train_waveforms use_subplots : bool)
    (time_unit : TimeUnit) (y_unit : option string) : M unit :=
  match signals with
  | [] => lift (inl (SpykeException
                 "Cannot create signal plot: No signal data provided!"))
  | _ :: _ =>
    (* Plot title *)
    win_title <- lift (make_title signals) ;;
    call (PlotDialog win_title) ;;;
    let events := or_default events in
    let epochs := or_default epochs in
    let spike_trains := or_default spike_trains in
    let spikes := or_default spikes in
    let draw_spikes :=
      if spike_train_waveforms
      then flat_map spikes_from_spike_train spike_trains
      else spikes in
    let channels := seq 0 (List.length signals) in
    call (progress_set_ticks
            ((List.length draw_spikes + List.length spikes + 1)
             * List.length channels)) ;;;
    (* X-Axis *)
    x <- lift (x_axis signals time_unit) ;;
    let x_units := time_unit in
    let offset := 0%Q in
    (if use_subplots
     then
       plot <- for_fold channels None
                 (subplot_body signals events epochs spike_trains spikes
                    draw_spikes spike_train_waveforms x x_units offset) ;;
       plot <- lift (deref plot) ;;
       call (set_axis_title plot X_BOTTOM "Time") ;;;
       call (set_axis_unit plot X_BOTTOM (tu_string x_units))
     else
       let channels := rev channels in
       plot <- new_BaseCurveWidget ;;
       call (add_epochs plot epochs x_units) ;;;
       (* Find plot y offset *)
       max_offset <- lift (find_max_offset signals channels) ;;
       offset <- lift (first_offset signals channels offset) ;;
       for_fold channels offset
         (stacked_body signals spikes draw_spikes x x_units plot
            max_offset) ;;;
       call (add_events plot events x_units) ;;;
       (if negb spike_train_waveforms
        then draw_trains plot spike_trains x_units
        else ret tt) ;;;
       call (add_plot_widget plot 0) ;;;
       call (set_axis_title plot X_BOTTOM "Time") ;;;
       call (set_axis_unit plot X_BOTTOM (tu_string x_units)) ;;;
       s0 <- lift (getitem signals 0) ;;
       call (set_axis_unit plot Y_LEFT (sig_units s0))) ;;;
    call (add_custom_curve_tools false) ;;;
    let units := nodup key_eq_dec
                   (map train_unit spike_trains ++ map spike_unit spikes) in
    call progress_done ;;;
    call (make_window_legend units false) ;;;
    call win_show ;;;
    if use_subplots
    then
      call (add_x_synchronization_option true channels) ;;;
      call (add_y_synchronization_option false channels)
    else ret tt
  end.

End Builder.

(** ** Reading the recorded calls *)

(** The values [f] picks out of a list of calls, in order. *)
Definition select {X} (f : Call -> option X) (l : list Call) : list X :=
  flat_map (fun c => match f c with Some x => [x] | None => [] end) l.

(** Curves of signals are made without a style, waveform curves with a
    color and a line width. *)
Definition signal_curve (c : Call) : option (nat * Curve) :=
  match c with
  | add_item p cv =>
      match curve_style cv with None => Some (p, cv) | Some _ => None end
  | _ => None
  end.

Definition waveform_curve (c : Call) : option (nat * Curve) :=
  match c with
  | add_item p cv =>
      match curve_style cv with Some _ => Some (p, cv) | None => None end
  | _ => None
  end.

Definition a_step (c : Call) : option unit :=
  match c with progress_step => Some tt | _ => None end.

Definition a_budget (c : Call) : option nat :=
  match c with progress_set_ticks n => Some n | _ => None end.

Definition a_window (c : Call) : option string :=
  match c with PlotDialog t => Some t | _ => None end.

Definition a_widget (c : Call) : option nat :=
  match c with BaseCurveWidget p => Some p | _ => None end.

Definition a_subplot (c : Call) : option (nat * nat) :=
  match c with add_plot_widget p pos => Some (p, pos) | _ => None end.

Definition an_axis_unit (a : Axis) (c : Call) : option (nat * string) :=
  match c with
  | set_axis_unit p a' u =>
      match a, a' with
      | X_BOTTOM, X_BOTTOM | Y_LEFT, Y_LEFT => Some (p, u)
      | _, _ => None
      end
  | _ => None
  end.

Definition a_train (c : Call) : option (nat * SpikeTrain * Color) :=
  match c with add_spikes p t col _ => Some (p, t, col) | _ => None end.

(** Number of progress ticks consumed. *)
Definition ticks (l : list Call) : nat := List.length (select a_step l).

(** [map f l] for an [f] that may raise: the first exception wins. *)
Fixpoint mapE {A B} (f : A -> E B) (l : list A) : E (list B) :=
  match l with
  | [] => inr []
  | a :: l' => b <-- f a ;; bs <-- mapE f l' ;; inr (b :: bs)
  end.

(** The calls [_add_spike_waveforms] makes for the curves [cvs]. *)
Definition waveform_calls (plot : nat) (cvs : list Curve) : list Call :=
  flat_map (fun cv => [add_item plot cv; progress_step]) cvs.


(** ** The calls of a run that returns

    The calls the builder makes when nothing raises, as a function of
    its arguments; [signals_ok] below shows that [signals] returns
    exactly when [signals_calls] is defined, having made these calls. *)

Section BuilderCalls.

Variable get_object_color : PyUnit -> Color.
Variable spikes_from_spike_train : SpikeTrain -> list Spike.

Definition train_calls (plot : nat) (spike_trains : list SpikeTrain)
    (x_units : TimeUnit) : list Call :=
  map (fun train =>
         add_spikes plot train (get_object_color (train_unit train))
           x_units)
      spike_trains.

Definition waveform_curves (x_units : TimeUnit) (channel : nat)
    (offset : Q) (spikes : list Spike) : E (list Curve) :=
  mapE (spike_curve get_object_color x_units channel offset) spikes.

(** What one iteration of a drawing loop works with: the channel, its
    signal, its offset, and the curves of [spikes] and [draw_spikes]. *)
Record Row : Type := mkRow {
  row_channel : nat;
  row_signal : AnalogSignal;
  row_offset : Q;
  row_spikes : list Curve;
  row_draw_spikes : list Curve
}.

Definition make_row (signals : list AnalogSignal)
    (spikes draw_spikes : list Spike) (x_units : TimeUnit)
    (offset : Q) (c : nat) : E Row :=
  sc <-- getitem signals c ;;
  cvs <-- waveform_curves x_units c offset spikes ;;
  dcvs <-- waveform_curves x_units c offset draw_spikes ;;
  inr (mkRow c sc offset cvs dcvs).

Definition subplot_calls (events : list Event) (epochs : list Epoch)
    (spike_trains : list SpikeTrain) (spike_train_waveforms : bool)
    (x : list Q) (x_units : TimeUnit) (plot : nat) (r : Row)
    : list Call :=
  [BaseCurveWidget plot;
   add_epochs plot epochs x_units;
   add_item plot (mkCurve x (sig_samples (row_signal r)) None);
   add_events plot events x_units]
  ++ waveform_calls plot (row_spikes r)
  ++ waveform_calls plot (row_draw_spikes r)
  ++ (if negb spike_train_waveforms
      then train_calls plot spike_trains x_units else [])
  ++ [add_plot_widget plot (row_channel r);
      set_axis_unit plot Y_LEFT (sig_units (row_signal r));
      progress_step].

Fixpoint subplots_calls (events : list Event) (epochs : list Epoch)
    (spike_trains : list SpikeTrain) (spike_train_waveforms : bool)
    (x : list Q) (x_units : TimeUnit) (plot : nat) (rows : list Row)
    : list Call :=
  match rows with
  | [] => []
  | r :: rows' =>
      subplot_calls events epochs spike_trains spike_train_waveforms
        x x_units plot r
      ++ subplots_calls events epochs spike_trains spike_train_waveforms
           x x_units (S plot) rows'
  end.

(** The value of [plot] after [n] subplots, the first being widget
    [p]. *)
Definition last_plot (o : option nat) (p n : nat) : option nat :=
  match n with
  | O => o
  | S k => Some (p + k)
  end.

Fixpoint stacked_rows (signals : list AnalogSignal)
    (spikes draw_spikes : list Spike) (x_units : TimeUnit)
    (max_offset offset : Q) (channels : list nat) : E (list Row) :=
  match channels with
  | [] => inr []
  | c :: channels' =>
      r <-- make_row signals spikes draw_spikes x_units offset c ;;
      rs <-- stacked_rows signals spikes draw_spikes x_units max_offset
               (offset + max_offset)%Q channels' ;;
      inr (r :: rs)
  end.

Definition stacked_calls (x : list Q) (plot : nat) (rows : list Row)
    : list Call :=
  flat_map (fun r =>
    [add_item plot
       (mkCurve x (shifted (sig_samples (row_signal r)) (row_offset r))
          None)]
    ++ waveform_calls plot (row_spikes r)
    ++ waveform_calls plot (row_draw_spikes r)
    ++ [progress_step]) rows.

(** The offsets of [n] channels drawn one after the other. *)
Fixpoint offsets_from (max_offset offset : Q) (n : nat) : list Q :=
  match n with
  | O => []
  | S k => offset :: offsets_from max_offset (offset + max_offset)%Q k
  end.

(** The offset after [n] channels. *)
Fixpoint advance (max_offset offset : Q) (n : nat) : Q :=
  match n with
  | O => offset
  | S k => advance max_offset (offset + max_offset)%Q k
  end.

(** Calls and widgets of the branch on [use_subplots]. *)
Definition branch_calls (signals : list AnalogSignal)
    (events : list Event) (epochs : list Epoch)
    (spike_trains : list SpikeTrain) (spikes draw_spikes : list Spike)
    (spike_train_waveforms use_subplots : bool) (x : list Q)
    (x_units : TimeUnit) (p : nat) : E (list Call * nat) :=
  let channels := seq 0 (List.length signals) in
  if use_subplots
  then
    rows <-- mapE (make_row signals spikes draw_spikes x_units 0%Q)
               channels ;;
    plot <-- deref (last_plot None p (List.length rows)) ;;
    inr (subplots_calls events epochs spike_trains spike_train_waveforms
           x x_units p rows
         ++ [set_axis_title plot X_BOTTOM "Time";
             set_axis_unit plot X_BOTTOM (tu_string x_units)],
         List.length rows)
  else
    let channels := rev channels in
    max_offset <-- find_max_offset signals channels ;;
    offset <-- first_offset signals channels 0%Q ;;
    rows <-- stacked_rows signals spikes draw_spikes x_units max_offset
               offset channels ;;
    s0 <-- getitem signals 0 ;;
    inr ([BaseCurveWidget p; add_epochs p epochs x_units]
         ++ stacked_calls x p rows
         ++ [add_events p events x_units]
         ++ (if negb spike_train_waveforms
             then train_calls p spike_trains x_units else [])
         ++ [add_plot_widget p 0;
             set_axis_title p X_BOTTOM "Time";
             set_axis_unit p X_BOTTOM (tu_string x_units);
             set_axis_unit p Y_LEFT (sig_units s0)],
         1).

Definition signals_calls (signals : list AnalogSignal)
    (events : option (list Event)) (epochs : option (list Epoch))
    (spike_trains : option (list SpikeTrain))
    (spikes : option (list Spike))
    (spike_train_waveforms use_subplots : bool)
    (time_unit : TimeUnit) (p : nat) : E (list Call * nat) :=
  match signals with
  | [] => inl (SpykeException
                 "Cannot create signal plot: No signal data provided!")
  | _ :: _ =>
    let events := or_default events in
    let epochs := or_default epochs in
    let spike_trains := or_default spike_trains in
    let spikes := or_default spikes in
    let draw_spikes :=
      if spike_train_waveforms
      then flat_map spikes_from_spike_train spike_trains
      else spikes in
    let channels := seq 0 (List.length signals) in
    win_title <-- make_title signals ;;
    x <-- x_axis signals time_unit ;;
    main <-- branch_calls signals events epochs spike_trains spikes
               draw_spikes spike_train_waveforms use_subplots x time_unit
               p ;;
    inr ([PlotDialog win_title;
          progress_set_ticks
            ((List.length draw_spikes + List.length spikes + 1)
             * List.length channels)]
         ++ fst main
         ++ [add_custom_curve_tools false;
             progress_done;
             make_window_legend
               (nodup key_eq_dec
                  (map train_unit spike_trains ++ map spike_unit spikes))
               false;
             win_show]
         ++ (if use_subplots
             then [add_x_synchronization_option true channels;
                   add_y_synchronization_option false channels]
             else []),
         snd main)
  end.

(** The style [_add_spike_waveforms] gives the curve of a spike. *)
Definition spike_style (spike : Spike) : option (Color * nat) :=
  Some (get_object_color (spike_unit spike), 2).

(** What [make_row] guarantees about a row. *)
Record row_ok (signals : list AnalogSignal) (spikes draw_spikes : list Spike)
    (offset : Q) (c : nat) (r : Row) : Prop := mkRowOk {
  row_ok_channel : row_channel r = c;
  row_ok_signal : nth_error signals c = Some (row_signal r);
  row_ok_offset : row_offset r = offset;
  row_ok_spikes : map curve_style (row_spikes r) = map spike_style spikes;
  row_ok_draw :
    map curve_style (row_draw_spikes r) = map spike_style draw_spikes
}.

(** The rows of a loop over the channels [map fst cos] that uses the
    offsets [map snd cos]. *)
Definition rows_ok (signals : list AnalogSignal)
    (spikes draw_spikes : list Spike) (cos : list (nat * Q))
    (rows : list Row) : Prop :=
  Forall2 (fun co r => row_ok signals spikes draw_spikes (snd co) (fst co) r)
    cos rows.

(** The spikes drawn as waveforms besides [spikes]. *)
Definition draw_spikes_of (trains : option (list SpikeTrain))
    (spikes : option (list Spike)) (stw : bool) : list Spike :=
  if stw
  then flat_map spikes_from_spike_train (or_default trains)
  else or_default spikes.

(** The calls after the branch on [use_subplots]. *)
Definition closing_calls (sigs : list AnalogSignal)
    (trains : option (list SpikeTrain)) (spikes : option (list Spike))
    (us : bool) : list Call :=
  [add_custom_curve_tools false;
   progress_done;
   make_window_legend
     (nodup key_eq_dec
        (map train_unit (or_default trains)
         ++ map spike_unit (or_default spikes)))
     false;
   win_show]
  ++ (if us
      then [add_x_synchronization_option true (seq 0 (List.length sigs));
            add_y_synchronization_option false (seq 0 (List.length sigs))]
      else []).

(** Every spike train is drawn in the color of its unit. *)
Definition train_colored (c : Call) : Prop :=
  forall p t col, a_train c = Some (p, t, col) ->
                  col = get_object_color (train_unit t).

End BuilderCalls.

(** A curve made with a color and a line width. *)
Definition styled (cv : Curve) : Prop := curve_style cv <> None.


(** The waveform curves of a row carry a style. *)
Definition row_styled (r : Row) : Prop :=
  Forall styled (row_spikes r) /\ Forall styled (row_draw_spikes r).

(** ** The builder over a store of Python objects

    The same function once more, this time with its arguments as
    references into a store, to see which objects it writes to.  Every
    statement of the source that creates an object or updates one in
    place is here: [draw_spikes = []] and [draw_spikes.extend(...)],
    [draw_spikes = spikes] (no new object: the same reference),
    [channels = range(...)] and [channels.reverse()], the array [x] and
    [x.units = time_unit], [offset] with [offset -= ...] and
    [offset += max_offset], and the arrays [signals[c] + offset] and
    [spike.waveform[:, channel] + offset] handed to [make.curve].  The
    plotting toolkit and the helpers get references and are taken not
    to write through them. *)

Module Py.

Inductive obj : Type :=
| List (items : list nat)        (* a sequence of references *)
| Ints (items : list nat)        (* a list of integers *)
| Signal (s : AnalogSignal)      (* an AnalogSignal: array and attributes *)
| Quantity (data : list Q)       (* an array or scalar with a unit *)
| ASpike (s : Spike)
| ATrain (t : SpikeTrain)
| AnEvent (e : Event)
| AnEpoch (e : Epoch)
| Units (us : list PyUnit).      (* a set of units *)

Record Store : Type := mkStore {
  objs : gmap nat obj;
  next : nat                     (* references from here on are unused *)
}.

Definition H (A : Type) : Type := ST Store A.

(** A new object. *)
Definition alloc (v : obj) : H nat :=
  fun h => (inr (next h), mkStore (<[next h := v]> (objs h)) (S (next h))).

Definition load (l : nat) : H obj :=
  fun h => match objs h !! l with
           | Some v => (inr v, h)
           | None => (inl TypeError, h)
           end.

(** An update in place of the object at [l]. *)
Definition store (l : nat) (v : obj) : H unit :=
  fun h => match objs h !! l with
           | Some _ => (inr tt, mkStore (<[l := v]> (objs h)) (next h))
           | None => (inl TypeError, h)
           end.

Definition load_list (l : nat) : H (list nat) :=
  v <- load l ;;
  match v with List items => ret items | _ => lift (inl TypeError) end.

Definition load_ints (l : nat) : H (list nat) :=
  v <- load l ;;
  match v with Ints items => ret items | _ => lift (inl TypeError) end.

Definition load_signal (l : nat) : H AnalogSignal :=
  v <- load l ;;
  match v with Signal s => ret s | _ => lift (inl TypeError) end.

Definition load_quantity (l : nat) : H (list Q) :=
  v <- load l ;;
  match v with Quantity d => ret d | _ => lift (inl TypeError) end.

Definition load_spike (l : nat) : H Spike :=
  v <- load l ;;
  match v with ASpike s => ret s | _ => lift (inl TypeError) end.

Definition load_train (l : nat) : H SpikeTrain :=
  v <- load l ;;
  match v with ATrain t => ret t | _ => lift (inl TypeError) end.

(** A scalar quantity. *)
Definition load_scalar (l : nat) : H Q :=
  d <- load_quantity l ;;
  match d with [q] => ret q | _ => lift (inl TypeError) end.

(** [for x in l: ... collect f x] *)
Fixpoint map_each {A B} (l : list A) (f : A -> H B) : H (list B) :=
  match l with
  | [] => ret []
  | a :: l' => b <- f a ;; bs <- map_each l' f ;; ret (b :: bs)
  end.

(** [l.extend(items)] *)
Definition list_extend (l : nat) (items : list nat) : H unit :=
  old <- load_list l ;;
  store l (List (old ++ items)).

(** [l.reverse()] *)
Definition list_reverse (l : nat) : H unit :=
  old <- load_ints l ;;
  store l (Ints (rev old)).

(** [x.units = u]: the array is rescaled where it is. *)
Definition set_units (x : nat) (u : TimeUnit) : H unit :=
  d <- load_quantity x ;;
  store x (Quantity (map (fun v => rescale v u) d)).

(** [a -= b] and [a += b] on scalar quantities. *)
Definition isub (a : nat) (b : Q) : H unit :=
  v <- load_scalar a ;;
  store a (Quantity [(v - b)%Q]).

Definition iadd (a : nat) (b : Q) : H unit :=
  v <- load_scalar a ;;
  store a (Quantity [(v + b)%Q]).

(** [x if x is not None else []]: a new empty list when absent. *)
Definition or_new_list (o : option nat) : H nat :=
  match o with
  | Some l => ret l
  | None => alloc (List [])
  end.

Section Builder.

Variable spikes_from_spike_train : SpikeTrain -> list Spike.

(** [conversions.spikes_from_spike_train(st)]: new spike objects. *)
Definition spikes_from_spike_train_at (st : nat) : H (list nat) :=
  t <- load_train st ;;
  map_each (spikes_from_spike_train t) (fun s => alloc (ASpike s)).

(** [signals[c]] *)
Definition signal_at (signals : nat) (c : nat) : H AnalogSignal :=
  refs <- load_list signals ;;
  l <- lift (getitem refs c) ;;
  load_signal l.

(** [_add_spike_waveforms]: per spike, the arrays [spike_x] and
    [spike.waveform[:, channel] + offset] are new. *)
Definition _add_spike_waveforms (spikes : nat) (x_units : TimeUnit)
    (channel : nat) (offset : nat) : H unit :=
  items <- load_list spikes ;;
  for_each items (fun l =>
    spike <- load_spike l ;;
    spike_x <- lift (spike_x_of x_units spike) ;;
    _ <- alloc (Quantity spike_x) ;;
    wf <- lift (deref (waveform spike)) ;;
    wave <- lift (column wf channel) ;;
    off <- load_scalar offset ;;
    _ <- alloc (Quantity (shifted wave off)) ;;
    ret tt).

Definition signals (signals : nat) (events epochs spike_trains
    spikes : option nat) (spike_train_waveforms use_subplots : bool)
    (time_unit : TimeUnit) : H unit :=
  sig_refs <- load_list signals ;;
  match sig_refs with
  | [] => lift (inl (SpykeException
                 "Cannot create signal plot: No signal data provided!"))
  | _ :: _ =>
    sigs <- map_each sig_refs load_signal ;;
    _ <- lift (make_title sigs) ;;
    events <- or_new_list events ;;
    epochs <- or_new_list epochs ;;
    spike_trains <- or_new_list spike_trains ;;
    spikes <- or_new_list spikes ;;
    draw_spikes <-
      (if spike_train_waveforms
       then
         draw_spikes <- alloc (List []) ;;
         trains <- load_list spike_trains ;;
         for_each trains (fun st =>
           new <- spikes_from_spike_train_at st ;;
           list_extend draw_spikes new) ;;;
         ret draw_spikes
       else ret spikes) ;;
    channels <- alloc (Ints (seq 0 (List.length sig_refs))) ;;
    _ <- load_list draw_spikes ;;
    _ <- load_list spikes ;;
    (* X-Axis *)
    s0 <- signal_at signals 0 ;;
    sample <- lift (quot 1%Q (sampling_rate s0)) ;;
    x <- alloc (Quantity
                  (map (fun i => (i * sample)%Q)
                     (arange_n (List.length (sig_samples s0))))) ;;
    set_units x time_unit ;;;
    offset <- alloc (Quantity [0%Q]) ;;
    (if use_subplots
     then
       cs <- load_ints channels ;;
       for_each cs (fun c =>
         _ <- signal_at signals c ;;
         _add_spike_waveforms spikes time_unit c offset ;;;
         _add_spike_waveforms draw_spikes time_unit c offset ;;;
         (if negb spike_train_waveforms
          then _ <- load_list spike_trains ;; ret tt
          else ret tt) ;;;
         _ <- signal_at signals c ;;
         ret tt)
     else
       list_reverse channels ;;;
       cs <- load_ints channels ;;
       (* Find plot y offset *)
       max_offset <- alloc (Quantity [0%Q]) ;;
       max_offset <- for_fold (enumerate (tl cs) 1) max_offset
         (fun max_offset ic =>
            channels_now <- load_ints channels ;;
            prev <- lift (getitem channels_now (fst ic - 1)) ;;
            sp <- signal_at signals prev ;;
            hi <- lift (array_max (sig_samples sp)) ;;
            sc <- signal_at signals (snd ic) ;;
            lo <- lift (array_min (sig_samples sc)) ;;
            cur_offset <- alloc (Quantity [(hi - lo)%Q]) ;;
            cur <- load_scalar cur_offset ;;
            mo <- load_scalar max_offset ;;
            if Qlt_le_dec mo cur then ret cur_offset else ret max_offset) ;;
       channels_now <- load_ints channels ;;
       c0 <- lift (getitem channels_now 0) ;;
       s <- signal_at signals c0 ;;
       lo <- lift (array_min (sig_samples s)) ;;
       isub offset lo ;;;
       for_each cs (fun c =>
         sc <- signal_at signals c ;;
         off <- load_scalar offset ;;
         _ <- alloc (Quantity (shifted (sig_samples sc) off)) ;;
         _add_spike_waveforms spikes time_unit c offset ;;;
         _add_spike_waveforms draw_spikes time_unit c offset ;;;
         mo <- load_scalar max_offset ;;
         iadd offset mo) ;;;
       (if negb spike_train_waveforms
        then _ <- load_list spike_trains ;; ret tt
        else ret tt) ;;;
       _ <- signal_at signals 0 ;;
       ret tt) ;;;
    trains <- load_list spike_trains ;;
    ts <- map_each trains load_train ;;
    sps <- load_list spikes ;;
    ss <- map_each sps load_spike ;;
    _ <- alloc (Units (nodup key_eq_dec
                         (map train_unit ts ++ map spike_unit ss))) ;;
    ret tt
  end.

End Builder.

(** The objects below [n] are the same in [h] and [h']. *)
Definition frame (n : nat) (h h' : Store) : Prop :=
  forall l, (l < n)%nat -> objs h' !! l = objs h !! l.

(** From a store with nothing unused below [n], the computation [m]
    leaves the objects below [n] as they are, and a result [a]
    satisfies [Q]. *)
Definition keeps {A} (n : nat) (m : H A) (Q : A -> Prop) : Prop :=
  forall h, (n <= next h)%nat ->
    (n <= next (snd (m h)))%nat /\
    frame n h (snd (m h)) /\
    match fst (m h) with
    | inr a => Q a
    | inl _ => True
    end.

End Py.

(** ** The x coordinates of a spike on binary64

    numpy and the quantities package compute on IEEE 754 binary64
    numbers.  This module renders lines 176-184 of
    [_add_spike_waveforms] on them, for a spike whose time and left
    sweep are held in the unit of the x axis and whose sampling rate
    is held in the reciprocal of that unit: [rescale] then multiplies
    by 1.0 or does nothing, and both leave a binary64 number as it
    is. *)

Module F64.

Record Spike : Type := mkSpike {
  time : PrimFloat.float;
  left_sweep : option PrimFloat.float;
  sampling_rate : PrimFloat.float;
  shape0 : nat                        (* waveform.shape[0] *)
}.

(** [float(n)] for a Python integer that fits a machine word. *)
Definition of_Z (n : Z) : PrimFloat.float :=
  PrimFloat.of_uint63 (Uint63.of_Z n).

Definition of_nat (n : nat) : PrimFloat.float := of_Z (Z.of_nat n).

(** [ceil(f)] as an integer; [None] when [f] is infinite or not a
    number. *)
Definition ceiling (f : PrimFloat.float) : option Z :=
  match FloatOps.Prim2SF f with
  | SpecFloat.S754_zero _ => Some 0%Z
  | SpecFloat.S754_finite negative m e =>
      let whole :=
        if (0 <=? e)%Z then (Z.pos m * 2 ^ e)%Z
        else if negative then (Z.pos m / 2 ^ (- e))%Z
        else ((Z.pos m + 2 ^ (- e) - 1) / 2 ^ (- e))%Z in
      Some (if negative then (- whole)%Z else whole)
  | _ => None
  end.

(** [sp.arange(start, stop, step)]: numpy takes
    [ceil((stop - start) / step)] for the length, raises [ValueError]
    when that is not a finite number, stores [start] and
    [start + step] and fills in the rest as [start + i * delta] with
    [delta] the difference of the two. *)
Definition arange (start stop step : PrimFloat.float)
    : E (list PrimFloat.float) :=
  match ceiling (PrimFloat.div (PrimFloat.sub stop start) step) with
  | None => inl ValueError
  | Some n =>
      let next := PrimFloat.add start step in
      let delta := PrimFloat.sub next start in
      inr (map (fun i =>
                  match i with
                  | O => start
                  | S O => next
                  | _ => PrimFloat.add start (PrimFloat.mul (of_nat i) delta)
                  end)
             (seq 0 (Z.to_nat n)))
  end.

(** [spike.left_sweep if spike.left_sweep else 0.0 * pq.ms] *)
Definition lsweep_of (spike : Spike) : PrimFloat.float :=
  match left_sweep spike with
  | Some l => if PrimFloat.eqb l PrimFloat.zero then PrimFloat.zero else l
  | None => PrimFloat.zero
  end.

(** [start] of the window of a spike. *)
Definition start_of (spike : Spike) : PrimFloat.float :=
  PrimFloat.sub (time spike) (lsweep_of spike).

(** [stop] of the window of a spike:
    [waveform.shape[0] / sampling_rate + time - lsweep]. *)
Definition stop_of (spike : Spike) : PrimFloat.float :=
  PrimFloat.sub
    (PrimFloat.add
       (PrimFloat.div (of_nat (shape0 spike)) (sampling_rate spike))
       (time spike))
    (lsweep_of spike).

(** [spike_x], the x coordinates of one spike. *)
Definition spike_x_of (spike : Spike) : E (list PrimFloat.float) :=
  arange (start_of spike) (stop_of spike)
    (PrimFloat.div PrimFloat.one (sampling_rate spike)).

(** A spike at 0.1 s with three samples at 10 Hz, on an x axis in
    seconds: [time] is the binary64 number closest to 0.1. *)
Definition spike : Spike :=
  mkSpike (PrimFloat.div PrimFloat.one (of_Z 10)) None (of_Z 10) 3.

(** A spike at 2 s with thirty samples at 10 kHz, on an x axis in
    seconds. *)
Definition spike_10k : Spike :=
  mkSpike (of_Z 2) None (of_Z 10000) 30.

(** A spike at 0.5 s with a left sweep of 0.25 s and three samples at
    8 Hz: every number of its window is a binary64 number. *)
Definition swept : Spike :=
  mkSpike (PrimFloat.div PrimFloat.one (of_Z 2))
    (Some (PrimFloat.div PrimFloat.one (of_Z 4))) (of_Z 8) 3.

End F64.

(** ** Notions the properties are stated with *)

(** The calls made from inside the drawing loops. *)
Definition inner_call (c : Call) : Prop :=
  match c with
  | BaseCurveWidget _ | add_epochs _ _ _ | add_events _ _ _
  | add_spikes _ _ _ _ | add_item _ _ | add_plot_widget _ _
  | set_axis_unit _ Y_LEFT _ | progress_step => True
  | _ => False
  end.

(** All signals refer to one and the same object [o] through [field]:
    the first signal refers to [o], and every signal refers to an object
    with the identity of [o]. *)
Definition shared (field : AnalogSignal -> option NeoObject)
    (signals : list AnalogSignal) (o : NeoObject) : Prop :=
  (exists s0, hd_error signals = Some s0 /\ field s0 = Some o) /\
  forall s, In s signals -> obj_key (field s) = Some (obj_id o).

(** [o] has the non-empty name [n]. *)
Definition named (o : NeoObject) (n : string) : Prop :=
  obj_name o = Some n /\ n <> "".

(** [part] is the fragment the title gets for [field]: the label and the
    name when the signals share one named object, nothing otherwise. *)
Definition fragment (label : string)
    (field : AnalogSignal -> option NeoObject)
    (signals : list AnalogSignal) (part : string) : Prop :=
  (exists o n, shared field signals o /\ named o n /\
               part = (label ++ n)%string) \/
  (~ (exists o n, shared field signals o /\ named o n) /\ part = "").


Definition IsMin (a : list Q) (m : Q) : Prop :=
  In m a /\ forall v, In v a -> (m <= v)%Q.

(** The loop that finds the plot y offset, read over the signals in the
    order of the channels: [prev] is the signal of the previous
    channel, [rest] the signals of the channels still to come. *)
Fixpoint scan_offsets (max_offset : Q) (prev : AnalogSignal)
    (rest : list AnalogSignal) : E Q :=
  match rest with
  | [] => inr max_offset
  | cur :: rest' =>
      hi <-- array_max (sig_samples prev) ;;
      lo <-- array_min (sig_samples cur) ;;
      let cur_offset := (hi - lo)%Q in
      scan_offsets
        (if Qlt_le_dec max_offset cur_offset then cur_offset else max_offset)
        cur rest'
  end.



(** A spike that can be drawn on [n] channels: it has a waveform with at
    least [n] columns and a positive sampling rate. *)
Definition spike_ok (n : nat) (s : Spike) : Prop :=
  exists wf, waveform s = Some wf /\
             (0 < spike_sampling_rate s)%Q /\
             (n <= wf_channels wf)%nat.

(** The signals carry one unit: the subtractions, the comparisons and
    the additions of the stacked plot then work on the magnitudes as
    they are. *)
Definition same_units (signals : list AnalogSignal) : Prop :=
  exists u, Forall (fun s => sig_units s = u) signals.

(** The signals and the waveforms of the spikes [drawn] carry one
    unit, so that the offset, which is in the unit of [signals[0]], is
    added to the waveforms as it is. *)
Definition common_unit (signals : list AnalogSignal)
    (drawn : list Spike) : Prop :=
  exists u,
    Forall (fun s => sig_units s = u) signals /\
    Forall (fun sp => forall wf, waveform sp = Some wf -> wf_units wf = u)
      drawn.

(** Arguments on which nothing raises: the first signal has a recording
    channel, a segment and a positive sampling rate; the time unit has
    a positive size; every spike drawn as a waveform can be drawn on
    all channels, and its waveform carries the unit of the first
    signal, in which the offset is held; for a stacked plot the
    signals carry one unit and each has a sample. *)
Definition well_formed (signals : list AnalogSignal)
    (drawn : list Spike) (use_subplots : bool) (time_unit : TimeUnit)
    : Prop :=
  (exists s0, hd_error signals = Some s0 /\
              recordingchannel s0 <> None /\ segment s0 <> None /\
              (0 < sampling_rate s0)%Q /\
              Forall (fun sp => forall wf, waveform sp = Some wf ->
                                           wf_units wf = sig_units s0)
                drawn) /\
  (0 < tu_seconds time_unit)%Q /\
  Forall (spike_ok (List.length signals)) drawn /\
  (use_subplots = false ->
   same_units signals /\
   Forall (fun s => sig_samples s <> []) signals).

(** A computation that does not raise [SpykeException]. *)
Definition quiet {A} (e : E A) : Prop :=
  forall msg, e <> inl (SpykeException msg).

Definition quiet_run {A} (m : M A) : Prop :=
  forall w, quiet (fst (m w)).

(** ** Further readings of the calls *)

(** The calls that finish a plot: the end of the progress, the legend,
    showing the window and the synchronization options. *)
Definition a_finish (c : Call) : option Call :=
  match c with
  | progress_done | win_show | make_window_legend _ _
  | add_x_synchronization_option _ _
  | add_y_synchronization_option _ _ => Some c
  | _ => None
  end.

Definition a_legend (c : Call) : option (list PyUnit * bool) :=
  match c with
  | make_window_legend us b => Some (us, b)
  | _ => None
  end.

(** What lies on a plot besides spikes: the epochs, the trace of a
    signal, the events. *)
Inductive Layer : Type :=
| Epochs (epochs : list Epoch) (units : TimeUnit)
| Trace (y : list Q)
| Events (events : list Event) (units : TimeUnit).

Definition a_layer (c : Call) : option (nat * Layer) :=
  match c with
  | add_epochs p e u => Some (p, Epochs e u)
  | add_events p e u => Some (p, Events e u)
  | add_item p cv =>
      match curve_style cv with
      | None => Some (p, Trace (curve_y cv))
      | Some _ => None
      end
  | _ => None
  end.

(** A computation that makes no finishing call, whatever its outcome. *)
Definition unfinished {A} (m : M A) : Prop :=
  forall w, select a_finish (calls (snd (m w))) = select a_finish (calls w).

(** A computation that has made no finishing call when it raises. *)
Definition fails_unfinished {A} (m : M A) : Prop :=
  forall w e,
    fst (m w) = inl e ->
    select a_finish (calls (snd (m w))) = select a_finish (calls w).

(** Every curve put on a plot, of a signal or of a spike. *)
Definition an_item (c : Call) : option (nat * Curve) :=
  match c with
  | add_item p cv => Some (p, cv)
  | _ => None
  end.

(** The curve [cv] shows channel [c] of the waveform of the spike [s],
    moved up by [off]. *)
Definition overlay_of (c : nat) (off : Q) (s : Spike) (cv : Curve) : Prop :=
  exists wf,
    waveform s = Some wf /\
    curve_y cv = map (fun row => (nth c row 0 + off)%Q) (wf_rows wf).

(** The row [r] belongs to the channel [row_channel r] of [signals],
    and its waveform curves show that channel of the spikes, moved up
    by [row_offset r]. *)
Definition row_drawn (signals : list AnalogSignal)
    (spikes draw_spikes : list Spike) (r : Row) : Prop :=
  nth_error signals (row_channel r) = Some (row_signal r) /\
  Forall2 (overlay_of (row_channel r) (row_offset r)) spikes (row_spikes r) /\
  Forall2 (overlay_of (row_channel r) (row_offset r)) draw_spikes
    (row_draw_spikes r).

(** ** Sample data *)

Module Sample.

Definition palette (u : PyUnit) : Color :=
  match u with
  | Some O => "red"
  | Some _ => "blue"
  | None => "black"
  end.

Definition ms : TimeUnit := mkTimeUnit "ms" (1 # 1000).

Definition channel1 : NeoObject := mkObj 1 (Some "ch1").
Definition trial : NeoObject := mkObj 2 (Some "").

(** Two signals of two samples at 1 kHz; [high] lies above [low]. *)
Definition high : AnalogSignal :=
  mkSignal [10 # 1; 11 # 1] (1000 # 1) "mV" (Some channel1) (Some trial).
Definition low : AnalogSignal :=
  mkSignal [0 # 1; 1 # 1] (1000 # 1) "uV" (Some channel1) (Some trial).

(** A signal in the unit of [high] that lies below it. *)
Definition base : AnalogSignal :=
  mkSignal [0 # 1; 1 # 1] (1000 # 1) "mV" (Some channel1) (Some trial).

(** A spike of unit 0 at 1 ms: three samples on two channels, in mV. *)
Definition spike0 : Spike :=
  mkSpike (Some 0) (1 # 1000) None (1000 # 1)
    (Some (mkWaveform [[1 # 1; 2 # 1]; [3 # 1; 4 # 1]; [5 # 1; 6 # 1]] 2 "mV")).

(** A spike of unit 0 at 4 ms with a left sweep of 1 ms. *)
Definition spike1 : Spike :=
  mkSpike (Some 0) (4 # 1000) (Some (1 # 1000)) (1000 # 1)
    (Some (mkWaveform [[7 # 1; 8 # 1]; [9 # 1; 7 # 1]] 2 "mV")).

Definition train0 : SpikeTrain := mkTrain (Some 0) [1 # 1000; 4 # 1000].
Definition train1 : SpikeTrain := mkTrain (Some 1) [2 # 1000].

(** A spike at 0.1 s with three samples on one channel at 10 Hz, and
    the second as the unit of the x axis. *)
Definition slow : Spike :=
  mkSpike None (1 # 10) None (10 # 1)
    (Some (mkWaveform [[0 # 1]; [0 # 1]; [0 # 1]] 1 "mV")).

Definition sec : TimeUnit := mkTimeUnit "s" (1 # 1).

(** One spike per time stamp of the train, with a flat waveform. *)
Definition spikes_of (t : SpikeTrain) : list Spike :=
  map (fun time =>
         mkSpike (train_unit t) time None (1000 # 1)
           (Some (mkWaveform [[0 # 1; 0 # 1]; [1 # 1; 1 # 1]] 2 "mV")))
      (train_times t).

(** A store with the two signals, the list of them, a spike and the
    list of spikes. *)
Definition store0 : Py.Store :=
  Py.mkStore
    (<[0 := Py.Signal high]>
       (<[1 := Py.Signal low]>
          (<[2 := Py.List [0; 1]]>
             (<[3 := Py.ASpike spike0]>
                (<[4 := Py.List [3]]> ∅)))))
    5.

End Sample.

(** ** Sample data on which the builder raises *)

Module Faulty.

(** A spike of unit 1 at 2 ms that carries no waveform. *)
Definition bare : Spike :=
  mkSpike (Some 1) (2 # 1000) None (1000 # 1) None.

(** A signal that belongs to no recording channel. *)
Definition loose : AnalogSignal :=
  mkSignal [1 # 1; 2 # 1] (1000 # 1) "mV" None (Some Sample.trial).

End Faulty.
(** ** Runs of the monad *)

Lemma select_app {X} (f : Call -> option X) (l1 l2 : list Call) :
  select f (l1 ++ l2) = select f l1 ++ select f l2.
Proof. unfold select. apply flat_map_app. Qed.

Lemma emit_nil (w : World) : emit w [] 0 = w.
Proof.
  destruct w as [cs k]. unfold emit. simpl.
  now rewrite app_nil_r, Nat.add_0_r.
Qed.

Lemma emit_emit (w : World) (o1 o2 : list Call) (k1 k2 : nat) :
  emit (emit w o1 k1) o2 k2 = emit w (o1 ++ o2) (k1 + k2).
Proof.
  unfold emit. simpl. now rewrite <- app_assoc, Nat.add_assoc.
Qed.

Lemma bind_ok {A B} (m : M A) (k : A -> M B) (w w' : World) (b : B) :
  bind m k w = (inr b, w') <->
  exists a w1, m w = (inr a, w1) /\ k a w1 = (inr b, w').
Proof.
  unfold bind. destruct (m w) as [[e | a] w1]; split.
  - discriminate.
  - intros (a & w2 & H & _). discriminate.
  - eauto.
  - intros (a' & w2 & H & Hk). now inversion H; subst.
Qed.

Lemma lift_ok {A} (e : E A) (w w' : World) (a : A) :
  lift e w = (inr a, w') <-> e = inr a /\ w' = w.
Proof.
  unfold lift. split.
  - intros H. now inversion H.
  - now intros [-> ->].
Qed.

Lemma ret_ok {A} (a b : A) (w w' : World) :
  ret a w = (inr b, w') <-> b = a /\ w' = w.
Proof.
  unfold ret. split.
  - intros H. now inversion H.
  - now intros [-> ->].
Qed.

Lemma call_ok (c : Call) (w w' : World) (u : unit) :
  call c w = (inr u, w') <-> w' = emit w [c] 0.
Proof.
  unfold call. destruct u. split.
  - intros H. now inversion H.
  - now intros ->.
Qed.

Lemma widget_ok (w w' : World) (p : nat) :
  new_BaseCurveWidget w = (inr p, w') <->
  p = widgets w /\ w' = emit w [BaseCurveWidget (widgets w)] 1.
Proof.
  unfold new_BaseCurveWidget. split.
  - intros H. now inversion H.
  - now intros [-> ->].
Qed.

Lemma bindE_ok {A B} (e : E A) (k : A -> E B) (b : B) :
  bindE e k = inr b <-> exists a, e = inr a /\ k a = inr b.
Proof.
  destruct e as [x | a]; simpl; split.
  - discriminate.
  - intros (a & H & _). discriminate.
  - eauto.
  - intros (a' & H & Hk). now inversion H; subst.
Qed.

Lemma mapE_length {A B} (f : A -> E B) (l : list A) (bs : list B) :
  mapE f l = inr bs -> List.length bs = List.length l.
Proof.
  revert bs. induction l as [| a l IH]; simpl; intros bs H.
  - now inversion H.
  - apply bindE_ok in H as (b & _ & H).
    apply bindE_ok in H as (bs' & Hbs & H).
    inversion H; subst. simpl. f_equal. now apply IH.
Qed.

Lemma mapE_total {A B} (f : A -> E B) (l : list A) :
  (forall a, In a l -> exists b, f a = inr b) ->
  exists bs, mapE f l = inr bs.
Proof.
  induction l as [| a l IH]; simpl; intros H.
  - eauto.
  - destruct (H a) as (b & Hb); [now left |].
    destruct IH as (bs & Hbs); [intros; apply H; now right |].
    rewrite Hb, Hbs. simpl. eauto.
Qed.

Lemma bind_run {A B} (m : M A) (k : A -> M B) (w w1 : World) (a : A) :
  m w = (inr a, w1) -> bind m k w = k a w1.
Proof. intros H. unfold bind. now rewrite H. Qed.

Lemma bind_assoc {A B C} (m : M A) (k1 : A -> M B) (k2 : B -> M C)
    (w : World) :
  bind (bind m k1) k2 w = bind m (fun a => bind (k1 a) k2) w.
Proof.
  unfold bind. destruct (m w) as [[e | a] w1]; [reflexivity |].
  now destruct (k1 a w1) as [[e | b] w2].
Qed.

Lemma widgets_emit (w : World) (out : list Call) (k : nat) :
  widgets (emit w out k) = widgets w + k.
Proof. reflexivity. Qed.

Lemma emit_ext (w : World) (o1 o2 : list Call) (k1 k2 : nat) :
  o1 = o2 -> k1 = k2 -> emit w o1 k1 = emit w o2 k2.
Proof. now intros -> ->. Qed.

Ltac emit_eq :=
  rewrite ?emit_emit; apply emit_ext;
  [ repeat (progress (simpl; rewrite <- ?app_assoc)); reflexivity | lia ].

Lemma lift_run {A} (e : E A) (w : World) (a : A) :
  e = inr a -> lift e w = (inr a, w).
Proof. now intros ->. Qed.

Ltac run_step H :=
  first
    [ apply call_ok in H; subst
    | apply widget_ok in H as [? ?]; subst
    | apply ret_ok in H as [? ?]; subst
    | apply lift_ok in H as [H ?]; subst
    | idtac ].

Ltac run_inv H :=
  first
    [ let a := fresh "a" in let w1 := fresh "w" in
      let H1 := fresh "Hrun" in
      apply bind_ok in H as (a & w1 & H1 & H); run_inv H1; run_inv H
    | run_step H ].

Section BuilderRuns.

Variable get_object_color : PyUnit -> Color.
Variable spikes_from_spike_train : SpikeTrain -> list Spike.

Lemma waveforms_ok (plot : nat) (spikes : list Spike) (xu : TimeUnit)
    (c : nat) (off : Q) (w w' : World) (u : unit) :
  _add_spike_waveforms get_object_color plot spikes xu c off w = (inr u, w')
  <-> exists cvs,
        mapE (spike_curve get_object_color xu c off) spikes = inr cvs /\
        w' = emit w (waveform_calls plot cvs) 0.
Proof.
  unfold _add_spike_waveforms. destruct u.
  revert w. induction spikes as [| s spikes IH]; intros w; simpl.
  - rewrite ret_ok. split.
    + intros [_ ->]. exists []. now rewrite emit_nil.
    + intros (cvs & H & ->). inversion H; subst. now rewrite emit_nil.
  - rewrite bind_ok. split.
    + intros ([] & w1 & H & Hrest).
      apply bind_ok in H as (cv & w2 & Hcv & H).
      apply lift_ok in Hcv as [Hcv ->].
      apply bind_ok in H as ([] & w3 & H1 & H2).
      apply call_ok in H1. apply call_ok in H2. subst.
      apply IH in Hrest as (cvs & Hcvs & ->).
      exists (cv :: cvs). rewrite Hcv, Hcvs. simpl. split; [easy |].
      now rewrite !emit_emit.
    + intros (cvs & H & ->).
      apply bindE_ok in H as (cv & Hcv & H).
      apply bindE_ok in H as (cvs' & Hcvs & H). inversion H; subst.
      exists tt, (emit w [add_item plot cv; progress_step] 0). split.
      * apply bind_ok. exists cv, w. split; [now apply lift_ok |].
        apply bind_ok. exists tt, (emit w [add_item plot cv] 0).
        split; [now apply call_ok |]. apply call_ok.
        now rewrite emit_emit.
      * apply IH. exists cvs'. split; [easy |].
        now rewrite emit_emit.
Qed.

Lemma waveforms_run (plot : nat) (spikes : list Spike) (xu : TimeUnit)
    (c : nat) (off : Q) (w : World) (cvs : list Curve) :
  waveform_curves get_object_color xu c off spikes = inr cvs ->
  _add_spike_waveforms get_object_color plot spikes xu c off w
  = (inr tt, emit w (waveform_calls plot cvs) 0).
Proof. intros H. apply waveforms_ok. eauto. Qed.

Lemma trains_run (plot : nat) (trains : list SpikeTrain) (xu : TimeUnit)
    (w : World) :
  draw_trains get_object_color plot trains xu w
  = (inr tt, emit w (train_calls get_object_color plot trains xu) 0).
Proof.
  unfold draw_trains, train_calls. revert w.
  induction trains as [| t trains IH]; intros w; simpl.
  - unfold ret. now rewrite emit_nil.
  - unfold bind at 1. unfold call at 1. rewrite IH.
    now rewrite emit_emit.
Qed.

Lemma trains_if_run (b : bool) (plot : nat) (trains : list SpikeTrain)
    (xu : TimeUnit) (w : World) :
  (if b then draw_trains get_object_color plot trains xu else ret tt) w
  = (inr tt,
     emit w (if b then train_calls get_object_color plot trains xu
             else []) 0).
Proof.
  destruct b; [apply trains_run |]. unfold ret. now rewrite emit_nil.
Qed.

Ltac run_loops :=
  repeat match goal with
  | H : _add_spike_waveforms _ _ _ _ _ _ _ = (inr _, _) |- _ =>
      apply waveforms_ok in H as (? & ? & ->)
  | H : (if _ then draw_trains _ _ _ _ else ret tt) _ = _ |- _ =>
      rewrite trains_if_run in H; inversion H; subst; clear H
  | H1 : ?e = inr ?a, H2 : ?e = inr ?b |- _ =>
      rewrite H1 in H2; inversion H2; subst; clear H2
  end.

Ltac run_known :=
  repeat match goal with
  | H : ?e = inr _ |- context [?e] => rewrite H; simpl
  end.

Ltac run_one :=
  first
    [ reflexivity
    | apply lift_run; eassumption
    | apply waveforms_run; eassumption
    | apply trains_if_run ].

Ltac run_fwd :=
  repeat first
    [ rewrite bind_assoc
    | erewrite bind_run; [| solve [run_one]]; cbv beta
    | progress rewrite ?widgets_emit, ?Nat.add_0_r ].

Local Arguments _add_spike_waveforms : simpl never.
Local Arguments draw_trains : simpl never.
Local Arguments emit : simpl never.

Lemma subplot_body_ok (signals : list AnalogSignal)
    (events : list Event) (epochs : list Epoch)
    (trains : list SpikeTrain) (spikes draw_spikes : list Spike)
    (stw : bool) (x : list Q) (xu : TimeUnit) (off : Q)
    (o o' : option nat) (c : nat) (w w' : World) :
  subplot_body get_object_color signals events epochs trains spikes
    draw_spikes stw x xu off o c w = (inr o', w')
  <-> exists r,
        make_row get_object_color signals spikes draw_spikes xu off c
        = inr r /\
        o' = Some (widgets w) /\
        w' = emit w (subplot_calls get_object_color events epochs trains
                       stw x xu (widgets w) r) 1.
Proof.
  unfold subplot_body, make_row, subplot_calls. split.
  - intros H. run_inv H. run_loops.
    eexists. split; [| split; [reflexivity |]].
    + unfold waveform_curves. run_known. try reflexivity.
    + rewrite !emit_emit. simpl. now rewrite <- ?app_assoc.
  - intros (r & H & -> & ->).
    apply bindE_ok in H as (sc & Hsc & H).
    apply bindE_ok in H as (cvs & Hcvs & H).
    apply bindE_ok in H as (dcvs & Hdcvs & H).
    inversion H; subst; clear H. simpl.
    run_fwd. unfold ret. rewrite !emit_emit. simpl.
    now rewrite <- ?app_assoc.
Qed.

Lemma last_plot_step (o : option nat) (p n : nat) :
  last_plot (Some p) (p + 1) n = last_plot o p (S n).
Proof.
  destruct n as [| n]; simpl; f_equal; lia.
Qed.

Lemma subplots_ok (signals : list AnalogSignal)
    (events : list Event) (epochs : list Epoch)
    (trains : list SpikeTrain) (spikes draw_spikes : list Spike)
    (stw : bool) (x : list Q) (xu : TimeUnit) (off : Q)
    (cs : list nat) (o o' : option nat) (w w' : World) :
  for_fold cs o
    (subplot_body get_object_color signals events epochs trains spikes
       draw_spikes stw x xu off) w = (inr o', w')
  <-> exists rows,
        mapE (make_row get_object_color signals spikes draw_spikes xu off)
          cs = inr rows /\
        o' = last_plot o (widgets w) (List.length rows) /\
        w' = emit w (subplots_calls get_object_color events epochs trains
                       stw x xu (widgets w) rows) (List.length rows).
Proof.
  revert o o' w w'. induction cs as [| c cs IH]; intros o o' w w'; simpl.
  - rewrite ret_ok. split.
    + intros [-> ->]. exists []. simpl. now rewrite emit_nil.
    + intros (rows & H & -> & ->). inversion H; subst. simpl.
      now rewrite emit_nil.
  - rewrite bind_ok. split.
    + intros (o1 & w1 & Hbody & Hrest).
      apply subplot_body_ok in Hbody as (r & Hr & -> & ->).
      apply IH in Hrest as (rows & Hrows & -> & ->).
      exists (r :: rows). cbn [mapE]. rewrite Hr. cbn [bindE].
      rewrite Hrows. split; [easy |].
      rewrite widgets_emit, emit_emit. cbn [List.length subplots_calls].
      split; [apply last_plot_step | now rewrite Nat.add_1_r].
    + intros (rows & H & -> & ->).
      apply bindE_ok in H as (r & Hr & H).
      apply bindE_ok in H as (rows' & Hrows & H).
      inversion H; subst; clear H.
      exists (Some (widgets w)), (emit w
        (subplot_calls get_object_color events epochs trains stw x xu
           (widgets w) r) 1).
      split; [apply subplot_body_ok; eauto |].
      apply IH. exists rows'. split; [easy |].
      rewrite widgets_emit, emit_emit. cbn [List.length subplots_calls].
      split; [symmetry; apply last_plot_step | now rewrite Nat.add_1_r].
Qed.

Lemma stacked_body_ok (signals : list AnalogSignal)
    (spikes draw_spikes : list Spike) (x : list Q) (xu : TimeUnit)
    (plot : nat) (max_offset off off' : Q) (c : nat) (w w' : World) :
  stacked_body get_object_color signals spikes draw_spikes x xu plot
    max_offset off c w = (inr off', w')
  <-> exists r,
        make_row get_object_color signals spikes draw_spikes xu off c
        = inr r /\
        off' = (off + max_offset)%Q /\
        w' = emit w (stacked_calls x plot [r]) 0.
Proof.
  unfold stacked_body, make_row, stacked_calls. split.
  - intros H. run_inv H. run_loops.
    eexists. split; [| split; [reflexivity |]].
    + unfold waveform_curves. run_known. try reflexivity.
    + rewrite !emit_emit. simpl. now rewrite <- ?app_assoc, ?app_nil_r.
  - intros (r & H & -> & ->).
    apply bindE_ok in H as (sc & Hsc & H).
    apply bindE_ok in H as (cvs & Hcvs & H).
    apply bindE_ok in H as (dcvs & Hdcvs & H).
    inversion H; subst; clear H. simpl.
    run_fwd. unfold ret. rewrite !emit_emit. simpl.
    now rewrite <- ?app_assoc, ?app_nil_r.
Qed.

Lemma stacked_ok (signals : list AnalogSignal)
    (spikes draw_spikes : list Spike) (x : list Q) (xu : TimeUnit)
    (plot : nat) (max_offset : Q) (cs : list nat) (off off' : Q)
    (w w' : World) :
  for_fold cs off
    (stacked_body get_object_color signals spikes draw_spikes x xu plot
       max_offset) w = (inr off', w')
  <-> exists rows,
        stacked_rows get_object_color signals spikes draw_spikes xu
          max_offset off cs = inr rows /\
        off' = advance max_offset off (List.length rows) /\
        w' = emit w (stacked_calls x plot rows) 0.
Proof.
  revert off off' w w'. induction cs as [| c cs IH]; intros off off' w w'; simpl.
  - rewrite ret_ok. split.
    + intros [-> ->]. exists []. simpl. now rewrite emit_nil.
    + intros (rows & H & -> & ->). inversion H; subst. simpl.
      now rewrite emit_nil.
  - rewrite bind_ok. split.
    + intros (o1 & w1 & Hbody & Hrest).
      apply stacked_body_ok in Hbody as (r & Hr & -> & ->).
      apply IH in Hrest as (rows & Hrows & -> & ->).
      exists (r :: rows). rewrite Hr. simpl. rewrite Hrows. simpl.
      split; [easy |]. split; [easy |].
      rewrite emit_emit. unfold stacked_calls. simpl.
      now rewrite <- ?app_assoc, ?app_nil_r.
    + intros (rows & H & -> & ->).
      apply bindE_ok in H as (r & Hr & H).
      apply bindE_ok in H as (rows' & Hrows & H).
      inversion H; subst; clear H.
      exists (off + max_offset)%Q, (emit w (stacked_calls x plot [r]) 0).
      split; [apply stacked_body_ok; eauto |].
      apply IH. exists rows'. split; [easy |]. split; [easy |].
      rewrite emit_emit. unfold stacked_calls. simpl.
      now rewrite <- ?app_assoc, ?app_nil_r.
Qed.

Lemma subplots_run (signals : list AnalogSignal)
    (events : list Event) (epochs : list Epoch)
    (trains : list SpikeTrain) (spikes draw_spikes : list Spike)
    (stw : bool) (x : list Q) (xu : TimeUnit) (off : Q)
    (cs : list nat) (o : option nat) (w : World) (rows : list Row) :
  mapE (make_row get_object_color signals spikes draw_spikes xu off) cs
  = inr rows ->
  for_fold cs o
    (subplot_body get_object_color signals events epochs trains spikes
       draw_spikes stw x xu off) w
  = (inr (last_plot o (widgets w) (List.length rows)),
     emit w (subplots_calls get_object_color events epochs trains
               stw x xu (widgets w) rows) (List.length rows)).
Proof. intros H. apply subplots_ok. eauto. Qed.

Lemma stacked_run (signals : list AnalogSignal)
    (spikes draw_spikes : list Spike) (x : list Q) (xu : TimeUnit)
    (plot : nat) (max_offset : Q) (cs : list nat) (off : Q)
    (w : World) (rows : list Row) :
  stacked_rows get_object_color signals spikes draw_spikes xu
    max_offset off cs = inr rows ->
  for_fold cs off
    (stacked_body get_object_color signals spikes draw_spikes x xu plot
       max_offset) w
  = (inr (advance max_offset off (List.length rows)),
     emit w (stacked_calls x plot rows) 0).
Proof. intros H. apply stacked_ok. eauto. Qed.

Ltac run_one ::=
  first
    [ reflexivity
    | apply lift_run; eassumption
    | apply waveforms_run; eassumption
    | apply trains_if_run
    | apply subplots_run; eassumption
    | apply stacked_run; eassumption ].

Local Arguments subplots_calls : simpl never.
Local Arguments stacked_calls : simpl never.
Local Arguments train_calls : simpl never.

(** [signals] returns exactly when [signals_calls] is defined, and has
    then made those calls. *)
Lemma signals_ok (sigs : list AnalogSignal)
    (events : option (list Event)) (epochs : option (list Epoch))
    (trains : option (list SpikeTrain)) (spikes : option (list Spike))
    (stw us : bool) (tu : TimeUnit) (yu : option string)
    (w w' : World) (u : unit) :
  signals get_object_color spikes_from_spike_train sigs events epochs
    trains spikes stw us tu yu w = (inr u, w')
  <-> exists out k,
        signals_calls get_object_color spikes_from_spike_train sigs
          events epochs trains spikes stw us tu (widgets w)
        = inr (out, k) /\
        w' = emit w out k.
Proof.
  destruct u. destruct sigs as [| s0 sigs'].
  - simpl. split.
    + intros H. apply lift_ok in H as [H _]. discriminate.
    + intros (out & k & H & _). discriminate.
  - unfold signals, signals_calls, branch_calls. cbv iota zeta.
    remember (s0 :: sigs') as sigs eqn:Esigs. clear Esigs.
    destruct us; split.
    + intros H. run_inv H.
      match goal with
      | H : for_fold _ _ _ _ = _ |- _ =>
          apply subplots_ok in H as (rows & Hrows & -> & ->)
      end.
      rewrite ?widgets_emit, ?Nat.add_0_r in *.
      run_known.
      do 2 eexists. split; [reflexivity |].
      cbn [fst snd]. emit_eq.
    + intros (out & k & H & ->).
      apply bindE_ok in H as (title & Htitle & H).
      apply bindE_ok in H as (x & Hx & H).
      apply bindE_ok in H as (main & Hmain & H).
      apply bindE_ok in Hmain as (rows & Hrows & Hmain).
      apply bindE_ok in Hmain as (plot & Hplot & Hmain).
      inversion Hmain; subst; clear Hmain.
      inversion H; subst; clear H. cbn [fst snd].
      run_fwd. unfold call. f_equal. emit_eq.
    + intros H. run_inv H. run_loops.
      match goal with
      | H : for_fold _ _ _ _ = _ |- _ =>
          apply stacked_ok in H as (rows & Hrows & _ & ->)
      end.
      rewrite ?widgets_emit, ?Nat.add_0_r in *.
      run_known.
      do 2 eexists. split; [reflexivity |].
      cbn [fst snd]. emit_eq.
    + intros (out & k & H & ->).
      apply bindE_ok in H as (title & Htitle & H).
      apply bindE_ok in H as (x & Hx & H).
      apply bindE_ok in H as (main & Hmain & H).
      apply bindE_ok in Hmain as (max_offset & Hmax & Hmain).
      apply bindE_ok in Hmain as (off & Hoff & Hmain).
      apply bindE_ok in Hmain as (rows & Hrows & Hmain).
      apply bindE_ok in Hmain as (s & Hs & Hmain).
      inversion Hmain; subst; clear Hmain.
      inversion H; subst; clear H. cbn [fst snd].
      run_fwd. unfold ret. f_equal. emit_eq.
Qed.

End BuilderRuns.

(** ** What the calls of a run contain *)

Lemma select_none {X} (f : Call -> option X) (l : list Call) :
  (forall c, In c l -> f c = None) -> select f l = [].
Proof.
  induction l as [| c l IH]; intros H; [reflexivity |].
  unfold select in *. simpl. rewrite (H c) by now left.
  simpl. apply IH. intros c' Hc'. apply H. now right.
Qed.

Lemma select_cons {X} (f : Call -> option X) (c : Call) (l : list Call) :
  select f (c :: l)
  = match f c with Some x => [x] | None => [] end ++ select f l.
Proof. reflexivity. Qed.

Lemma select_nil {X} (f : Call -> option X) : select f [] = [].
Proof. reflexivity. Qed.

Lemma select_inner_none {X} (f : Call -> option X) (l : list Call) :
  (forall c, In c l -> inner_call c) ->
  (forall c, inner_call c -> f c = None) ->
  select f l = [].
Proof. intros Hl Hf. apply select_none. auto. Qed.

Lemma select_flat_map {X R} (f : Call -> option X) (g : R -> list Call)
    (l : list R) :
  select f (flat_map g l) = flat_map (fun r => select f (g r)) l.
Proof.
  induction l as [| r l IH]; [reflexivity |].
  simpl. now rewrite select_app, IH.
Qed.

Lemma flat_map_single {A B} (h : A -> B) (l : list A) :
  flat_map (fun a => [h a]) l = map h l.
Proof. induction l as [| a l IH]; simpl; congruence. Qed.

Lemma select_waveform_none {X} (f : Call -> option X) (p : nat)
    (cvs : list Curve) :
  (forall cv, In cv cvs -> f (add_item p cv) = None) ->
  f progress_step = None ->
  select f (waveform_calls p cvs) = [].
Proof.
  intros Hitem Hstep. apply select_none. intros c Hc.
  unfold waveform_calls in Hc. apply in_flat_map in Hc as (cv & Hcv & Hc).
  destruct Hc as [<- | [<- | []]]; auto.
Qed.

Lemma select_waveform_steps (p : nat) (cvs : list Curve) :
  select a_step (waveform_calls p cvs) = map (fun _ => tt) cvs.
Proof.
  unfold waveform_calls. rewrite select_flat_map.
  now rewrite <- flat_map_single.
Qed.

Lemma select_waveform_signal (p : nat) (cvs : list Curve) :
  Forall styled cvs -> select signal_curve (waveform_calls p cvs) = [].
Proof.
  intros H. apply select_waveform_none; [| reflexivity].
  intros cv Hcv. rewrite List.Forall_forall in H. specialize (H cv Hcv).
  unfold styled in H. simpl. now destruct (curve_style cv).
Qed.

Lemma select_waveform_curves (p : nat) (cvs : list Curve) :
  Forall styled cvs ->
  select waveform_curve (waveform_calls p cvs) = map (pair p) cvs.
Proof.
  induction 1 as [| cv cvs Hcv _ IH]; [reflexivity |].
  change (waveform_calls p (cv :: cvs))
    with ([add_item p cv; progress_step] ++ waveform_calls p cvs).
  rewrite select_app, IH. unfold styled in Hcv. unfold select. simpl.
  now destruct (curve_style cv).
Qed.

Section Selections.

Variable get_object_color : PyUnit -> Color.

Local Abbreviation spike_style := (spike_style get_object_color).
Local Abbreviation row_ok := (row_ok get_object_color).

Lemma spike_curve_style (xu : TimeUnit) (c : nat) (off : Q)
    (spike : Spike) (cv : Curve) :
  spike_curve get_object_color xu c off spike = inr cv ->
  curve_style cv = spike_style spike.
Proof.
  unfold spike_curve. intros H.
  apply bindE_ok in H as (xs & _ & H).
  apply bindE_ok in H as (wf & _ & H).
  apply bindE_ok in H as (wave & _ & H).
  now inversion H.
Qed.

Lemma waveform_curves_style (xu : TimeUnit) (c : nat) (off : Q)
    (spikes : list Spike) (cvs : list Curve) :
  waveform_curves get_object_color xu c off spikes = inr cvs ->
  map curve_style cvs = map spike_style spikes.
Proof.
  unfold waveform_curves. revert cvs.
  induction spikes as [| s spikes IH]; simpl; intros cvs H.
  - now inversion H.
  - apply bindE_ok in H as (cv & Hcv & H).
    apply bindE_ok in H as (cvs' & Hcvs & H).
    inversion H; subst. simpl. f_equal; [| now apply IH].
    eapply spike_curve_style; eauto.
Qed.

Lemma styled_of_styles (spikes : list Spike) (cvs : list Curve) :
  map curve_style cvs = map spike_style spikes -> Forall styled cvs.
Proof.
  revert spikes. induction cvs as [| cv cvs IH]; intros spikes H.
  - constructor.
  - destruct spikes as [| s spikes]; [discriminate |].
    simpl in H. inversion H as [[Hcv Hrest]]. constructor.
    + unfold styled. now rewrite Hcv.
    + eapply IH; eauto.
Qed.

Lemma make_row_ok (signals : list AnalogSignal)
    (spikes draw_spikes : list Spike) (xu : TimeUnit) (off : Q) (c : nat)
    (r : Row) :
  make_row get_object_color signals spikes draw_spikes xu off c = inr r ->
  row_ok signals spikes draw_spikes off c r.
Proof.
  unfold make_row, getitem. intros H.
  apply bindE_ok in H as (sc & Hsc & H).
  apply bindE_ok in H as (cvs & Hcvs & H).
  apply bindE_ok in H as (dcvs & Hdcvs & H).
  inversion H; subst; clear H.
  destruct (nth_error signals c) as [sc' |] eqn:Hnth; [| discriminate].
  inversion Hsc; subst.
  constructor; simpl; eauto using waveform_curves_style.
Qed.

Lemma row_ok_styled (signals : list AnalogSignal)
    (spikes draw_spikes : list Spike) (off : Q) (c : nat) (r : Row) :
  row_ok signals spikes draw_spikes off c r ->
  Forall styled (row_spikes r) /\ Forall styled (row_draw_spikes r).
Proof.
  intros [_ _ _ H1 H2]. eauto using styled_of_styles.
Qed.

Local Abbreviation rows_ok := (rows_ok get_object_color).

Lemma split_rows_ok (signals : list AnalogSignal)
    (spikes draw_spikes : list Spike) (xu : TimeUnit) (off : Q)
    (cs : list nat) (rows : list Row) :
  mapE (make_row get_object_color signals spikes draw_spikes xu off) cs
  = inr rows ->
  rows_ok signals spikes draw_spikes (map (fun c => (c, off)) cs) rows.
Proof.
  unfold rows_ok. revert rows.
  induction cs as [| c cs IH]; simpl; intros rows H.
  - inversion H. constructor.
  - apply bindE_ok in H as (r & Hr & H).
    apply bindE_ok in H as (rows' & Hrows & H).
    inversion H; subst. constructor; [| now apply IH].
    simpl. eapply make_row_ok; eauto.
Qed.

Lemma stacked_rows_ok (signals : list AnalogSignal)
    (spikes draw_spikes : list Spike) (xu : TimeUnit) (mo off : Q)
    (cs : list nat) (rows : list Row) :
  stacked_rows get_object_color signals spikes draw_spikes xu mo off cs
  = inr rows ->
  rows_ok signals spikes draw_spikes
    (combine cs (offsets_from mo off (List.length cs))) rows.
Proof.
  unfold rows_ok. revert off rows.
  induction cs as [| c cs IH]; simpl; intros off rows H.
  - inversion H. constructor.
  - apply bindE_ok in H as (r & Hr & H).
    apply bindE_ok in H as (rows' & Hrows & H).
    inversion H; subst. constructor; [| now apply IH].
    simpl. eapply make_row_ok; eauto.
Qed.

Lemma rows_ok_length (signals : list AnalogSignal)
    (spikes draw_spikes : list Spike) (cos : list (nat * Q))
    (rows : list Row) :
  rows_ok signals spikes draw_spikes cos rows ->
  List.length rows = List.length cos.
Proof. intros H. symmetry. eapply Forall2_length; eauto. Qed.

Lemma rows_ok_channels (signals : list AnalogSignal)
    (spikes draw_spikes : list Spike) (cos : list (nat * Q))
    (rows : list Row) :
  rows_ok signals spikes draw_spikes cos rows ->
  map row_channel rows = map fst cos.
Proof.
  induction 1 as [| co r cos rows [Hc _ _ _ _] _ IH]; simpl; congruence.
Qed.

Lemma rows_ok_offsets (signals : list AnalogSignal)
    (spikes draw_spikes : list Spike) (cos : list (nat * Q))
    (rows : list Row) :
  rows_ok signals spikes draw_spikes cos rows ->
  map row_offset rows = map snd cos.
Proof.
  induction 1 as [| co r cos rows [_ _ Ho _ _] _ IH]; simpl; congruence.
Qed.

Lemma rows_ok_signals (signals : list AnalogSignal)
    (spikes draw_spikes : list Spike) (cos : list (nat * Q))
    (rows : list Row) :
  rows_ok signals spikes draw_spikes cos rows ->
  map Some (map row_signal rows) = map (nth_error signals) (map fst cos).
Proof.
  induction 1 as [| co r cos rows [_ Hs _ _ _] _ IH]; simpl; congruence.
Qed.

Lemma rows_ok_styled (signals : list AnalogSignal)
    (spikes draw_spikes : list Spike) (cos : list (nat * Q))
    (rows : list Row) :
  rows_ok signals spikes draw_spikes cos rows ->
  Forall row_styled rows.
Proof.
  induction 1 as [| co r cos rows Hr _ IH]; constructor; [| assumption].
  eapply row_ok_styled; eauto.
Qed.

Lemma rows_ok_styles (signals : list AnalogSignal)
    (spikes draw_spikes : list Spike) (cos : list (nat * Q))
    (rows : list Row) :
  rows_ok signals spikes draw_spikes cos rows ->
  Forall (fun r =>
            map curve_style (row_spikes r) = map spike_style spikes /\
            map curve_style (row_draw_spikes r)
            = map spike_style draw_spikes) rows.
Proof.
  induction 1 as [| co r cos rows [_ _ _ H1 H2] _ IH]; constructor; auto.
Qed.

Lemma select_train_none {X} (f : Call -> option X) (p : nat)
    (trains : list SpikeTrain) (xu : TimeUnit) :
  (forall t col u, f (add_spikes p t col u) = None) ->
  select f (train_calls get_object_color p trains xu) = [].
Proof.
  intros H. apply select_none. intros c Hc.
  unfold train_calls in Hc. apply in_map_iff in Hc as (t & <- & _).
  apply H.
Qed.

Lemma select_trains (p : nat) (trains : list SpikeTrain) (xu : TimeUnit) :
  select a_train (train_calls get_object_color p trains xu)
  = map (fun t => (p, t, get_object_color (train_unit t))) trains.
Proof.
  unfold train_calls, select. rewrite flat_map_concat_map, map_map.
  simpl. rewrite <- flat_map_concat_map. apply flat_map_single.
Qed.

End Selections.

Section CallsStructure.

Variable get_object_color : PyUnit -> Color.
Variable spikes_from_spike_train : SpikeTrain -> list Spike.

Lemma waveform_inner (p : nat) (cvs : list Curve) (c : Call) :
  In c (waveform_calls p cvs) -> inner_call c.
Proof.
  unfold waveform_calls. intros H.
  apply in_flat_map in H as (cv & _ & [<- | [<- | []]]); exact I.
Qed.

Lemma train_inner (p : nat) (trains : list SpikeTrain) (xu : TimeUnit)
    (c : Call) :
  In c (train_calls get_object_color p trains xu) -> inner_call c.
Proof.
  unfold train_calls. intros H.
  apply in_map_iff in H as (t & <- & _). exact I.
Qed.

Lemma train_if_inner (b : bool) (p : nat) (trains : list SpikeTrain)
    (xu : TimeUnit) (c : Call) :
  In c (if b then train_calls get_object_color p trains xu else []) ->
  inner_call c.
Proof. destruct b; [apply train_inner | intros []]. Qed.

Ltac in_cases H :=
  repeat first
    [ apply in_app_or in H as [H | H]
    | destruct H as [H | H]
    | solve [destruct H] ].

Ltac inner_in H :=
  repeat first
    [ apply in_app_or in H as [H | H]
    | destruct H as [<- | H]; [exact I |]
    | solve [destruct H] ];
  eauto using waveform_inner, train_if_inner.

Lemma subplots_inner (events : list Event) (epochs : list Epoch)
    (trains : list SpikeTrain) (stw : bool) (x : list Q) (xu : TimeUnit)
    (p : nat) (rows : list Row) (c : Call) :
  In c (subplots_calls get_object_color events epochs trains stw x xu
          p rows) ->
  inner_call c.
Proof.
  revert p. induction rows as [| r rows IH]; intros p H; [destruct H |].
  cbn [subplots_calls] in H. apply in_app_or in H as [H | H]; [| eauto].
  unfold subplot_calls in H. inner_in H.
Qed.

Lemma stacked_inner (x : list Q) (p : nat) (rows : list Row) (c : Call) :
  In c (stacked_calls x p rows) -> inner_call c.
Proof.
  unfold stacked_calls. intros H.
  apply in_flat_map in H as (r & _ & H). inner_in H.
Qed.

Lemma signals_calls_inv (sigs : list AnalogSignal)
    (events : option (list Event)) (epochs : option (list Epoch))
    (trains : option (list SpikeTrain)) (spikes : option (list Spike))
    (stw us : bool) (tu : TimeUnit) (p : nat) (out : list Call)
    (k : nat) :
  signals_calls get_object_color spikes_from_spike_train sigs events
    epochs trains spikes stw us tu p = inr (out, k) ->
  let draw_spikes :=
    if stw
    then flat_map spikes_from_spike_train (or_default trains)
    else or_default spikes in
  exists title x main,
    sigs <> [] /\
    make_title sigs = inr title /\
    x_axis sigs tu = inr x /\
    branch_calls get_object_color sigs (or_default events)
      (or_default epochs) (or_default trains) (or_default spikes)
      draw_spikes stw us x tu p = inr (main, k) /\
    out = [PlotDialog title;
           progress_set_ticks
             ((List.length draw_spikes
               + List.length (or_default spikes) + 1)
              * List.length sigs)]
          ++ main
          ++ [add_custom_curve_tools false;
              progress_done;
              make_window_legend
                (nodup key_eq_dec
                   (map train_unit (or_default trains)
                    ++ map spike_unit (or_default spikes)))
                false;
              win_show]
          ++ (if us
              then [add_x_synchronization_option true
                      (seq 0 (List.length sigs));
                    add_y_synchronization_option false
                      (seq 0 (List.length sigs))]
              else []).
Proof.
  unfold signals_calls. destruct sigs as [| s0 sigs']; [discriminate |].
  remember (s0 :: sigs') as sigs eqn:Esigs. cbv zeta. intros H.
  apply bindE_ok in H as (title & Htitle & H).
  apply bindE_ok in H as (x & Hx & H).
  apply bindE_ok in H as ([main k'] & Hmain & H).
  inversion H; subst out k'; clear H.
  exists title, x, main. rewrite length_seq.
  repeat split; try assumption. subst sigs. discriminate.
Qed.

Lemma branch_split_inv (sigs : list AnalogSignal)
    (events : list Event) (epochs : list Epoch)
    (trains : list SpikeTrain) (spikes draw_spikes : list Spike)
    (stw : bool) (x : list Q) (xu : TimeUnit) (p : nat)
    (main : list Call) (k : nat) :
  branch_calls get_object_color sigs events epochs trains spikes
    draw_spikes stw true x xu p = inr (main, k) ->
  exists rows plot,
    mapE (make_row get_object_color sigs spikes draw_spikes xu 0%Q)
      (seq 0 (List.length sigs)) = inr rows /\
    k = List.length rows /\
    last_plot None p (List.length rows) = Some plot /\
    main = subplots_calls get_object_color events epochs trains stw x xu
             p rows
           ++ [set_axis_title plot X_BOTTOM "Time";
               set_axis_unit plot X_BOTTOM (tu_string xu)].
Proof.
  unfold branch_calls. intros H.
  apply bindE_ok in H as (rows & Hrows & H).
  apply bindE_ok in H as (plot & Hplot & H).
  inversion H; subst; clear H. exists rows, plot.
  unfold deref in Hplot.
  destruct (last_plot None p (List.length rows)); [| discriminate].
  inversion Hplot; subst. auto.
Qed.

Lemma branch_stacked_inv (sigs : list AnalogSignal)
    (events : list Event) (epochs : list Epoch)
    (trains : list SpikeTrain) (spikes draw_spikes : list Spike)
    (stw : bool) (x : list Q) (xu : TimeUnit) (p : nat)
    (main : list Call) (k : nat) :
  branch_calls get_object_color sigs events epochs trains spikes
    draw_spikes stw false x xu p = inr (main, k) ->
  let channels := rev (seq 0 (List.length sigs)) in
  exists max_offset offset rows s0,
    find_max_offset sigs channels = inr max_offset /\
    first_offset sigs channels 0%Q = inr offset /\
    stacked_rows get_object_color sigs spikes draw_spikes xu max_offset
      offset channels = inr rows /\
    hd_error sigs = Some s0 /\
    k = 1 /\
    main = [BaseCurveWidget p; add_epochs p epochs xu]
           ++ stacked_calls x p rows
           ++ [add_events p events xu]
           ++ (if negb stw
               then train_calls get_object_color p trains xu else [])
           ++ [add_plot_widget p 0;
               set_axis_title p X_BOTTOM "Time";
               set_axis_unit p X_BOTTOM (tu_string xu);
               set_axis_unit p Y_LEFT (sig_units s0)].
Proof.
  unfold branch_calls. cbv zeta. intros H.
  apply bindE_ok in H as (max_offset & Hmax & H).
  apply bindE_ok in H as (offset & Hoff & H).
  apply bindE_ok in H as (rows & Hrows & H).
  apply bindE_ok in H as (s0 & Hs0 & H).
  inversion H; subst; clear H. exists max_offset, offset, rows, s0.
  unfold getitem in Hs0. destruct sigs as [| s sigs']; [discriminate |].
  simpl in Hs0. inversion Hs0; subst. auto 10.
Qed.

(** Calls made outside the loops are selected by functions that see
    nothing in the loops. *)
Lemma select_branch_outer {X} (f : Call -> option X)
    (sigs : list AnalogSignal) (events : list Event)
    (epochs : list Epoch) (trains : list SpikeTrain)
    (spikes draw_spikes : list Spike) (stw us : bool) (x : list Q)
    (xu : TimeUnit) (p : nat) (main : list Call) (k : nat) :
  (forall c, inner_call c -> f c = None) ->
  (forall q a t, f (set_axis_title q a t) = None) ->
  (forall q u, f (set_axis_unit q X_BOTTOM u) = None) ->
  branch_calls get_object_color sigs events epochs trains spikes
    draw_spikes stw us x xu p = inr (main, k) ->
  select f main = [].
Proof.
  intros Hinner Htitle Hunit H. apply select_none. intros c Hc.
  destruct us.
  - apply branch_split_inv in H as (rows & plot & _ & _ & _ & ->).
    in_cases Hc; try (subst c; now auto);
      eauto using subplots_inner.
  - apply branch_stacked_inv in H
      as (mo & off & rows & s0 & _ & _ & _ & _ & _ & ->).
    in_cases Hc; try (subst c; auto; apply Hinner; exact I);
      eauto using stacked_inner, train_if_inner.
Qed.

End CallsStructure.

(** ** Lists of channels and rows *)

Lemma nth_error_all_from {A} (pre l : list A) :
  map (nth_error (pre ++ l)) (seq (List.length pre) (List.length l))
  = map Some l.
Proof.
  revert pre. induction l as [| a l IH]; intros pre; [reflexivity |].
  simpl. f_equal.
  - rewrite nth_error_app2 by lia. now rewrite Nat.sub_diag.
  - specialize (IH (pre ++ [a])).
    rewrite <- app_assoc, length_app, Nat.add_1_r in IH. exact IH.
Qed.

Lemma nth_error_all {A} (l : list A) :
  map (nth_error l) (seq 0 (List.length l)) = map Some l.
Proof. exact (nth_error_all_from [] l). Qed.

Lemma map_Some_inj {A} (l1 l2 : list A) :
  map Some l1 = map Some l2 -> l1 = l2.
Proof.
  revert l2. induction l1 as [| a l1 IH]; intros [| b l2] H;
    try discriminate; [reflexivity |].
  simpl in H. inversion H. f_equal. now apply IH.
Qed.

Lemma map_fst_combine_eq {A B} (l1 : list A) (l2 : list B) :
  List.length l1 = List.length l2 -> map fst (combine l1 l2) = l1.
Proof.
  revert l2. induction l1 as [| a l1 IH]; intros [| b l2] H;
    try discriminate; [reflexivity |].
  simpl. f_equal. apply IH. now inversion H.
Qed.

Lemma map_snd_combine_eq {A B} (l1 : list A) (l2 : list B) :
  List.length l1 = List.length l2 -> map snd (combine l1 l2) = l2.
Proof.
  revert l2. induction l1 as [| a l1 IH]; intros [| b l2] H;
    try discriminate; [reflexivity |].
  simpl. f_equal. apply IH. now inversion H.
Qed.

Lemma length_offsets_from (mo off : Q) (n : nat) :
  List.length (offsets_from mo off n) = n.
Proof. revert off. induction n as [| n IH]; intros off; simpl; auto. Qed.

Section Rows.

Variable get_object_color : PyUnit -> Color.

Local Abbreviation rows_ok := (rows_ok get_object_color).

Lemma split_rows_facts (sigs : list AnalogSignal)
    (spikes draw_spikes : list Spike) (off : Q) (rows : list Row) :
  rows_ok sigs spikes draw_spikes
    (map (fun c => (c, off)) (seq 0 (List.length sigs))) rows ->
  List.length rows = List.length sigs /\
  map row_channel rows = seq 0 (List.length sigs) /\
  map row_signal rows = sigs.
Proof.
  intros H.
  assert (Hfst : map fst (map (fun c : nat => (c, off))
                            (seq 0 (List.length sigs)))
                 = seq 0 (List.length sigs)).
  { rewrite map_map. simpl. apply map_id. }
  repeat split.
  - apply rows_ok_length in H. now rewrite length_map, length_seq in H.
  - apply rows_ok_channels in H. now rewrite Hfst in H.
  - apply rows_ok_signals in H. rewrite Hfst, nth_error_all in H.
    now apply map_Some_inj.
Qed.

Lemma stacked_rows_facts (sigs : list AnalogSignal)
    (spikes draw_spikes : list Spike) (mo off : Q) (rows : list Row) :
  rows_ok sigs spikes draw_spikes
    (combine (rev (seq 0 (List.length sigs)))
       (offsets_from mo off
          (List.length (rev (seq 0 (List.length sigs)))))) rows ->
  List.length rows = List.length sigs /\
  map row_signal rows = rev sigs /\
  map row_offset rows = offsets_from mo off (List.length sigs).
Proof.
  intros H. rewrite length_rev, length_seq in H.
  assert (Hlen : List.length (rev (seq 0 (List.length sigs)))
                 = List.length
                     (offsets_from mo off (List.length sigs))).
  { now rewrite length_rev, length_seq, length_offsets_from. }
  repeat split.
  - apply rows_ok_length in H.
    rewrite length_combine, <- Hlen, Nat.min_id in H.
    now rewrite length_rev, length_seq in H.
  - apply rows_ok_signals in H.
    rewrite map_fst_combine_eq, map_rev, nth_error_all, <- map_rev in H
      by assumption.
    now apply map_Some_inj.
  - apply rows_ok_offsets in H.
    now rewrite map_snd_combine_eq in H by assumption.
Qed.

End Rows.

(** ** Selections from the calls of the loops *)

Section LoopSelections.

Variable get_object_color : PyUnit -> Color.
Variables (events : list Event) (epochs : list Epoch).
Variables (trains : list SpikeTrain) (stw : bool).
Variables (x : list Q) (xu : TimeUnit).

Local Abbreviation train_colored := (train_colored get_object_color).
Local Abbreviation subplot_calls' :=
  (subplot_calls get_object_color events epochs trains stw x xu).
Local Abbreviation subplots_calls' :=
  (subplots_calls get_object_color events epochs trains stw x xu).

Lemma select_train_if_none {X} (f : Call -> option X) (b : bool) (p : nat) :
  (forall t col u, f (add_spikes p t col u) = None) ->
  select f (if b then train_calls get_object_color p trains xu else [])
  = [].
Proof. intros H. destruct b; [now apply select_train_none | reflexivity]. Qed.

Lemma select_waveform_train_if (b : bool) (p : nat) :
  select waveform_curve
    (if b then train_calls get_object_color p trains xu else []) = [].
Proof. now apply select_train_if_none. Qed.

Ltac sel_loop :=
  rewrite ?select_app;
  rewrite ?select_waveform_steps;
  rewrite ?select_waveform_signal by assumption;
  rewrite ?select_waveform_curves by assumption;
  rewrite ?select_waveform_none by (intros; reflexivity);
  rewrite ?select_train_if_none by (intros; reflexivity);
  rewrite ?app_nil_r; simpl; rewrite ?app_nil_r.

Lemma subplot_widget (p : nat) (r : Row) :
  select a_widget (subplot_calls' p r) = [p].
Proof. unfold subplot_calls. now sel_loop. Qed.

Lemma subplot_position (p : nat) (r : Row) :
  select a_subplot (subplot_calls' p r) = [(p, row_channel r)].
Proof. unfold subplot_calls. now sel_loop. Qed.

Lemma subplot_y_unit (p : nat) (r : Row) :
  select (an_axis_unit Y_LEFT) (subplot_calls' p r)
  = [(p, sig_units (row_signal r))].
Proof. unfold subplot_calls. now sel_loop. Qed.

Lemma subplot_signal_curve (p : nat) (r : Row) :
  row_styled r ->
  select signal_curve (subplot_calls' p r)
  = [(p, mkCurve x (sig_samples (row_signal r)) None)].
Proof.
  intros [H1 H2]. unfold subplot_calls.
  now sel_loop.
Qed.

Lemma subplot_waveform_curves (p : nat) (r : Row) :
  row_styled r ->
  select waveform_curve (subplot_calls' p r)
  = map (pair p) (row_spikes r ++ row_draw_spikes r).
Proof.
  intros [H1 H2]. unfold subplot_calls.
  sel_loop. now rewrite map_app.
Qed.

Lemma subplot_ticks (p : nat) (r : Row) :
  ticks (subplot_calls' p r)
  = List.length (row_spikes r) + List.length (row_draw_spikes r) + 1.
Proof.
  unfold ticks, subplot_calls. sel_loop.
  rewrite !length_app, !length_map. simpl. lia.
Qed.

Lemma subplot_trains (p : nat) (r : Row) :
  select a_train (subplot_calls' p r)
  = if stw then []
    else map (fun t => (p, t, get_object_color (train_unit t))) trains.
Proof.
  unfold subplot_calls.
  rewrite ?select_app.
  rewrite ?select_waveform_none by (intros; reflexivity). simpl.
  destruct stw; simpl; [reflexivity |].
  now rewrite select_trains, app_nil_r.
Qed.

(** A selection that finds one value per subplot. *)
Lemma select_subplots {X} (f : Call -> option (nat * X)) (k : Row -> X)
    (rows : list Row) (p : nat) :
  (forall q r, row_styled r -> select f (subplot_calls' q r) = [(q, k r)]) ->
  Forall row_styled rows ->
  select f (subplots_calls' p rows)
  = combine (seq p (List.length rows)) (map k rows).
Proof.
  intros Hone Hrows. revert p.
  induction Hrows as [| r rows Hr _ IH]; intros p; [reflexivity |].
  cbn [subplots_calls]. rewrite select_app, Hone, IH by assumption.
  reflexivity.
Qed.

Lemma select_subplots_widgets (rows : list Row) (p : nat) :
  select a_widget (subplots_calls' p rows) = seq p (List.length rows).
Proof.
  revert p. induction rows as [| r rows IH]; intros p; [reflexivity |].
  cbn [subplots_calls]. rewrite select_app, subplot_widget, IH.
  reflexivity.
Qed.

Lemma subplots_ticks (rows : list Row) (p : nat) :
  ticks (subplots_calls' p rows)
  = list_sum (map (fun r => List.length (row_spikes r)
                            + List.length (row_draw_spikes r) + 1) rows).
Proof.
  revert p. induction rows as [| r rows IH]; intros p; [reflexivity |].
  cbn [subplots_calls]. unfold ticks in *.
  rewrite select_app, length_app. fold (ticks (subplot_calls' p r)).
  rewrite subplot_ticks, IH. reflexivity.
Qed.

Lemma subplots_waveform_count (rows : list Row) (p : nat) :
  Forall row_styled rows ->
  List.length (select waveform_curve (subplots_calls' p rows))
  = list_sum (map (fun r => List.length (row_spikes r)
                            + List.length (row_draw_spikes r)) rows).
Proof.
  intros Hrows. revert p.
  induction Hrows as [| r rows Hr _ IH]; intros p; [reflexivity |].
  cbn [subplots_calls].
  rewrite select_app, length_app, subplot_waveform_curves, IH by assumption.
  now rewrite length_map, length_app.
Qed.

(** The calls of the stacked loop. *)
Lemma stacked_signal_curves (p : nat) (rows : list Row) :
  Forall row_styled rows ->
  select signal_curve (stacked_calls x p rows)
  = map (fun r =>
           (p, mkCurve x (shifted (sig_samples (row_signal r))
                            (row_offset r)) None)) rows.
Proof.
  unfold stacked_calls.
  induction 1 as [| r rows [H1 H2] _ IH]; [reflexivity |].
  cbn [flat_map map]. rewrite select_app, IH. now sel_loop.
Qed.

Lemma stacked_ticks (p : nat) (rows : list Row) :
  ticks (stacked_calls x p rows)
  = list_sum (map (fun r => List.length (row_spikes r)
                            + List.length (row_draw_spikes r) + 1) rows).
Proof.
  unfold stacked_calls, ticks.
  induction rows as [| r rows IH]; [reflexivity |].
  cbn [flat_map map list_sum]. rewrite select_app, length_app, IH.
  sel_loop. rewrite !length_app, !length_map. simpl. lia.
Qed.

Lemma stacked_waveform_count (p : nat) (rows : list Row) :
  Forall row_styled rows ->
  List.length (select waveform_curve (stacked_calls x p rows))
  = list_sum (map (fun r => List.length (row_spikes r)
                            + List.length (row_draw_spikes r)) rows).
Proof.
  unfold stacked_calls.
  induction 1 as [| r rows [H1 H2] _ IH]; [reflexivity |].
  cbn [flat_map map list_sum]. rewrite select_app, length_app, IH.
  sel_loop. rewrite !length_app, !length_map. simpl. lia.
Qed.

Lemma subplots_waveform_styles (rows : list Row) (p : nat) :
  Forall row_styled rows ->
  map (fun pc => curve_style (snd pc))
    (select waveform_curve (subplots_calls' p rows))
  = flat_map (fun r => map curve_style (row_spikes r ++ row_draw_spikes r))
      rows.
Proof.
  intros Hrows. revert p.
  induction Hrows as [| r rows Hr _ IH]; intros p; [reflexivity |].
  cbn [subplots_calls flat_map].
  rewrite select_app, map_app, subplot_waveform_curves, IH by assumption.
  now rewrite map_map.
Qed.

Lemma stacked_waveform_styles (p : nat) (rows : list Row) :
  Forall row_styled rows ->
  map (fun pc => curve_style (snd pc))
    (select waveform_curve (stacked_calls x p rows))
  = flat_map (fun r => map curve_style (row_spikes r ++ row_draw_spikes r))
      rows.
Proof.
  unfold stacked_calls.
  induction 1 as [| r rows [H1 H2] _ IH]; [reflexivity |].
  cbn [flat_map]. rewrite select_app, map_app, IH. f_equal.
  sel_loop. now rewrite <- map_app, map_map.
Qed.

Lemma train_calls_colored (p : nat) (c : Call) :
  In c (train_calls get_object_color p trains xu) ->
  exists t, c = add_spikes p t (get_object_color (train_unit t)) xu.
Proof.
  unfold train_calls. intros H. apply in_map_iff in H as (t & <- & _). eauto.
Qed.

Lemma waveform_calls_no_train (p : nat) (cvs : list Curve) (c : Call) :
  In c (waveform_calls p cvs) -> a_train c = None.
Proof.
  unfold waveform_calls. intros H.
  apply in_flat_map in H as (cv & _ & [<- | [<- | []]]); reflexivity.
Qed.

Lemma train_if_colored (b : bool) (p : nat) (c : Call) :
  In c (if b then train_calls get_object_color p trains xu else []) ->
  train_colored c.
Proof.
  destruct b; [| intros []]. intros H.
  apply train_calls_colored in H as (t & ->).
  intros q t' col Heq. now inversion Heq.
Qed.

Lemma subplots_train_colored (rows : list Row) (p : nat) (c : Call) :
  In c (subplots_calls' p rows) -> train_colored c.
Proof.
  revert p. induction rows as [| r rows IH]; intros p H; [destruct H |].
  cbn [subplots_calls] in H. apply in_app_or in H as [H | H]; [| eauto].
  unfold subplot_calls in H.
  repeat first
    [ apply in_app_or in H as [H | H]
    | destruct H as [H | H]
    | solve [destruct H] ];
    try (subst c; intros q t col Heq; discriminate);
    eauto using train_if_colored;
    apply waveform_calls_no_train in H; intros q t col Heq; congruence.
Qed.

Lemma stacked_train_colored (rows : list Row) (p : nat) (c : Call) :
  In c (stacked_calls x p rows) -> train_colored c.
Proof.
  unfold stacked_calls. intros H. apply in_flat_map in H as (r & _ & H).
  repeat first
    [ apply in_app_or in H as [H | H]
    | destruct H as [H | H]
    | solve [destruct H] ];
    try (subst c; intros q t col Heq; discriminate);
    apply waveform_calls_no_train in H; intros q t col Heq; congruence.
Qed.

End LoopSelections.

(** ** Properties of the builder *)

Lemma len_set_1 (l : list (option nat)) :
  len_set l = 1 <-> exists k, l <> [] /\ forall x, In x l -> x = k.
Proof.
  unfold len_set. split.
  - intros H.
    destruct (nodup key_eq_dec l) as [| k [| k' r]] eqn:E;
      try discriminate.
    exists k. split.
    + intros ->. discriminate.
    + intros x Hx. apply (nodup_In key_eq_dec) in Hx. rewrite E in Hx.
      destruct Hx as [<- | []]. reflexivity.
  - intros (k & Hne & Hall). induction l as [| a l IH]; [easy |].
    assert (a = k) as -> by (apply Hall; now left).
    simpl. destruct (in_dec key_eq_dec k l) as [Hin | Hnin].
    + apply IH; [intros -> ; easy | intros; apply Hall; now right].
    + destruct l as [| b l]; [reflexivity |].
      exfalso. apply Hnin. left. apply Hall. right. now left.
Qed.

Lemma append_assoc (a b c : string) :
  ((a ++ b) ++ c = a ++ (b ++ c))%string.
Proof.
  induction a as [| x a IH]; [reflexivity |].
  change (String x ((a ++ b) ++ c) = String x (a ++ b ++ c))%string.
  now rewrite IH.
Qed.

Lemma append_empty (a : string) : (a ++ "" = a)%string.
Proof.
  induction a as [| x a IH]; [reflexivity |].
  change (String x (a ++ "") = String x a)%string.
  now rewrite IH.
Qed.

Lemma name_truthy_named (o : NeoObject) :
  name_truthy (obj_name o) = true <-> exists n, named o n.
Proof.
  unfold name_truthy, named. destruct (obj_name o) as [n |].
  - destruct (String.eqb_spec n "") as [-> | Hn]; simpl; split.
    + discriminate.
    + intros (n & H & Hn). inversion H; subst. contradiction.
    + eauto.
    + reflexivity.
  - split; [discriminate | intros (n & H & _); discriminate].
Qed.

Lemma title_part_spec (label : string)
    (field : AnalogSignal -> option NeoObject)
    (sigs : list AnalogSignal) (t t' : string) :
  title_part label field sigs t = inr t' ->
  exists part, t' = (t ++ part)%string /\ fragment label field sigs part.
Proof.
  unfold title_part, fragment.
  destruct (Nat.eqb_spec
              (len_set (map (fun s => obj_key (field s)) sigs)) 1)
    as [Hone | Hmany].
  - apply len_set_1 in Hone as (k & Hne & Hall). intros H.
    apply bindE_ok in H as (s0 & Hs0 & H).
    apply bindE_ok in H as (o & Ho & H).
    unfold getitem in Hs0. destruct sigs as [| s sigs']; [easy |].
    simpl in Hs0. inversion Hs0; subst s0; clear Hs0.
    unfold deref in Ho. destruct (field s) as [o' |] eqn:Hf; [| easy].
    inversion Ho; subst o'; clear Ho.
    assert (Hk : k = Some (obj_id o)).
    { symmetry. apply Hall. left. unfold obj_key. now rewrite Hf. }
    assert (Hshared : shared field (s :: sigs') o).
    { split; [exists s; now split |].
      intros s1 Hs1. rewrite <- Hk. apply Hall.
      apply in_map_iff. eauto. }
    destruct (name_truthy (obj_name o)) eqn:Hname.
    + apply name_truthy_named in Hname as Hn. destruct Hn as (n & Hn).
      inversion H; subst t'; clear H.
      exists (label ++ n)%string. split.
      * destruct Hn as [Hn _]. now rewrite Hn.
      * left. eauto.
    + inversion H; subst t'; clear H.
      exists "". split; [now rewrite append_empty |].
      right. split; [| reflexivity].
      intros (o' & n & [(s0 & Hs0 & Hf') _] & Hn).
      simpl in Hs0. inversion Hs0; subst s0.
      rewrite Hf in Hf'. inversion Hf'; subst o'.
      assert (name_truthy (obj_name o) = true)
        by (apply name_truthy_named; eauto).
      congruence.
  - intros H. inversion H; subst t'; clear H.
    exists "". split; [now rewrite append_empty |].
    right. split; [| reflexivity].
    intros (o & n & [(s0 & Hs0 & Hf) Hall] & _).
    apply Hmany. apply len_set_1. exists (Some (obj_id o)). split.
    + destruct sigs; [discriminate | easy].
    + intros x Hx. apply in_map_iff in Hx as (s & <- & Hs). now apply Hall.
Qed.

Lemma make_title_spec (sigs : list AnalogSignal) (title : string) :
  make_title sigs = inr title ->
  exists rc_part seg_part,
    title = ("Analog Signal" ++ rc_part ++ seg_part)%string /\
    fragment " | Recording Channel: " recordingchannel sigs rc_part /\
    fragment " | Segment: " segment sigs seg_part.
Proof.
  unfold make_title. intros H.
  apply bindE_ok in H as (t1 & H1 & H2).
  apply title_part_spec in H1 as (rc_part & -> & Hrc).
  apply title_part_spec in H2 as (seg_part & -> & Hseg).
  exists rc_part, seg_part. now rewrite append_assoc.
Qed.

Local Open Scope Q_scope.

Lemma Qzero_b_false (q : Q) : ~ q == 0 -> Qzero_b q = false.
Proof.
  intros H. unfold Qzero_b. destruct (Qeq_bool q 0) eqn:E; [| reflexivity].
  apply Qeq_bool_iff in E. contradiction.
Qed.

Lemma Qpos_nonzero (q : Q) : 0 < q -> ~ q == 0.
Proof. intros H E. rewrite E in H. now apply Qlt_irrefl in H. Qed.

Lemma quot_pos (a b : Q) : 0 < b -> quot a b = inr (a / b).
Proof.
  intros H. unfold quot. now rewrite Qzero_b_false by now apply Qpos_nonzero.
Qed.

Lemma quot_ranged_pos (a b : Q) : 0 < b -> quot_ranged a b = inr (a / b).
Proof.
  intros H. unfold quot_ranged.
  now rewrite Qzero_b_false by now apply Qpos_nonzero.
Qed.

(** When the span is a whole number [n] of steps, [arange] has [n]
    points. *)
Lemma arange_exact (start stop step : Q) (n : nat) :
  ~ step == 0 ->
  (stop - start) / step == inject_Z (Z.of_nat n) ->
  arange start stop step
  = inr (map (fun i => start + inject_Z (Z.of_nat i) * step) (seq 0 n)).
Proof.
  intros Hstep Hn. unfold arange. rewrite Qzero_b_false by assumption.
  rewrite (Qceiling_comp _ _ Hn), Qceiling_Z, Nat2Z.id. reflexivity.
Qed.

Lemma rescale_pos (q : Q) (u : TimeUnit) :
  0 < tu_seconds u -> 0 < q -> 0 < rescale q u.
Proof.
  intros Hu Hq. unfold rescale. apply Qlt_shift_div_l; [assumption |].
  now rewrite Qmult_0_l.
Qed.

Lemma inject_nat_nonneg (i : nat) : 0 <= inject_Z (Z.of_nat i).
Proof.
  change 0 with (inject_Z 0). rewrite <- Zle_Qle. apply Nat2Z.is_nonneg.
Qed.

Lemma inject_nat_lt (i n : nat) :
  (i < n)%nat -> inject_Z (Z.of_nat i) < inject_Z (Z.of_nat n).
Proof. intros H. rewrite <- Zlt_Qlt. now apply Nat2Z.inj_lt. Qed.


Lemma fold_min_spec (a : list Q) (v : Q) :
  IsMin (v :: a) (fold_left Qmin a v).
Proof.
  revert v. induction a as [| b a IH]; intros v; simpl.
  - split; [now left |]. intros u [<- | []]. apply Qle_refl.
  - destruct (IH (Qmin v b)) as [Hin Hall].
    assert (Hv : Qmin v b <= v /\ Qmin v b <= b /\
                 (Qmin v b = v \/ Qmin v b = b)).
    { unfold Qmin. destruct (Qlt_le_dec b v) as [H | H].
      - repeat split; [now apply Qlt_le_weak | apply Qle_refl | now right].
      - repeat split; [apply Qle_refl | assumption | now left]. }
    destruct Hv as (Hv & Hb & Hor). split.
    + destruct Hin as [Hin | Hin]; [| now right; right].
      rewrite <- Hin. destruct Hor as [-> | ->]; [now left | right; now left].
    + intros u [<- | [<- | Hu]].
      * eapply Qle_trans; [| exact Hv]. apply Hall. now left.
      * eapply Qle_trans; [| exact Hb]. apply Hall. now left.
      * apply Hall. now right.
Qed.


Lemma array_min_spec (a : list Q) (m : Q) :
  array_min a = inr m -> IsMin a m.
Proof.
  destruct a as [| v a]; [discriminate |]. simpl. intros H.
  inversion H; subst. apply fold_min_spec.
Qed.




Lemma offset_loop_scan (sigs : list AnalogSignal) (suf pre : list nat)
    (cprev : nat) (m : Q) (sp : AnalogSignal)
    (sigsuf : list AnalogSignal) :
  nth_error sigs cprev = Some sp ->
  map (nth_error sigs) suf = map Some sigsuf ->
  for_foldE (combine (seq (S (List.length pre)) (List.length suf)) suf) m
    (offset_body sigs (pre ++ cprev :: suf))
  = scan_offsets m sp sigsuf.
Proof.
  revert pre cprev m sp sigsuf.
  induction suf as [| c suf IH]; intros pre cprev m sp sigsuf Hsp Hsuf.
  - destruct sigsuf; [reflexivity | discriminate].
  - destruct sigsuf as [| sc sigsuf]; [discriminate |].
    simpl in Hsuf. inversion Hsuf as [[Hsc Hrest]]. clear Hsuf.
    cbn [List.length seq combine for_foldE scan_offsets].
    unfold offset_body at 1, getitem.
    rewrite Nat.sub_1_r. cbn [Nat.pred].
    rewrite nth_error_app2 by lia. rewrite Nat.sub_diag. cbn [nth_error bindE].
    rewrite Hsp. cbn [bindE].
    destruct (array_max (sig_samples sp)) as [e | hi]; [reflexivity |].
    cbn [bindE]. rewrite Hsc. cbn [bindE].
    destruct (array_min (sig_samples sc)) as [e | lo]; [reflexivity |].
    cbn [bindE].
    specialize (IH (pre ++ [cprev]) c).
    rewrite <- app_assoc, length_app, Nat.add_1_r in IH. cbn [List.app] in IH.
    destruct (Qlt_le_dec m (hi - lo)); cbn [bindE]; now apply IH.
Qed.

Lemma reversed_channels (sigs : list AnalogSignal) :
  map (nth_error sigs) (rev (seq 0 (List.length sigs)))
  = map Some (rev sigs).
Proof. now rewrite map_rev, nth_error_all, <- map_rev. Qed.

Lemma find_max_offset_scan (sigs : list AnalogSignal)
    (first : AnalogSignal) (rest : list AnalogSignal) :
  rev sigs = first :: rest ->
  find_max_offset sigs (rev (seq 0 (List.length sigs)))
  = scan_offsets 0 first rest.
Proof.
  intros Hrev. pose proof (reversed_channels sigs) as H.
  rewrite Hrev in H. unfold find_max_offset, enumerate.
  destruct (rev (seq 0 (List.length sigs))) as [| c0 suf]; [discriminate |].
  simpl in H. inversion H as [[H0 Hsuf]]. cbn [tl].
  apply (offset_loop_scan sigs suf [] c0); assumption.
Qed.

Lemma first_offset_value (sigs : list AnalogSignal)
    (first : AnalogSignal) (rest : list AnalogSignal) (off : Q) :
  rev sigs = first :: rest ->
  first_offset sigs (rev (seq 0 (List.length sigs))) off
  = (lo <-- array_min (sig_samples first) ;; inr (off - lo)).
Proof.
  intros Hrev. pose proof (reversed_channels sigs) as H.
  rewrite Hrev in H. unfold first_offset, getitem.
  destruct (rev (seq 0 (List.length sigs))) as [| c0 suf]; [discriminate |].
  simpl in H. inversion H as [[H0 Hsuf]]. simpl. now rewrite H0.
Qed.

(** The x coordinates of a spike with [L] samples: [L] points from
    the start of the window, one period apart. *)
Lemma spike_x_points (xu : TimeUnit) (spike : Spike) (wf : Waveform) :
  waveform spike = Some wf ->
  0 < spike_sampling_rate spike ->
  0 < tu_seconds xu ->
  spike_x_of xu spike
  = inr (map (fun i =>
                rescale (spike_time spike - lsweep_of spike) xu
                + inject_Z (Z.of_nat i)
                  * rescale (1 / spike_sampling_rate spike) xu)
           (seq 0 (List.length (wf_rows wf)))).
Proof.
  intros Hwf HR Hu.
  assert (HR0 : ~ spike_sampling_rate spike == 0) by now apply Qpos_nonzero.
  assert (Hu0 : ~ tu_seconds xu == 0) by now apply Qpos_nonzero.
  assert (Hstep : 0 < rescale (1 / spike_sampling_rate spike) xu).
  { apply rescale_pos; [assumption |]. unfold Qdiv. rewrite Qmult_1_l.
    now apply Qinv_lt_0_compat. }
  unfold spike_x_of. rewrite Hwf. simpl.
  rewrite !quot_ranged_pos by assumption. simpl.
  apply arange_exact; [now apply Qpos_nonzero |].
  unfold rescale. field. split; assumption.
Qed.

Local Close Scope Q_scope.

(** *** Where [SpykeException] can come from *)

Lemma quiet_inr {A} (a : A) : quiet (inr a : E A).
Proof. intros msg H. discriminate. Qed.

Lemma quiet_bindE {A B} (e : E A) (k : A -> E B) :
  quiet e -> (forall a, quiet (k a)) -> quiet (bindE e k).
Proof.
  intros He Hk msg. destruct e as [x | a]; simpl; [| exact (Hk a msg)].
  intros H. apply (He msg). inversion H. reflexivity.
Qed.

Lemma quiet_getitem {A} (l : list A) (i : nat) : quiet (getitem l i).
Proof. unfold getitem. intros msg. now destruct (nth_error l i). Qed.

Lemma quiet_deref {A} (o : option A) : quiet (deref o).
Proof. intros msg. now destruct o. Qed.

Lemma quiet_quot (a b : Q) : quiet (quot a b).
Proof. unfold quot. intros msg. now destruct (Qzero_b b). Qed.

Lemma quiet_quot_ranged (a b : Q) : quiet (quot_ranged a b).
Proof. unfold quot_ranged. intros msg. now destruct (Qzero_b b). Qed.

Lemma quiet_array_max (a : list Q) : quiet (array_max a).
Proof. intros msg. now destruct a. Qed.

Lemma quiet_array_min (a : list Q) : quiet (array_min a).
Proof. intros msg. now destruct a. Qed.

Lemma quiet_arange (start stop step : Q) : quiet (arange start stop step).
Proof. unfold arange. intros msg. now destruct (Qzero_b step). Qed.

Lemma quiet_column (w : Waveform) (c : nat) : quiet (column w c).
Proof. unfold column. intros msg. now destruct (Nat.ltb c (wf_channels w)). Qed.

Lemma quiet_for_foldE {A V} (l : list A) (v : V) (body : V -> A -> E V) :
  (forall v a, quiet (body v a)) -> quiet (for_foldE l v body).
Proof.
  intros Hbody. revert v. induction l as [| a l IH]; intros v; simpl.
  - apply quiet_inr.
  - apply quiet_bindE; auto.
Qed.

Ltac quiet_step :=
  first
    [ apply quiet_inr | apply quiet_getitem | apply quiet_deref
    | apply quiet_quot | apply quiet_quot_ranged
    | apply quiet_array_max | apply quiet_array_min
    | apply quiet_arange | apply quiet_column
    | apply quiet_bindE; [| intros ?]
    | apply quiet_for_foldE; intros ? ?
    | match goal with
      | |- quiet (if ?b then _ else _) => destruct b
      | |- quiet (let (_, _) := ?p in _) => destruct p
      end ].

Lemma quiet_run_ret {A} (a : A) : quiet_run (ret a).
Proof. intros w. apply quiet_inr. Qed.

Lemma quiet_run_lift {A} (e : E A) : quiet e -> quiet_run (lift e).
Proof. intros He w. exact He. Qed.

Lemma quiet_run_call (c : Call) : quiet_run (call c).
Proof. intros w. apply quiet_inr. Qed.

Lemma quiet_run_widget : quiet_run new_BaseCurveWidget.
Proof. intros w. apply quiet_inr. Qed.

Lemma quiet_run_bind {A B} (m : M A) (k : A -> M B) :
  quiet_run m -> (forall a, quiet_run (k a)) -> quiet_run (bind m k).
Proof.
  intros Hm Hk w. specialize (Hm w). unfold bind.
  destruct (m w) as [[e | a] w1]; simpl in *; [| exact (Hk a w1)].
  intros msg H. apply (Hm msg). inversion H. reflexivity.
Qed.

Lemma quiet_run_for_each {A} (l : list A) (body : A -> M unit) :
  (forall a, quiet_run (body a)) -> quiet_run (for_each l body).
Proof.
  intros Hbody. induction l as [| a l IH]; simpl.
  - apply quiet_run_ret.
  - apply quiet_run_bind; auto.
Qed.

Lemma quiet_run_for_fold {A V} (l : list A) (v : V) (body : V -> A -> M V) :
  (forall v a, quiet_run (body v a)) -> quiet_run (for_fold l v body).
Proof.
  intros Hbody. revert v. induction l as [| a l IH]; intros v; simpl.
  - apply quiet_run_ret.
  - apply quiet_run_bind; auto.
Qed.

Ltac quiet_run_step :=
  first
    [ apply quiet_run_ret | apply quiet_run_call | apply quiet_run_widget
    | apply quiet_run_lift
    | apply quiet_run_bind; [| intros ?]
    | apply quiet_run_for_each; intros ?
    | apply quiet_run_for_fold; intros ? ?
    | match goal with
      | |- quiet_run (if ?b then _ else _) => destruct b
      end ].

Section Quiet.

Variable get_object_color : PyUnit -> Color.
Variable spikes_from_spike_train : SpikeTrain -> list Spike.

Lemma quiet_spike_curve (xu : TimeUnit) (c : nat) (off : Q) (s : Spike) :
  quiet (spike_curve get_object_color xu c off s).
Proof. unfold spike_curve, spike_x_of. repeat quiet_step. Qed.

Lemma quiet_make_title (sigs : list AnalogSignal) : quiet (make_title sigs).
Proof. unfold make_title, title_part. repeat quiet_step. Qed.

Lemma quiet_signals_nonempty (s0 : AnalogSignal) (sigs : list AnalogSignal)
    (events : option (list Event)) (epochs : option (list Epoch))
    (trains : option (list SpikeTrain)) (spikes : option (list Spike))
    (stw us : bool) (tu : TimeUnit) (yu : option string) :
  quiet_run
    (signals get_object_color spikes_from_spike_train (s0 :: sigs) events
       epochs trains spikes stw us tu yu).
Proof.
  unfold signals, _add_spike_waveforms, draw_trains,
    subplot_body, stacked_body, _add_spike_waveforms, x_axis,
    find_max_offset, first_offset, offset_body.
  repeat first
    [ apply quiet_spike_curve | apply quiet_make_title
    | quiet_run_step | quiet_step ].
Qed.

End Quiet.

Section Claims.

Variable get_object_color : PyUnit -> Color.
Variable spikes_from_spike_train : SpikeTrain -> list Spike.

Local Abbreviation signals :=
  (signals get_object_color spikes_from_spike_train).
Local Abbreviation draw_spikes_of :=
  (draw_spikes_of spikes_from_spike_train).

Lemma signals_returns (sigs : list AnalogSignal)
    (events : option (list Event)) (epochs : option (list Epoch))
    (trains : option (list SpikeTrain)) (spikes : option (list Spike))
    (stw us : bool) (tu : TimeUnit) (yu : option string)
    (w w' : World) :
  signals sigs events epochs trains spikes stw us tu yu w = (inr tt, w') ->
  exists out k,
    signals_calls get_object_color spikes_from_spike_train sigs events
      epochs trains spikes stw us tu (widgets w) = inr (out, k) /\
    calls w' = calls w ++ out /\
    widgets w' = widgets w + k.
Proof.
  intros H. apply signals_ok in H as (out & k & H & ->). eauto.
Qed.

(** A run with subplots that returns. *)
Lemma split_run (sigs : list AnalogSignal)
    (events : option (list Event)) (epochs : option (list Epoch))
    (trains : option (list SpikeTrain)) (spikes : option (list Spike))
    (stw : bool) (tu : TimeUnit) (yu : option string) (w w' : World) :
  signals sigs events epochs trains spikes stw true tu yu w = (inr tt, w') ->
  exists title x rows plot,
    make_title sigs = inr title /\
    x_axis sigs tu = inr x /\
    List.length rows = List.length sigs /\
    map row_channel rows = seq 0 (List.length sigs) /\
    map row_signal rows = sigs /\
    Forall row_styled rows /\
    Forall (fun r =>
              map curve_style (row_spikes r)
              = map (spike_style get_object_color) (or_default spikes) /\
              map curve_style (row_draw_spikes r)
              = map (spike_style get_object_color)
                  (draw_spikes_of trains spikes stw)) rows /\
    widgets w' = widgets w + List.length sigs /\
    calls w'
    = calls w
      ++ [PlotDialog title;
          progress_set_ticks
            ((List.length (draw_spikes_of trains spikes stw)
              + List.length (or_default spikes) + 1) * List.length sigs)]
      ++ (subplots_calls get_object_color (or_default events)
            (or_default epochs) (or_default trains) stw x tu (widgets w) rows
          ++ [set_axis_title plot X_BOTTOM "Time";
              set_axis_unit plot X_BOTTOM (tu_string tu)])
      ++ closing_calls sigs trains spikes true.
Proof.
  intros H. apply signals_returns in H as (out & k & H & Hcalls & Hw).
  apply signals_calls_inv in H
    as (title & x & main & _ & Htitle & Hx & Hmain & ->).
  apply branch_split_inv in Hmain as (rows & plot & Hrows & -> & _ & ->).
  apply split_rows_ok in Hrows.
  destruct (split_rows_facts _ _ _ _ _ _ Hrows) as (Hlen & Hch & Hsig).
  exists title, x, rows, plot. rewrite Hlen in Hw.
  repeat split; try assumption.
  - eapply rows_ok_styled; eauto.
  - eapply rows_ok_styles; eauto.
Qed.

(** A stacked run that returns. *)
Lemma stacked_run_calls (sigs : list AnalogSignal)
    (events : option (list Event)) (epochs : option (list Epoch))
    (trains : option (list SpikeTrain)) (spikes : option (list Spike))
    (stw : bool) (tu : TimeUnit) (yu : option string) (w w' : World) :
  signals sigs events epochs trains spikes stw false tu yu w = (inr tt, w') ->
  let channels := rev (seq 0 (List.length sigs)) in
  exists title x max_offset offset rows s0,
    make_title sigs = inr title /\
    x_axis sigs tu = inr x /\
    find_max_offset sigs channels = inr max_offset /\
    first_offset sigs channels 0%Q = inr offset /\
    hd_error sigs = Some s0 /\
    List.length rows = List.length sigs /\
    map row_signal rows = rev sigs /\
    map row_offset rows
    = offsets_from max_offset offset (List.length sigs) /\
    Forall row_styled rows /\
    Forall (fun r =>
              map curve_style (row_spikes r)
              = map (spike_style get_object_color) (or_default spikes) /\
              map curve_style (row_draw_spikes r)
              = map (spike_style get_object_color)
                  (draw_spikes_of trains spikes stw)) rows /\
    widgets w' = widgets w + 1 /\
    calls w'
    = calls w
      ++ [PlotDialog title;
          progress_set_ticks
            ((List.length (draw_spikes_of trains spikes stw)
              + List.length (or_default spikes) + 1) * List.length sigs)]
      ++ ([BaseCurveWidget (widgets w);
           add_epochs (widgets w) (or_default epochs) tu]
          ++ stacked_calls x (widgets w) rows
          ++ [add_events (widgets w) (or_default events) tu]
          ++ (if negb stw
              then train_calls get_object_color (widgets w)
                     (or_default trains) tu
              else [])
          ++ [add_plot_widget (widgets w) 0;
              set_axis_title (widgets w) X_BOTTOM "Time";
              set_axis_unit (widgets w) X_BOTTOM (tu_string tu);
              set_axis_unit (widgets w) Y_LEFT (sig_units s0)])
      ++ closing_calls sigs trains spikes false.
Proof.
  intros H channels.
  apply signals_returns in H as (out & k & H & Hcalls & Hw).
  apply signals_calls_inv in H
    as (title & x & main & _ & Htitle & Hx & Hmain & ->).
  apply branch_stacked_inv in Hmain
    as (mo & off & rows & s0 & Hmo & Hoff & Hrows & Hs0 & -> & ->).
  apply stacked_rows_ok in Hrows.
  destruct (stacked_rows_facts _ _ _ _ _ _ _ Hrows) as (Hlen & Hsig & Hoffs).
  exists title, x, mo, off, rows, s0.
  repeat split; try assumption.
  - eapply rows_ok_styled; eauto.
  - eapply rows_ok_styles; eauto.
Qed.

(** C2: with an empty list of signals the builder raises the
    exception "no signal data" and leaves the world as it was: no
    window is created and nothing is drawn or reported.  It is the
    only way this exception comes about: with a signal in the list the
    builder does not raise it. *)
Theorem empty_signals_raise (events : option (list Event))
    (epochs : option (list Epoch)) (trains : option (list SpikeTrain))
    (spikes : option (list Spike)) (stw us : bool) (tu : TimeUnit)
    (yu : option string) (w : World) :
  signals [] events epochs trains spikes stw us tu yu w
  = (inl (SpykeException
            "Cannot create signal plot: No signal data provided!"), w) /\
  forall sigs msg,
    fst (signals sigs events epochs trains spikes stw us tu yu w)
    = inl (SpykeException msg) ->
    sigs = [].
Proof.
  split; [reflexivity |].
  intros [| s0 sigs] msg H; [reflexivity |].
  now apply (quiet_signals_nonempty get_object_color) in H.
Qed.

(** C8: a run that returns has created one window; its title is
    "Analog Signal" followed by the recording channel fragment, which
    is present exactly when all signals share one recording channel
    with a non-empty name, and by the segment fragment, likewise. *)
Theorem window_title_fragments (sigs : list AnalogSignal)
    (events : option (list Event)) (epochs : option (list Epoch))
    (trains : option (list SpikeTrain)) (spikes : option (list Spike))
    (stw us : bool) (tu : TimeUnit) (yu : option string)
    (w w' : World) :
  signals sigs events epochs trains spikes stw us tu yu w = (inr tt, w') ->
  exists rc_part seg_part,
    select a_window (calls w')
    = select a_window (calls w)
      ++ [("Analog Signal" ++ rc_part ++ seg_part)%string] /\
    fragment " | Recording Channel: " recordingchannel sigs rc_part /\
    fragment " | Segment: " segment sigs seg_part.
Proof.
  intros H. apply signals_returns in H as (out & k & H & -> & _).
  apply signals_calls_inv in H
    as (title & x & main & _ & Htitle & _ & Hmain & ->).
  apply make_title_spec in Htitle as (rc & seg & -> & Hrc & Hseg).
  exists rc, seg. repeat split; try assumption.
  assert (Hsel : select a_window main = []).
  { eapply select_branch_outer; [| | | exact Hmain];
      [now intros [] | easy | easy]. }
  rewrite !select_app, Hsel. now destruct us.
Qed.

Ltac select_calls :=
  rewrite ?select_app; unfold closing_calls;
  rewrite ?select_app, ?select_cons, ?select_nil;
  cbn [signal_curve waveform_curve a_step a_budget a_window a_widget
       a_subplot an_axis_unit a_train curve_style];
  rewrite ?app_nil_r; cbn [List.app].

(** C7: a run with subplots that returns has constructed exactly
    [len(signals)] curve widgets; the widget made for channel [c] is
    added to the window at position [c], shows the samples of
    [signals[c]] and has the unit string of [signals[c]] as the unit of
    its y axis. *)
Theorem split_mode_subplots (sigs : list AnalogSignal)
    (events : option (list Event)) (epochs : option (list Epoch))
    (trains : option (list SpikeTrain)) (spikes : option (list Spike))
    (stw : bool) (tu : TimeUnit) (yu : option string) (w w' : World) :
  signals sigs events epochs trains spikes stw true tu yu w = (inr tt, w') ->
  let n := List.length sigs in
  let plots := seq (widgets w) n in
  widgets w' = widgets w + n /\
  select a_widget (calls w') = select a_widget (calls w) ++ plots /\
  select a_subplot (calls w')
  = select a_subplot (calls w) ++ combine plots (seq 0 n) /\
  select (an_axis_unit Y_LEFT) (calls w')
  = select (an_axis_unit Y_LEFT) (calls w)
    ++ combine plots (map sig_units sigs) /\
  exists x,
    x_axis sigs tu = inr x /\
    select signal_curve (calls w')
    = select signal_curve (calls w)
      ++ combine plots (map (fun s => mkCurve x (sig_samples s) None) sigs).
Proof.
  intros H n plots. apply split_run in H
    as (title & x & rows & plot & _ & Hx & Hlen & Hch & Hsig & Hst & _
        & Hw & Hcalls).
  subst n plots. rewrite Hcalls, <- Hlen. split; [now rewrite Hlen |].
  split; [| split; [| split; [| exists x; split; [exact Hx |]]]].
  - select_calls. now rewrite select_subplots_widgets.
  - select_calls.
    rewrite (select_subplots _ _ _ _ _ _ _ a_subplot row_channel)
      by (auto using subplot_position).
    now rewrite Hch, Hlen.
  - select_calls.
    rewrite (select_subplots _ _ _ _ _ _ _ (an_axis_unit Y_LEFT)
               (fun r => sig_units (row_signal r)))
      by (auto using subplot_y_unit).
    now rewrite <- Hsig, map_map.
  - select_calls.
    rewrite (select_subplots _ _ _ _ _ _ _ signal_curve
               (fun r => mkCurve x (sig_samples (row_signal r)) None))
      by (auto using subplot_signal_curve).
    now rewrite <- Hsig, map_map.
Qed.



Lemma list_sum_succ {A} (f : A -> nat) (l : list A) :
  list_sum (map (fun a => f a + 1) l) = list_sum (map f l) + List.length l.
Proof. induction l as [| a l IH]; simpl; lia. Qed.

Lemma styles_nil (cvs : list Curve) :
  map curve_style cvs = [] -> cvs = [].
Proof. now destruct cvs. Qed.

Lemma no_overlay_rows (rows : list Row) (spikes draw_spikes : list Spike) :
  spikes = [] -> draw_spikes = [] ->
  Forall (fun r =>
            map curve_style (row_spikes r)
            = map (spike_style get_object_color) spikes /\
            map curve_style (row_draw_spikes r)
            = map (spike_style get_object_color) draw_spikes) rows ->
  list_sum (map (fun r => List.length (row_spikes r)
                          + List.length (row_draw_spikes r)) rows) = 0.
Proof.
  intros -> ->. induction 1 as [| r rows [H1 H2] _ IH]; [reflexivity |].
  simpl in *. apply styles_nil in H1, H2. now rewrite H1, H2, IH.
Qed.

(** C3, as the code has it: a run that returns with spike train
    waveforms switched on has set a budget of (spikes converted from
    the trains + explicit spikes + 1) times the number of channels; in
    every run that returns one tick is consumed per channel and one
    per waveform curve drawn; with one signal and neither spike trains
    nor spikes exactly one tick is consumed. *)
Theorem progress_ticks (sigs : list AnalogSignal)
    (events : option (list Event)) (epochs : option (list Epoch))
    (trains : option (list SpikeTrain)) (spikes : option (list Spike))
    (stw us : bool) (tu : TimeUnit) (yu : option string) (w w' : World) :
  signals sigs events epochs trains spikes stw us tu yu w = (inr tt, w') ->
  let n := List.length sigs in
  (stw = true ->
   select a_budget (calls w')
   = select a_budget (calls w)
     ++ [(List.length
            (flat_map spikes_from_spike_train (or_default trains))
          + List.length (or_default spikes) + 1) * n]) /\
  (exists curves,
     select waveform_curve (calls w')
     = select waveform_curve (calls w) ++ curves /\
     ticks (calls w') = ticks (calls w) + n + List.length curves) /\
  (n = 1 -> or_default trains = [] -> or_default spikes = [] ->
   ticks (calls w') = ticks (calls w) + 1).
Proof.
  intros H n. subst n.
  assert (Hnone : or_default trains = [] -> or_default spikes = [] ->
                  draw_spikes_of trains spikes stw = []).
  { unfold draw_spikes_of. intros -> ->. now destruct stw. }
  destruct us.
  - apply split_run in H
      as (title & x & rows & plot & _ & _ & Hlen & _ & _ & Hst & Hstyles
          & _ & Hcalls).
    rewrite Hcalls. unfold ticks. split; [| split].
    + intros ->. select_calls.
      rewrite (select_inner_none a_budget (subplots_calls _ _ _ _ _ _ _ _ _))
        by (try apply subplots_inner; now intros []).
      reflexivity.
    + exists (select waveform_curve
                (subplots_calls get_object_color (or_default events)
                   (or_default epochs) (or_default trains) stw x tu
                   (widgets w) rows)).
      split; [select_calls; reflexivity |].
      select_calls. rewrite !length_app.
      fold (ticks (subplots_calls get_object_color (or_default events)
                     (or_default epochs) (or_default trains) stw x tu
                     (widgets w) rows)).
      rewrite subplots_ticks, subplots_waveform_count by assumption.
      rewrite list_sum_succ, Hlen. simpl. lia.
    + intros Hn Ht Hs. select_calls. rewrite !length_app.
      fold (ticks (subplots_calls get_object_color (or_default events)
                     (or_default epochs) (or_default trains) stw x tu
                     (widgets w) rows)).
      rewrite subplots_ticks, list_sum_succ, Hlen, Hn.
      rewrite (no_overlay_rows rows _ _ Hs (Hnone Ht Hs) Hstyles).
      simpl. lia.
  - apply stacked_run_calls in H
      as (title & x & mo & off & rows & s0 & _ & _ & _ & _ & _ & Hlen & _
          & _ & Hst & Hstyles & _ & Hcalls).
    rewrite Hcalls. unfold ticks. split; [| split].
    + intros ->. select_calls.
      rewrite (select_inner_none a_budget (stacked_calls _ _ _))
        by (try apply stacked_inner; now intros []).
      reflexivity.
    + exists (select waveform_curve (stacked_calls x (widgets w) rows)).
      split.
      { select_calls. rewrite !select_train_if_none by reflexivity.
        now rewrite ?app_nil_r. }
      select_calls. rewrite !length_app.
      rewrite !select_train_if_none by reflexivity.
      fold (ticks (stacked_calls x (widgets w) rows)).
      rewrite stacked_ticks, stacked_waveform_count by assumption.
      rewrite list_sum_succ, Hlen. simpl. lia.
    + intros Hn Ht Hs. select_calls. rewrite !length_app.
      rewrite !select_train_if_none by reflexivity.
      fold (ticks (stacked_calls x (widgets w) rows)).
      rewrite stacked_ticks, list_sum_succ, Hlen, Hn.
      rewrite (no_overlay_rows rows _ _ Hs (Hnone Ht Hs) Hstyles).
      simpl. lia.
Qed.

Lemma flat_map_const {A B C} (l1 : list A) (l2 : list B) (v : list C) :
  List.length l1 = List.length l2 ->
  flat_map (fun _ => v) l1 = flat_map (fun _ => v) l2.
Proof.
  revert l2. induction l1 as [| a l1 IH]; intros [| b l2] H;
    try discriminate; [reflexivity |].
  simpl. f_equal. apply IH. now inversion H.
Qed.

Lemma row_styles (rows : list Row) (spikes draw_spikes : list Spike) :
  Forall (fun r =>
            map curve_style (row_spikes r)
            = map (spike_style get_object_color) spikes /\
            map curve_style (row_draw_spikes r)
            = map (spike_style get_object_color) draw_spikes) rows ->
  flat_map (fun r => map curve_style (row_spikes r ++ row_draw_spikes r))
    rows
  = flat_map (fun _ => map (spike_style get_object_color)
                         (spikes ++ draw_spikes)) rows.
Proof.
  induction 1 as [| r rows [H1 H2] _ IH]; [reflexivity |].
  simpl. now rewrite IH, !map_app, H1, H2.
Qed.

(** C9: in a run that returns, every spike train drawn as vertical
    lines has the color [get_object_color] gives its unit, and on every
    channel the waveform curves of the spikes carry, in the order of the
    spikes, the color [get_object_color] gives the unit of the spike.
    So two spike trains of one unit are drawn in one color, two spikes
    of one unit are drawn in one color, and the color of an item does
    not depend on its place in the order of drawing. *)
Theorem unit_colors (sigs : list AnalogSignal)
    (events : option (list Event)) (epochs : option (list Epoch))
    (trains : option (list SpikeTrain)) (spikes : option (list Spike))
    (stw us : bool) (tu : TimeUnit) (yu : option string) (w w' : World) :
  signals sigs events epochs trains spikes stw us tu yu w = (inr tt, w') ->
  exists made,
    calls w' = calls w ++ made /\
    (forall p t col u,
       In (add_spikes p t col u) made ->
       col = get_object_color (train_unit t)) /\
    (forall p1 t1 col1 u1 p2 t2 col2 u2,
       In (add_spikes p1 t1 col1 u1) made ->
       In (add_spikes p2 t2 col2 u2) made ->
       train_unit t1 = train_unit t2 -> col1 = col2) /\
    map (fun pc => curve_style (snd pc)) (select waveform_curve made)
    = flat_map
        (fun _ =>
           map (fun s => Some (get_object_color (spike_unit s), 2))
             (or_default spikes ++ draw_spikes_of trains spikes stw))
        sigs /\
    (forall s1 s2,
       spike_unit s1 = spike_unit s2 ->
       spike_style get_object_color s1 = spike_style get_object_color s2).
Proof.
  intros H.
  assert (Hmade : exists made,
            calls w' = calls w ++ made /\
            (forall c, In c made -> train_colored get_object_color c) /\
            map (fun pc => curve_style (snd pc))
              (select waveform_curve made)
            = flat_map
                (fun _ =>
                   map (spike_style get_object_color)
                     (or_default spikes ++ draw_spikes_of trains spikes stw))
                sigs).
  { destruct us.
    - apply split_run in H
        as (title & x & rows & plot & _ & _ & Hlen & _ & _ & Hst & Hstyles
            & _ & Hcalls).
      eexists. split; [exact Hcalls |]. split.
      + intros c Hc. unfold closing_calls in Hc.
        repeat first
          [ apply in_app_or in Hc as [Hc | Hc]
          | destruct Hc as [Hc | Hc]
          | solve [destruct Hc] ];
          try (subst c; intros q t col Heq; discriminate).
        eapply subplots_train_colored; eauto.
      + select_calls.
        rewrite subplots_waveform_styles, (row_styles _ _ _ Hstyles)
          by assumption.
        now apply flat_map_const.
    - apply stacked_run_calls in H
        as (title & x & mo & off & rows & s0 & _ & _ & _ & _ & _ & Hlen & _
            & _ & Hst & Hstyles & _ & Hcalls).
      eexists. split; [exact Hcalls |]. split.
      + intros c Hc. unfold closing_calls in Hc.
        repeat first
          [ apply in_app_or in Hc as [Hc | Hc]
          | destruct Hc as [Hc | Hc]
          | solve [destruct Hc] ];
          try (subst c; intros q t col Heq; discriminate);
          eauto using stacked_train_colored, train_if_colored.
      + select_calls.
        rewrite (select_waveform_train_if _ _ _ _ _).
        rewrite ?app_nil_r.
        rewrite stacked_waveform_styles, (row_styles _ _ _ Hstyles)
          by assumption.
        now apply flat_map_const. }
  destruct Hmade as (made & Hcalls & Hcol & Hstyle).
  exists made. split; [exact Hcalls |].
  assert (Htrain : forall p t col u,
            In (add_spikes p t col u) made ->
            col = get_object_color (train_unit t)).
  { intros p t col u Hin. exact (Hcol _ Hin p t col eq_refl). }
  split; [exact Htrain |]. split; [| split].
  - intros p1 t1 col1 u1 p2 t2 col2 u2 H1 H2 Hu.
    rewrite (Htrain _ _ _ _ H1), (Htrain _ _ _ _ H2). now rewrite Hu.
  - exact Hstyle.
  - intros s1 s2 Hu. unfold spike_style. now rewrite Hu.
Qed.

Local Open Scope Q_scope.

(** The window of a spike over the rationals, where [sp.arange] is
    exact: for a spike with a waveform of [L] samples at a positive
    rate [R], drawn on an axis in [xu], the left sweep is the one of
    the spike, or 0 when absent; the x coordinates are the [L] points
    that start at [spike.time - left_sweep] and are [1 / R] apart, all
    rescaled to [xu], so they lie in the window that starts there and
    spans [L / R]; with a zero left sweep that window is
    [[spike.time, spike.time + L / R)]. *)
Lemma spike_window (xu : TimeUnit) (spike : Spike) (wf : Waveform) :
  waveform spike = Some wf ->
  0 < spike_sampling_rate spike ->
  0 < tu_seconds xu ->
  let L := List.length (wf_rows wf) in
  let R := spike_sampling_rate spike in
  let start := rescale (spike_time spike - lsweep_of spike) xu in
  let span := rescale (inject_Z (Z.of_nat L) / R) xu in
  exists xs,
    spike_x_of xu spike = inr xs /\
    (forall c off cv,
       spike_curve get_object_color xu c off spike = inr cv ->
       curve_x cv = xs) /\
    List.length xs = L /\
    (forall i, (i < L)%nat ->
       nth_error xs i
       = Some (start + inject_Z (Z.of_nat i) * rescale (1 / R) xu)) /\
    (forall v, In v xs -> start <= v /\ v < start + span) /\
    lsweep_of spike
    == match left_sweep spike with Some l => l | None => 0 end /\
    (left_sweep spike = None -> lsweep_of spike = 0) /\
    (lsweep_of spike == 0 ->
     forall v, In v xs ->
       rescale (spike_time spike) xu <= v /\
       v < rescale (spike_time spike + inject_Z (Z.of_nat L) / R) xu).
Proof.
  intros Hwf HR Hu L R start span.
  assert (HR0 : ~ R == 0) by now apply Qpos_nonzero.
  assert (Hu0 : ~ tu_seconds xu == 0) by now apply Qpos_nonzero.
  assert (Hstep : 0 < rescale (1 / R) xu).
  { apply rescale_pos; [assumption |]. unfold Qdiv. rewrite Qmult_1_l.
    now apply Qinv_lt_0_compat. }
  set (xs := map (fun i => start + inject_Z (Z.of_nat i) * rescale (1 / R) xu)
               (seq 0 L)).
  assert (Hxs : spike_x_of xu spike = inr xs).
  { now apply spike_x_points. }
  assert (Hbounds : forall v, In v xs -> start <= v /\ v < start + span).
  { intros v Hv. unfold xs in Hv. apply in_map_iff in Hv as (i & <- & Hi).
    apply in_seq in Hi as [_ Hi]. simpl in Hi. split.
    - rewrite <- (Qplus_0_r start) at 1. apply Qplus_le_r.
      apply Qmult_le_0_compat; [apply inject_nat_nonneg |].
      now apply Qlt_le_weak.
    - apply Qplus_lt_r.
      assert (Hspan : span == inject_Z (Z.of_nat L) * rescale (1 / R) xu).
      { unfold span, rescale. field. split; assumption. }
      rewrite Hspan. apply Qmult_lt_compat_r; [assumption |].
      now apply inject_nat_lt. }
  exists xs. repeat split.
  - exact Hxs.
  - intros c off cv H. unfold spike_curve in H. rewrite Hxs in H. simpl in H.
    apply bindE_ok in H as (wf' & _ & H).
    apply bindE_ok in H as (wave & _ & H). now inversion H.
  - unfold xs. now rewrite length_map, length_seq.
  - intros i Hi. unfold xs.
    rewrite nth_error_map, nth_error_seq.
    apply Nat.ltb_lt in Hi. now rewrite Hi.
  - now apply Hbounds.
  - now apply Hbounds.
  - unfold lsweep_of. destruct (left_sweep spike) as [l |]; [| reflexivity].
    unfold Qzero_b. destruct (Qeq_bool l 0) eqn:El; [| reflexivity].
    apply Qeq_bool_eq in El. now symmetry.
  - intros Hnone. unfold lsweep_of. now rewrite Hnone.
  - apply Hbounds in H0 as [Hlo _].
    assert (Hs : start == rescale (spike_time spike) xu).
    { unfold start, rescale. rewrite H. field. assumption. }
    now rewrite <- Hs.
  - apply Hbounds in H0 as [_ Hhi].
    assert (Hs : start + span
                 == rescale (spike_time spike + inject_Z (Z.of_nat L) / R) xu).
    { unfold start, span, rescale. rewrite H. field. split; assumption. }
    now rewrite <- Hs.
Qed.


Lemma title_part_total (label : string)
    (field : AnalogSignal -> option NeoObject) (sigs : list AnalogSignal)
    (s0 : AnalogSignal) (t : string) :
  hd_error sigs = Some s0 -> field s0 <> None ->
  exists t', title_part label field sigs t = inr t'.
Proof.
  intros Hs0 Hf. unfold title_part, getitem.
  destruct (Nat.eqb _ 1); [| eauto].
  destruct sigs as [| s sigs]; [discriminate |].
  simpl in *. inversion Hs0; subst s.
  destruct (field s0) as [o |]; [| contradiction].
  simpl. destruct (name_truthy (obj_name o)); eauto.
Qed.

Lemma spike_curve_total (xu : TimeUnit) (n c : nat) (off : Q) (s : Spike) :
  0 < tu_seconds xu -> spike_ok n s -> (c < n)%nat ->
  exists cv, spike_curve get_object_color xu c off s = inr cv.
Proof.
  intros Hu (wf & Hwf & HR & Hn) Hc.
  unfold spike_curve, column.
  rewrite (spike_x_points xu s wf Hwf HR Hu), Hwf. simpl.
  assert (Hlt : Nat.ltb c (wf_channels wf) = true)
    by (apply Nat.ltb_lt; lia).
  rewrite Hlt. simpl. eauto.
Qed.

Lemma make_row_total (sigs : list AnalogSignal)
    (spikes draw_spikes : list Spike) (xu : TimeUnit) (off : Q) (c : nat) :
  0 < tu_seconds xu ->
  Forall (spike_ok (List.length sigs)) (spikes ++ draw_spikes) ->
  (c < List.length sigs)%nat ->
  exists r,
    make_row get_object_color sigs spikes draw_spikes xu off c = inr r.
Proof.
  intros Hu Hok Hc. apply Forall_app in Hok as [H1 H2].
  unfold make_row, getitem, waveform_curves.
  destruct (nth_error sigs c) as [sc |] eqn:Hsc;
    [| apply nth_error_None in Hsc; lia].
  simpl.
  destruct (mapE_total (spike_curve get_object_color xu c off) spikes)
    as (cvs & ->).
  { intros s Hs. rewrite List.Forall_forall in H1.
    eapply spike_curve_total; eauto. }
  simpl.
  destruct (mapE_total (spike_curve get_object_color xu c off) draw_spikes)
    as (dcvs & ->).
  { intros s Hs. rewrite List.Forall_forall in H2.
    eapply spike_curve_total; eauto. }
  simpl. eauto.
Qed.

Lemma stacked_rows_total (sigs : list AnalogSignal)
    (spikes draw_spikes : list Spike) (xu : TimeUnit) (mo off : Q)
    (cs : list nat) :
  0 < tu_seconds xu ->
  Forall (spike_ok (List.length sigs)) (spikes ++ draw_spikes) ->
  Forall (fun c => (c < List.length sigs)%nat) cs ->
  exists rows,
    stacked_rows get_object_color sigs spikes draw_spikes xu mo off cs
    = inr rows.
Proof.
  intros Hu Hok Hcs. revert off.
  induction Hcs as [| c cs Hc _ IH]; intros off; simpl; [eauto |].
  destruct (make_row_total sigs spikes draw_spikes xu off c Hu Hok Hc)
    as (r & ->).
  simpl. destruct (IH (off + mo)) as (rows & ->). simpl. eauto.
Qed.

Lemma scan_offsets_total (rest : list AnalogSignal) (prev : AnalogSignal)
    (m : Q) :
  Forall (fun s => sig_samples s <> []) (prev :: rest) ->
  exists mo, scan_offsets m prev rest = inr mo.
Proof.
  revert prev m. induction rest as [| cur rest IH]; intros prev m H;
    simpl; [eauto |].
  inversion H as [| ? ? Hp Hrest]; subst.
  inversion Hrest as [| ? ? Hc _]; subst.
  destruct (sig_samples prev) as [| v a] eqn:Ep; [contradiction |].
  destruct (sig_samples cur) as [| v' a'] eqn:Ec; [contradiction |].
  simpl. apply IH. assumption.
Qed.

(** X1: on well-formed arguments the builder returns: when the first
    signal has a recording channel, a segment and a positive sampling
    rate, the time unit has a positive size, every spike drawn as a
    waveform has a waveform with a column for each channel and a
    positive sampling rate, these waveforms carry the unit of the
    first signal and, for a stacked plot, the signals carry one unit
    and each has a sample, no exception is raised. *)
Lemma signals_returns_when_well_formed (sigs : list AnalogSignal)
    (events : option (list Event)) (epochs : option (list Epoch))
    (trains : option (list SpikeTrain)) (spikes : option (list Spike))
    (stw us : bool) (tu : TimeUnit) (yu : option string) (w : World) :
  well_formed sigs (or_default spikes ++ draw_spikes_of trains spikes stw)
    us tu ->
  exists w',
    signals sigs events epochs trains spikes stw us tu yu w = (inr tt, w').
Proof.
  intros ((s0 & Hs0 & Hrc & Hseg & Hrate & _) & Hu & Hok & Hsamples).
  assert (Hne : exists s rest, sigs = s :: rest).
  { destruct sigs as [| s rest]; [discriminate | eauto]. }
  destruct Hne as (s & rest & Esigs).
  assert (Hcalls : exists out k,
            signals_calls get_object_color spikes_from_spike_train sigs
              events epochs trains spikes stw us tu (widgets w)
            = inr (out, k)).
  { unfold signals_calls. rewrite Esigs. rewrite <- Esigs. cbv zeta.
    fold (draw_spikes_of trains spikes stw).
    unfold make_title.
    destruct (title_part_total " | Recording Channel: " recordingchannel
                sigs s0 "Analog Signal" Hs0 Hrc) as (t1 & ->).
    simpl.
    destruct (title_part_total " | Segment: " segment sigs s0 t1 Hs0 Hseg)
      as (t2 & ->).
    simpl. unfold x_axis, getitem.
    assert (H0 : nth_error sigs 0 = Some s0)
      by (rewrite Esigs in *; exact Hs0).
    rewrite H0. simpl. rewrite quot_pos by assumption. simpl.
    unfold branch_calls. destruct us.
    - destruct (mapE_total
                  (make_row get_object_color sigs (or_default spikes)
                     (draw_spikes_of trains spikes stw) tu 0)
                  (seq 0 (List.length sigs))) as (rows & Hrows).
      { intros c Hc. apply in_seq in Hc.
        apply make_row_total; [assumption | assumption | lia]. }
      rewrite Hrows. simpl.
      apply mapE_length in Hrows. rewrite length_seq in Hrows.
      rewrite Hrows, Esigs. simpl. eauto.
    - destruct (Hsamples eq_refl) as [_ Hsamples']. clear Hsamples.
      rename Hsamples' into Hsamples.
      destruct (rev sigs) as [| first others] eqn:Hrev.
      { apply (f_equal (@List.length _)) in Hrev.
        rewrite length_rev, Esigs in Hrev. discriminate. }
      assert (Hrevs : Forall (fun s => sig_samples s <> [])
                        (first :: others)).
      { rewrite <- Hrev. now apply Forall_rev. }
      rewrite (find_max_offset_scan _ _ _ Hrev).
      destruct (scan_offsets_total others first 0 Hrevs) as (mo & ->).
      simpl. rewrite (first_offset_value _ _ _ _ Hrev).
      pose proof (Forall_inv Hrevs) as Hfirst. simpl in Hfirst.
      destruct (sig_samples first) as [| v a] eqn:Ef; [contradiction |].
      simpl.
      destruct (stacked_rows_total sigs (or_default spikes)
                  (draw_spikes_of trains spikes stw) tu mo
                  (0 - fold_left Qmin a v)
                  (rev (seq 0 (List.length sigs))) Hu Hok)
        as (rows & ->).
      { apply Forall_rev. apply List.Forall_forall. intros c Hc.
        apply in_seq in Hc. lia. }
      cbn [bindE]. unfold getitem. rewrite H0. simpl. eauto. }
  destruct Hcalls as (out & k & Hcalls).
  exists (emit w out k). apply signals_ok. eauto.
Qed.

Local Close Scope Q_scope.

End Claims.

Lemma window_title_witness :
  let w' := snd (signals Sample.palette Sample.spikes_of
                   [Sample.high; Sample.low] None None None None
                   true false Sample.ms None empty_world) in
  exists rc_part seg_part,
    select a_window (calls w')
    = select a_window (calls empty_world)
      ++ [("Analog Signal" ++ rc_part ++ seg_part)%string] /\
    fragment " | Recording Channel: " recordingchannel
      [Sample.high; Sample.low] rc_part /\
    fragment " | Segment: " segment [Sample.high; Sample.low] seg_part.
Proof.
  intros w'.
  apply (window_title_fragments Sample.palette Sample.spikes_of
           [Sample.high; Sample.low] None None None None true false
           Sample.ms None empty_world w').
  vm_compute. reflexivity.
Defined.

(** ** What the builder writes to *)

Module PyFacts.

Import Py.

Lemma frame_refl (n : nat) (h : Store) : frame n h h.
Proof. now intros l _. Qed.

Lemma frame_trans (n : nat) (h1 h2 h3 : Store) :
  frame n h1 h2 -> frame n h2 h3 -> frame n h1 h3.
Proof. intros H12 H23 l Hl. now rewrite H23, H12. Qed.

Lemma keeps_weaken {A} (n : nat) (m : H A) (Q Q' : A -> Prop) :
  keeps n m Q -> (forall a, Q a -> Q' a) -> keeps n m Q'.
Proof.
  intros Hm HQ h Hn. destruct (Hm h Hn) as (H1 & H2 & H3).
  repeat split; try assumption. destruct (fst (m h)); auto.
Qed.

Lemma keeps_ret {A} (n : nat) (a : A) (Q : A -> Prop) :
  Q a -> keeps n (ret a) Q.
Proof. intros HQ h Hn. simpl. auto using frame_refl. Qed.

Lemma keeps_lift {A} (n : nat) (e : E A) :
  keeps n (lift e) (fun _ => True).
Proof.
  intros h Hn. simpl. repeat split; auto using frame_refl. now destruct e.
Qed.

Lemma keeps_bind {A B} (n : nat) (m : H A) (k : A -> H B)
    (Q : A -> Prop) (R : B -> Prop) :
  keeps n m Q -> (forall a, Q a -> keeps n (k a) R) ->
  keeps n (bind m k) R.
Proof.
  intros Hm Hk h Hn. destruct (Hm h Hn) as (H1 & H2 & H3).
  unfold bind. destruct (m h) as [[e | a] h1]; simpl in *.
  - auto.
  - destruct (Hk a H3 h1 H1) as (K1 & K2 & K3).
    repeat split; eauto using frame_trans.
Qed.

Lemma keeps_alloc (n : nat) (v : obj) :
  keeps n (alloc v) (fun l => (n <= l)%nat).
Proof.
  intros h Hn. unfold alloc. simpl. repeat split; [lia | | exact Hn].
  intros l Hl. simpl. apply lookup_insert_ne. lia.
Qed.

Lemma keeps_load (n l : nat) : keeps n (load l) (fun _ => True).
Proof.
  intros h Hn. unfold load.
  destruct (objs h !! l); simpl; auto using frame_refl.
Qed.

Lemma keeps_store (n l : nat) (v : obj) :
  (n <= l)%nat -> keeps n (store l v) (fun _ => True).
Proof.
  intros Hl h Hn. unfold store.
  destruct (objs h !! l); simpl; auto using frame_refl.
  repeat split; [exact Hn |].
  intros l' Hl'. simpl. apply lookup_insert_ne. lia.
Qed.

Lemma keeps_for_each {A} (n : nat) (l : list A) (body : A -> H unit) :
  (forall a, keeps n (body a) (fun _ => True)) ->
  keeps n (for_each l body) (fun _ => True).
Proof.
  intros Hbody. induction l as [| a l IH]; simpl.
  - now apply keeps_ret.
  - eapply keeps_bind; [apply Hbody | intros _ _; exact IH].
Qed.

Lemma keeps_for_fold {A V} (n : nat) (l : list A) (v : V)
    (body : V -> A -> H V) :
  (forall v a, keeps n (body v a) (fun _ => True)) ->
  keeps n (for_fold l v body) (fun _ => True).
Proof.
  intros Hbody. revert v. induction l as [| a l IH]; intros v; simpl.
  - now apply keeps_ret.
  - eapply keeps_bind; [apply Hbody | intros v' _; apply IH].
Qed.

Lemma keeps_map_each {A B} (n : nat) (l : list A) (f : A -> H B) :
  (forall a, keeps n (f a) (fun _ => True)) ->
  keeps n (map_each l f) (fun _ => True).
Proof.
  intros Hf. induction l as [| a l IH]; simpl.
  - now apply keeps_ret.
  - eapply keeps_bind; [apply Hf | intros b _].
    eapply keeps_bind; [exact IH | intros bs _]. now apply keeps_ret.
Qed.

Lemma keeps_true {A} (n : nat) (m : H A) (Q : A -> Prop) :
  keeps n m Q -> keeps n m (fun _ => True).
Proof. intros Hm. eapply keeps_weaken; eauto. Qed.

(** One step of a proof that a computation keeps the objects below
    [n]: a new object is known to lie at [n] or above, and an update in
    place has to be of such an object. *)
Ltac keeps_step :=
  lazymatch goal with
  | |- keeps _ (bind (alloc _) _) _ =>
      eapply keeps_bind; [apply keeps_alloc | intros ? ?]
  | |- keeps _ (bind _ _) _ =>
      eapply (keeps_bind _ _ _ (fun _ => True)); [| intros ? _]
  | |- keeps _ (ret _) _ => apply keeps_ret; exact I
  | |- keeps _ (lift _) _ => apply keeps_lift
  | |- keeps _ (load _) _ => apply keeps_load
  | |- keeps _ (store _ _) _ => apply keeps_store; assumption
  | |- keeps _ (alloc _) _ => eapply keeps_true; apply keeps_alloc
  | |- keeps _ (for_each _ _) _ => apply keeps_for_each; intros ?
  | |- keeps _ (for_fold _ _ _) _ => apply keeps_for_fold; intros ? ?
  | |- keeps _ (map_each _ _) _ => apply keeps_map_each; intros ?
  | |- keeps _ (match ?v with _ => _ end) _ => destruct v
  | |- keeps _ (if ?b then _ else _) _ => destruct b
  end.

Ltac keeps_tac := repeat keeps_step.

Lemma keeps_load_list (n l : nat) : keeps n (load_list l) (fun _ => True).
Proof. unfold load_list. keeps_tac. Qed.

Lemma keeps_load_ints (n l : nat) : keeps n (load_ints l) (fun _ => True).
Proof. unfold load_ints. keeps_tac. Qed.

Lemma keeps_load_signal (n l : nat) :
  keeps n (load_signal l) (fun _ => True).
Proof. unfold load_signal. keeps_tac. Qed.

Lemma keeps_load_quantity (n l : nat) :
  keeps n (load_quantity l) (fun _ => True).
Proof. unfold load_quantity. keeps_tac. Qed.

Lemma keeps_load_spike (n l : nat) : keeps n (load_spike l) (fun _ => True).
Proof. unfold load_spike. keeps_tac. Qed.

Lemma keeps_load_train (n l : nat) : keeps n (load_train l) (fun _ => True).
Proof. unfold load_train. keeps_tac. Qed.

Lemma keeps_load_scalar (n l : nat) :
  keeps n (load_scalar l) (fun _ => True).
Proof.
  unfold load_scalar.
  eapply keeps_bind; [apply keeps_load_quantity | intros d _].
  destruct d as [| q [| q' d]]; keeps_tac.
Qed.

Lemma keeps_signal_at (n l c : nat) :
  keeps n (signal_at l c) (fun _ => True).
Proof.
  unfold signal_at.
  eapply keeps_bind; [apply keeps_load_list | intros refs _].
  eapply keeps_bind; [apply keeps_lift | intros r _].
  apply keeps_load_signal.
Qed.

Lemma keeps_list_extend (n l : nat) (items : list nat) :
  (n <= l)%nat -> keeps n (list_extend l items) (fun _ => True).
Proof.
  intros Hl. unfold list_extend.
  eapply keeps_bind; [apply keeps_load_list | intros old _].
  now apply keeps_store.
Qed.

Lemma keeps_list_reverse (n l : nat) :
  (n <= l)%nat -> keeps n (list_reverse l) (fun _ => True).
Proof.
  intros Hl. unfold list_reverse.
  eapply keeps_bind; [apply keeps_load_ints | intros old _].
  now apply keeps_store.
Qed.

Lemma keeps_set_units (n x : nat) (u : TimeUnit) :
  (n <= x)%nat -> keeps n (set_units x u) (fun _ => True).
Proof.
  intros Hl. unfold set_units.
  eapply keeps_bind; [apply keeps_load_quantity | intros old _].
  now apply keeps_store.
Qed.

Lemma keeps_isub (n a : nat) (b : Q) :
  (n <= a)%nat -> keeps n (isub a b) (fun _ => True).
Proof.
  intros Hl. unfold isub.
  eapply keeps_bind; [apply keeps_load_scalar | intros old _].
  now apply keeps_store.
Qed.

Lemma keeps_iadd (n a : nat) (b : Q) :
  (n <= a)%nat -> keeps n (iadd a b) (fun _ => True).
Proof.
  intros Hl. unfold iadd.
  eapply keeps_bind; [apply keeps_load_scalar | intros old _].
  now apply keeps_store.
Qed.

Lemma keeps_or_new_list (n : nat) (o : option nat) :
  keeps n (or_new_list o) (fun _ => True).
Proof. unfold or_new_list. destruct o; keeps_tac. Qed.

Ltac keeps_known :=
  first
    [ apply keeps_load_list | apply keeps_load_ints
    | apply keeps_load_signal | apply keeps_load_quantity
    | apply keeps_load_spike | apply keeps_load_train
    | apply keeps_load_scalar | apply keeps_signal_at
    | apply keeps_or_new_list
    | apply keeps_list_extend; assumption
    | apply keeps_list_reverse; assumption
    | apply keeps_set_units; assumption
    | apply keeps_isub; assumption
    | apply keeps_iadd; assumption ].

Ltac keeps_all := repeat first [keeps_known | keeps_step].

Section Builder.

Variable spikes_from_spike_train : SpikeTrain -> list Spike.

Lemma keeps_spikes_from_spike_train_at (n st : nat) :
  keeps n (spikes_from_spike_train_at spikes_from_spike_train st)
    (fun _ => True).
Proof. unfold spikes_from_spike_train_at. keeps_all. Qed.

Lemma keeps_add_spike_waveforms (n spikes : nat) (xu : TimeUnit)
    (c offset : nat) :
  keeps n (_add_spike_waveforms spikes xu c offset) (fun _ => True).
Proof. unfold _add_spike_waveforms. keeps_all. Qed.

Lemma keeps_signals (n sigs : nat) (events epochs trains spikes : option nat)
    (stw us : bool) (tu : TimeUnit) :
  keeps n
    (signals spikes_from_spike_train sigs events epochs trains spikes stw us
       tu)
    (fun _ => True).
Proof.
  unfold signals.
  repeat first
    [ apply keeps_spikes_from_spike_train_at
    | apply keeps_add_spike_waveforms
    | keeps_known
    | keeps_step ].
Qed.

(** C10: whatever the builder returns or raises, every object that was
    in the store before the call (the list of signals, the signals and
    their samples, the events, epochs, spike trains and spikes among
    them) is the same afterwards: the objects updated in place (the
    list of channels that is reversed, the list [draw_spikes] that is
    extended, the array [x] and the running [offset]) are all made
    during the call. *)
Theorem inputs_unchanged (h : Store) (sigs : nat)
    (events epochs trains spikes : option nat) (stw us : bool)
    (tu : TimeUnit) (l : nat) :
  (l < next h)%nat ->
  objs (snd (signals spikes_from_spike_train sigs events epochs trains
               spikes stw us tu h)) !! l
  = objs h !! l.
Proof.
  intros Hl.
  destruct (keeps_signals (next h) sigs events epochs trains spikes stw us
              tu h (Nat.le_refl _)) as (_ & Hframe & _).
  now apply Hframe.
Qed.

End Builder.

End PyFacts.

(** ** The properties at the sample data *)



Lemma progress_ticks_witness :
  let w' := snd (signals Sample.palette Sample.spikes_of
                   [Sample.high; Sample.low] None None
                   (Some [Sample.train0]) (Some [Sample.spike0])
                   true true Sample.ms None empty_world) in
  select a_budget (calls w') = select a_budget (calls empty_world) ++ [8].
Proof.
  intros w'.
  assert (H : signals Sample.palette Sample.spikes_of
                [Sample.high; Sample.low] None None
                (Some [Sample.train0]) (Some [Sample.spike0])
                true true Sample.ms None empty_world = (inr tt, w'))
    by (vm_compute; reflexivity).
  destruct (progress_ticks _ _ _ _ _ _ _ _ _ _ _ _ _ H) as (Hb & _).
  exact (Hb eq_refl).
Defined.

(** C3 as stated fails: one signal without overlays consumes one tick,
    not two. *)
Lemma single_signal_consumes_one_tick :
  let r := signals Sample.palette Sample.spikes_of [Sample.high]
             None None None None true true Sample.ms None empty_world in
  fst r = inr tt /\
  select a_budget (calls (snd r)) = [1] /\
  ticks (calls (snd r)) = 1 /\
  ticks (calls (snd r)) <> 2.
Proof.
  vm_compute. repeat split; discriminate.
Qed.

(** C4 at one signal and one explicit spike: with spike train waveforms
    switched off the spike is drawn twice on the channel, the same
    curve both times, and the budget counts it twice; with them
    switched on it is drawn once. *)
Theorem explicit_spike_drawn_twice :
  let run stw :=
    signals Sample.palette Sample.spikes_of [Sample.high] None None None
      (Some [Sample.spike0]) stw true Sample.ms None empty_world in
  fst (run false) = inr tt /\
  (exists cv,
     select waveform_curve (calls (snd (run false))) = [(0, cv); (0, cv)] /\
     select waveform_curve (calls (snd (run true))) = [(0, cv)]) /\
  select a_budget (calls (snd (run false))) = [3] /\
  select a_budget (calls (snd (run true))) = [2].
Proof.
  vm_compute. repeat split. eexists. split; reflexivity.
Qed.

(** C5 fails on binary64, where numpy computes the x coordinates.
    For the spike at 0.1 s with no left sweep and three waveform
    samples at 10 Hz, on an x axis in seconds: over the rationals the
    x coordinates are three points; on binary64
    [(stop - start) / step] comes out above 3 and [sp.arange] returns
    four points for the three samples, the last of them the end
    [spike.time + L / R] of the window, which the claim leaves out.
    For the spike at 2 s with thirty samples at 10 kHz it returns
    thirty-one points.  Where every number of the window is a
    binary64 number the points are those of the claim: for the spike
    at 0.5 s with a left sweep of 0.25 s and three samples at 8 Hz
    they are 0.25, 0.375 and 0.5. *)
Theorem spike_window_overshoots :
  (exists xs,
     spike_x_of Sample.sec Sample.slow = inr xs /\
     List.length xs = 3) /\
  F64.left_sweep F64.spike = None /\
  F64.shape0 F64.spike = 3 /\
  (exists x0 x1 x2 x3,
     F64.spike_x_of F64.spike = inr [x0; x1; x2; x3] /\
     x0 = F64.time F64.spike /\
     x3 = PrimFloat.add (F64.time F64.spike)
            (PrimFloat.div (F64.of_nat 3) (F64.sampling_rate F64.spike)) /\
     x3 = F64.stop_of F64.spike /\
     PrimFloat.ltb x3 (F64.stop_of F64.spike) = false) /\
  F64.shape0 F64.spike_10k = 30 /\
  (exists xs,
     F64.spike_x_of F64.spike_10k = inr xs /\
     List.length xs = 31) /\
  F64.spike_x_of F64.swept
  = inr [PrimFloat.div (F64.of_Z 1) (F64.of_Z 4);
         PrimFloat.div (F64.of_Z 3) (F64.of_Z 8);
         PrimFloat.div (F64.of_Z 1) (F64.of_Z 2)].
Proof.
  split.
  { eexists. split; [vm_compute; reflexivity | reflexivity]. }
  split; [reflexivity |]. split; [reflexivity |].
  split.
  { do 4 eexists.
    split; [vm_compute; reflexivity |].
    repeat split; vm_compute; reflexivity. }
  split; [reflexivity |].
  split.
  { eexists. split; [vm_compute; reflexivity | reflexivity]. }
  vm_compute. reflexivity.
Qed.


Lemma split_mode_witness :
  let w' := snd (signals Sample.palette Sample.spikes_of
                   [Sample.high; Sample.low] None None
                   (Some [Sample.train0]) (Some [Sample.spike0])
                   false true Sample.ms None empty_world) in
  select (an_axis_unit Y_LEFT) (calls w')
  = select (an_axis_unit Y_LEFT) (calls empty_world)
    ++ combine (seq 0 2) ["mV"; "uV"].
Proof.
  intros w'.
  assert (H : signals Sample.palette Sample.spikes_of
                [Sample.high; Sample.low] None None
                (Some [Sample.train0]) (Some [Sample.spike0])
                false true Sample.ms None empty_world = (inr tt, w'))
    by (vm_compute; reflexivity).
  destruct (split_mode_subplots _ _ _ _ _ _ _ _ _ _ _ _ H)
    as (_ & _ & _ & Hy & _).
  exact Hy.
Defined.

Lemma unit_colors_witness :
  let w' := snd (signals Sample.palette Sample.spikes_of
                   [Sample.high] None None
                   (Some [Sample.train0; Sample.train1])
                   (Some [Sample.spike0; Sample.spike1])
                   false false Sample.ms None empty_world) in
  exists made,
    calls w' = calls empty_world ++ made /\
    forall p t col u,
      In (add_spikes p t col u) made ->
      col = Sample.palette (train_unit t).
Proof.
  intros w'.
  assert (H : signals Sample.palette Sample.spikes_of
                [Sample.high] None None
                (Some [Sample.train0; Sample.train1])
                (Some [Sample.spike0; Sample.spike1])
                false false Sample.ms None empty_world = (inr tt, w'))
    by (vm_compute; reflexivity).
  destruct (unit_colors _ _ _ _ _ _ _ _ _ _ _ _ _ H)
    as (made & Hcalls & Hcol & _).
  exists made. split; assumption.
Defined.

Lemma inputs_unchanged_witness :
  Py.objs (snd (Py.signals Sample.spikes_of 2 None None None (Some 4)
                  false false Sample.ms Sample.store0)) !! 2
  = Py.objs Sample.store0 !! 2.
Proof.
  apply (PyFacts.inputs_unchanged Sample.spikes_of Sample.store0 2
           None None None (Some 4) false false Sample.ms 2).
  simpl. lia.
Defined.

Lemma empty_signals_witness :
  signals Sample.palette Sample.spikes_of [] None None
    (Some [Sample.train0]) (Some [Sample.spike0]) true false Sample.ms None
    empty_world
  = (inl (SpykeException
            "Cannot create signal plot: No signal data provided!"),
     empty_world).
Proof.
  exact (proj1 (empty_signals_raise Sample.palette Sample.spikes_of None None
                  (Some [Sample.train0]) (Some [Sample.spike0]) true false
                  Sample.ms None empty_world)).
Defined.

(** The run over the sample store returns, and the list it reverses is
    one it has made itself. *)
Example store_run_reverses_its_own_list :
  let r := Py.signals Sample.spikes_of 2 None None None (Some 4)
             false false Sample.ms Sample.store0 in
  fst r = inr tt /\
  Py.objs Sample.store0 !! 8 = None /\
  Py.objs (snd r) !! 8 = Some (Py.Ints [1; 0]).
Proof. vm_compute. repeat split. Qed.

(** ** More about the builder *)

Lemma styles_length (cvs : list Curve) (spikes : list Spike)
    (style : Spike -> option (Color * nat)) :
  map curve_style cvs = map style spikes ->
  List.length cvs = List.length spikes.
Proof.
  intros H. apply (f_equal (@List.length _)) in H.
  now rewrite !length_map in H.
Qed.

Ltac select_out :=
  rewrite ?select_app; unfold closing_calls;
  rewrite ?select_app, ?select_cons, ?select_nil;
  cbn [signal_curve waveform_curve a_step a_budget a_window a_widget
       a_subplot an_axis_unit a_train a_finish a_legend a_layer an_item
       curve_style curve_y];
  rewrite ?app_nil_r; cbn [List.app].

Lemma mapE_Forall2 {A B} (f : A -> E B) (l : list A) (bs : list B) :
  mapE f l = inr bs -> Forall2 (fun a b => f a = inr b) l bs.
Proof.
  revert bs. induction l as [| a l IH]; simpl; intros bs H.
  - inversion H. constructor.
  - apply bindE_ok in H as (b & Hb & H).
    apply bindE_ok in H as (bs' & Hbs & H).
    inversion H; subst. constructor; auto.
Qed.

Lemma unfinished_ret {A} (a : A) : unfinished (ret a).
Proof. now intros w. Qed.

Lemma unfinished_lift {A} (e : E A) : unfinished (lift e).
Proof. now intros w. Qed.

Lemma unfinished_call (c : Call) : a_finish c = None -> unfinished (call c).
Proof.
  intros Hc w. simpl. rewrite select_app, select_cons, Hc.
  now rewrite select_nil, !app_nil_r.
Qed.

Lemma unfinished_widget : unfinished new_BaseCurveWidget.
Proof.
  intros w. simpl. rewrite select_app, select_cons. simpl.
  now rewrite app_nil_r.
Qed.

Lemma unfinished_bind {A B} (m : M A) (k : A -> M B) :
  unfinished m -> (forall a, unfinished (k a)) -> unfinished (bind m k).
Proof.
  intros Hm Hk w. specialize (Hm w). unfold bind.
  destruct (m w) as [[e | a] w1]; simpl in *; [exact Hm |].
  now rewrite Hk.
Qed.

Lemma unfinished_for_each {A} (l : list A) (body : A -> M unit) :
  (forall a, unfinished (body a)) -> unfinished (for_each l body).
Proof.
  intros Hbody. induction l as [| a l IH]; simpl.
  - apply unfinished_ret.
  - apply unfinished_bind; auto.
Qed.

Lemma unfinished_for_fold {A V} (l : list A) (v : V)
    (body : V -> A -> M V) :
  (forall v a, unfinished (body v a)) -> unfinished (for_fold l v body).
Proof.
  intros Hbody. revert v. induction l as [| a l IH]; intros v; simpl.
  - apply unfinished_ret.
  - apply unfinished_bind; auto.
Qed.

Lemma fails_unfinished_bind {A B} (m : M A) (k : A -> M B) :
  unfinished m -> (forall a, fails_unfinished (k a)) ->
  fails_unfinished (bind m k).
Proof.
  intros Hm Hk w e. specialize (Hm w). unfold bind.
  destruct (m w) as [[e' | a] w1]; simpl in *; [now intros _ |].
  intros H. now rewrite (Hk a w1 e H).
Qed.

Lemma fails_unfinished_total {A} (m : M A) :
  (forall w, exists a, fst (m w) = inr a) -> fails_unfinished m.
Proof. intros Hm w e H. destruct (Hm w) as (a & Ha). congruence. Qed.

Ltac unfinished_step :=
  first
    [ apply unfinished_ret | apply unfinished_lift | apply unfinished_widget
    | apply unfinished_call; reflexivity
    | apply unfinished_bind; [| intros ?]
    | apply unfinished_for_each; intros ?
    | apply unfinished_for_fold; intros ? ?
    | match goal with
      | |- unfinished (if ?b then _ else _) => destruct b
      end ].

Section ExtraRuns.

Variable get_object_color : PyUnit -> Color.
Variable spikes_from_spike_train : SpikeTrain -> list Spike.

Lemma spike_curve_parts (xu : TimeUnit) (c : nat) (off : Q) (s : Spike)
    (cv : Curve) :
  spike_curve get_object_color xu c off s = inr cv ->
  curve_style cv = Some (get_object_color (spike_unit s), 2) /\
  spike_x_of xu s = inr (curve_x cv) /\
  exists wf,
    waveform s = Some wf /\
    (c < wf_channels wf)%nat /\
    curve_y cv = map (fun row => (nth c row 0 + off)%Q) (wf_rows wf).
Proof.
  unfold spike_curve, column, deref. intros H.
  apply bindE_ok in H as (xs & Hxs & H).
  apply bindE_ok in H as (wf & Hwf & H).
  apply bindE_ok in H as (wave & Hwave & H).
  inversion H; subst; clear H. simpl.
  destruct (waveform s) as [wf' |]; [| discriminate].
  inversion Hwf; subst wf'.
  destruct (Nat.ltb_spec c (wf_channels wf)) as [Hc | Hc]; [| discriminate].
  inversion Hwave; subst wave.
  split; [reflexivity |]. split; [exact Hxs |].
  exists wf. repeat split; [exact Hc |].
  unfold shifted. now rewrite map_map.
Qed.


Lemma waveforms_fail (plot : nat) (good : list Spike) (bad : Spike)
    (rest : list Spike) (xu : TimeUnit) (c : nat) (off : Q)
    (cvs : list Curve) (e : exn) (w : World) :
  mapE (spike_curve get_object_color xu c off) good = inr cvs ->
  spike_curve get_object_color xu c off bad = inl e ->
  _add_spike_waveforms get_object_color plot (good ++ bad :: rest) xu c off w
  = (inl e, emit w (waveform_calls plot cvs) 0).
Proof.
  unfold _add_spike_waveforms. intros Hgood Hbad. revert cvs w Hgood.
  induction good as [| s good IH]; intros cvs w Hgood.
  - inversion Hgood; subst. simpl. unfold bind at 1, lift at 1.
    rewrite Hbad. now rewrite emit_nil.
  - simpl in Hgood. apply bindE_ok in Hgood as (cv & Hcv & Hgood).
    apply bindE_ok in Hgood as (cvs' & Hcvs & Hgood).
    inversion Hgood; subst; clear Hgood.
    cbn [List.app for_each].
    unfold bind at 1. unfold bind at 1. unfold lift at 1. rewrite Hcv.
    unfold bind at 1. unfold call at 1. unfold call at 1.
    rewrite (IH cvs' _ Hcvs). now rewrite !emit_emit.
Qed.

(** X10: when a spike has no waveform, [_add_spike_waveforms] raises
    [AttributeError] at that spike: the spikes before it have been
    drawn and ticked, the spike itself and those after it have not. *)
Theorem add_spike_waveforms_stops (plot : nat) (good : list Spike)
    (bad : Spike) (rest : list Spike) (xu : TimeUnit) (c : nat) (off : Q)
    (w : World) :
  (0 < tu_seconds xu)%Q ->
  Forall (spike_ok (S c)) good ->
  waveform bad = None ->
  let r := _add_spike_waveforms get_object_color plot
             (good ++ bad :: rest) xu c off w in
  fst r = inl AttributeError /\
  ticks (calls (snd r)) = ticks (calls w) + List.length good /\
  List.length (select waveform_curve (calls (snd r)))
  = List.length (select waveform_curve (calls w)) + List.length good.
Proof.
  intros Hu Hgood Hbad r.
  destruct (mapE_total (spike_curve get_object_color xu c off) good)
    as (cvs & Hcvs).
  { intros s Hs. rewrite List.Forall_forall in Hgood.
    apply (spike_curve_total get_object_color xu (S c));
      [assumption | auto | lia]. }
  assert (Hfail : spike_curve get_object_color xu c off bad
                  = inl AttributeError).
  { unfold spike_curve, spike_x_of. now rewrite Hbad. }
  subst r. rewrite (waveforms_fail plot good bad rest xu c off cvs _ w
                      Hcvs Hfail).
  pose proof (mapE_length _ _ _ Hcvs) as Hlen.
  assert (Hst : Forall styled cvs).
  { eapply styled_of_styles. eapply waveform_curves_style. exact Hcvs. }
  simpl. unfold ticks. rewrite !select_app, !length_app.
  rewrite select_waveform_steps, select_waveform_curves by assumption.
  rewrite !length_map, Hlen. split; [reflexivity |]. split; reflexivity.
Qed.

Lemma title_part_error (label : string)
    (field : AnalogSignal -> option NeoObject) (sigs : list AnalogSignal)
    (t : string) (e : exn) :
  title_part label field sigs t = inl e -> e = AttributeError.
Proof.
  unfold title_part, getitem, deref.
  destruct (Nat.eqb_spec
              (len_set (map (fun s => obj_key (field s)) sigs)) 1)
    as [Hone | _]; [| discriminate].
  destruct sigs as [| s0 sigs]; [discriminate |]. simpl.
  destruct (field s0) as [o |]; simpl.
  - destruct (name_truthy (obj_name o)); discriminate.
  - intros H. now inversion H.
Qed.

Lemma title_part_unattached (label : string)
    (field : AnalogSignal -> option NeoObject) (sigs : list AnalogSignal)
    (t : string) :
  sigs <> [] -> (forall s, In s sigs -> field s = None) ->
  title_part label field sigs t = inl AttributeError.
Proof.
  intros Hne Hall. unfold title_part, getitem, deref.
  assert (Hone : len_set (map (fun s => obj_key (field s)) sigs) = 1).
  { apply len_set_1. exists None. split.
    - destruct sigs; [contradiction | discriminate].
    - intros k Hk. apply in_map_iff in Hk as (s & <- & Hs).
      now rewrite (Hall s Hs). }
  rewrite Hone. simpl.
  destruct sigs as [| s0 sigs]; [contradiction |]. simpl.
  now rewrite (Hall s0) by now left.
Qed.

Lemma signals_title_error (s0 : AnalogSignal) (sigs : list AnalogSignal)
    (events : option (list Event)) (epochs : option (list Epoch))
    (trains : option (list SpikeTrain)) (spikes : option (list Spike))
    (stw us : bool) (tu : TimeUnit) (yu : option string) (w : World)
    (e : exn) :
  make_title (s0 :: sigs) = inl e ->
  signals get_object_color spikes_from_spike_train (s0 :: sigs) events
    epochs trains spikes stw us tu yu w = (inl e, w).
Proof.
  intros H. unfold signals. unfold bind at 1, lift at 1. now rewrite H.
Qed.

Lemma signals_fails_unfinished (sigs : list AnalogSignal)
    (events : option (list Event)) (epochs : option (list Epoch))
    (trains : option (list SpikeTrain)) (spikes : option (list Spike))
    (stw us : bool) (tu : TimeUnit) (yu : option string) :
  fails_unfinished
    (signals get_object_color spikes_from_spike_train sigs events epochs
       trains spikes stw us tu yu).
Proof.
  destruct sigs as [| s0 sigs].
  - intros w e _. reflexivity.
  - unfold signals, _add_spike_waveforms, draw_trains, subplot_body,
      stacked_body, _add_spike_waveforms.
    do 4 (apply fails_unfinished_bind; [repeat unfinished_step | intros ?]).
    apply fails_unfinished_bind.
    + repeat unfinished_step.
    + intros _. apply fails_unfinished_total. intros w.
      destruct us; eexists; reflexivity.
Qed.

Lemma waveform_curves_overlay (xu : TimeUnit) (c : nat) (off : Q)
    (spikes : list Spike) (cvs : list Curve) :
  waveform_curves get_object_color xu c off spikes = inr cvs ->
  Forall2 (overlay_of c off) spikes cvs.
Proof.
  unfold waveform_curves. intros H. apply mapE_Forall2 in H.
  induction H as [| s cv spikes cvs Hcv _ IH]; constructor; [| exact IH].
  apply spike_curve_parts in Hcv as (_ & _ & wf & Hwf & _ & Hy).
  exists wf. auto.
Qed.

Lemma make_row_drawn (sigs : list AnalogSignal)
    (spikes draw_spikes : list Spike) (xu : TimeUnit) (off : Q) (c : nat)
    (r : Row) :
  make_row get_object_color sigs spikes draw_spikes xu off c = inr r ->
  row_channel r = c /\ row_offset r = off /\
  row_drawn sigs spikes draw_spikes r.
Proof.
  unfold make_row, getitem, row_drawn. intros H.
  apply bindE_ok in H as (sc & Hsc & H).
  apply bindE_ok in H as (cvs & Hcvs & H).
  apply bindE_ok in H as (dcvs & Hdcvs & H).
  inversion H; subst; clear H. simpl.
  destruct (nth_error sigs c) as [sc' |]; [| discriminate].
  inversion Hsc; subst.
  split; [reflexivity |]. split; [reflexivity |]. split; [reflexivity |].
  split; eapply waveform_curves_overlay; eassumption.
Qed.

Lemma split_rows_drawn (sigs : list AnalogSignal)
    (spikes draw_spikes : list Spike) (xu : TimeUnit) (off : Q)
    (cs : list nat) (rows : list Row) :
  mapE (make_row get_object_color sigs spikes draw_spikes xu off) cs
  = inr rows ->
  map row_channel rows = cs /\
  Forall (fun r => row_offset r = off) rows /\
  Forall (row_drawn sigs spikes draw_spikes) rows.
Proof.
  revert rows. induction cs as [| c cs IH]; simpl; intros rows H.
  - inversion H. repeat split; constructor.
  - apply bindE_ok in H as (r & Hr & H).
    apply bindE_ok in H as (rows' & Hrows & H).
    inversion H; subst; clear H.
    apply make_row_drawn in Hr as (Hc & Ho & Hd).
    destruct (IH _ Hrows) as (IH1 & IH2 & IH3).
    simpl. repeat split; [congruence | |]; constructor; assumption.
Qed.

Lemma stacked_rows_drawn (sigs : list AnalogSignal)
    (spikes draw_spikes : list Spike) (xu : TimeUnit) (mo off : Q)
    (cs : list nat) (rows : list Row) :
  stacked_rows get_object_color sigs spikes draw_spikes xu mo off cs
  = inr rows ->
  map row_channel rows = cs /\
  Forall (row_drawn sigs spikes draw_spikes) rows.
Proof.
  revert off rows. induction cs as [| c cs IH]; simpl; intros off rows H.
  - inversion H. repeat split; constructor.
  - apply bindE_ok in H as (r & Hr & H).
    apply bindE_ok in H as (rows' & Hrows & H).
    inversion H; subst; clear H.
    apply make_row_drawn in Hr as (Hc & Ho & Hd).
    destruct (IH _ _ Hrows) as (IH1 & IH2).
    simpl. split; [congruence |]. constructor; assumption.
Qed.

Lemma select_waveform_items (p : nat) (cvs : list Curve) :
  select an_item (waveform_calls p cvs) = map (pair p) cvs.
Proof.
  unfold waveform_calls. rewrite select_flat_map.
  now rewrite <- flat_map_single.
Qed.

Lemma subplots_items (ev : list Event) (ep : list Epoch)
    (tr : list SpikeTrain) (stw : bool) (x : list Q) (xu : TimeUnit)
    (rows : list Row) (p : nat) :
  select an_item
    (subplots_calls get_object_color ev ep tr stw x xu p rows)
  = flat_map (fun pr =>
                (fst pr, mkCurve x (sig_samples (row_signal (snd pr))) None)
                :: map (pair (fst pr))
                     (row_spikes (snd pr) ++ row_draw_spikes (snd pr)))
      (combine (seq p (List.length rows)) rows).
Proof.
  revert p. induction rows as [| r rows IH]; intros p; [reflexivity |].
  cbn [subplots_calls List.length seq combine flat_map].
  rewrite select_app, IH. f_equal.
  unfold subplot_calls. rewrite !select_app, !select_waveform_items.
  rewrite (select_train_if_none get_object_color tr xu an_item)
    by reflexivity.
  cbn [fst snd select flat_map an_item app].
  now rewrite map_app, app_nil_r.
Qed.

Lemma stacked_items (x : list Q) (p : nat) (rows : list Row) :
  select an_item (stacked_calls x p rows)
  = flat_map (fun r =>
                (p, mkCurve x (shifted (sig_samples (row_signal r))
                                 (row_offset r)) None)
                :: map (pair p) (row_spikes r ++ row_draw_spikes r))
      rows.
Proof.
  unfold stacked_calls.
  induction rows as [| r rows IH]; [reflexivity |].
  cbn [flat_map]. rewrite select_app, IH. f_equal.
  rewrite !select_app, !select_waveform_items, map_app.
  cbn [select flat_map an_item app]. now rewrite app_nil_r.
Qed.

End ExtraRuns.

Section Extras.

Variable get_object_color : PyUnit -> Color.
Variable spikes_from_spike_train : SpikeTrain -> list Spike.

Local Abbreviation signals :=
  (signals get_object_color spikes_from_spike_train).
Local Abbreviation draw_spikes_of :=
  (draw_spikes_of spikes_from_spike_train).

Lemma row_tick_sum (rows : list Row) (spikes draw_spikes : list Spike) :
  Forall (fun r =>
            map curve_style (row_spikes r)
            = map (spike_style get_object_color) spikes /\
            map curve_style (row_draw_spikes r)
            = map (spike_style get_object_color) draw_spikes) rows ->
  list_sum (map (fun r => List.length (row_spikes r)
                          + List.length (row_draw_spikes r) + 1) rows)
  = (List.length draw_spikes + List.length spikes + 1) * List.length rows.
Proof.
  induction 1 as [| r rows [H1 H2] _ IH]; [simpl; lia |].
  apply styles_length in H1, H2. simpl.
  rewrite IH, H1, H2, Nat.mul_succ_r. lia.
Qed.

(** X2: in a run that returns the tick budget is set once, and the
    number of ticks consumed by [progress.step()] is exactly that
    budget. *)
Theorem budget_is_consumed (sigs : list AnalogSignal)
    (events : option (list Event)) (epochs : option (list Epoch))
    (trains : option (list SpikeTrain)) (spikes : option (list Spike))
    (stw us : bool) (tu : TimeUnit) (yu : option string) (w w' : World) :
  signals sigs events epochs trains spikes stw us tu yu w = (inr tt, w') ->
  exists budget,
    select a_budget (calls w') = select a_budget (calls w) ++ [budget] /\
    ticks (calls w') = ticks (calls w) + budget.
Proof.
  intros H. eexists. destruct us.
  - apply split_run in H
      as (title & x & rows & plot & _ & _ & Hlen & _ & _ & Hst & Hstyles
          & _ & Hcalls).
    rewrite Hcalls. unfold ticks. split.
    + select_out.
      rewrite (select_inner_none a_budget (subplots_calls _ _ _ _ _ _ _ _ _))
        by (try apply subplots_inner; now intros []).
      reflexivity.
    + select_out. rewrite !length_app.
      fold (ticks (subplots_calls get_object_color (or_default events)
                     (or_default epochs) (or_default trains) stw x tu
                     (widgets w) rows)).
      rewrite subplots_ticks, (row_tick_sum _ _ _ Hstyles), Hlen.
      simpl. lia.
  - apply stacked_run_calls in H
      as (title & x & mo & off & rows & s0 & _ & _ & _ & _ & _ & Hlen & _
          & _ & Hst & Hstyles & _ & Hcalls).
    rewrite Hcalls. unfold ticks. split.
    + select_out.
      rewrite (select_inner_none a_budget (stacked_calls _ _ _))
        by (try apply stacked_inner; now intros []).
      rewrite select_train_if_none by reflexivity.
      reflexivity.
    + select_out. rewrite !length_app.
      rewrite !select_train_if_none by reflexivity.
      fold (ticks (stacked_calls x (widgets w) rows)).
      rewrite stacked_ticks, (row_tick_sum _ _ _ Hstyles), Hlen.
      simpl. lia.
Qed.

Lemma stacked_calls_items (x : list Q) (p : nat) (rows : list Row)
    (c : Call) :
  In c (stacked_calls x p rows) ->
  c = progress_step \/ exists cv, c = add_item p cv.
Proof.
  unfold stacked_calls, waveform_calls. intros H.
  apply in_flat_map in H as (r & _ & H).
  repeat first
    [ apply in_app_or in H as [H | H]
    | apply in_flat_map in H as (? & _ & H)
    | destruct H as [H | H]
    | solve [destruct H] ];
    subst c; eauto.
Qed.

Lemma select_stacked_none {X} (f : Call -> option X) (x : list Q)
    (p : nat) (rows : list Row) :
  f progress_step = None -> (forall cv, f (add_item p cv) = None) ->
  select f (stacked_calls x p rows) = [].
Proof.
  intros Hs Hi. apply select_none. intros c Hc.
  apply stacked_calls_items in Hc as [-> | (cv & ->)]; auto.
Qed.

Lemma finish_none_inside (c : Call) : inner_call c -> a_finish c = None.
Proof. now destruct c. Qed.

(** X4: a run that returns ends with the curve tools being enabled,
    [progress.done()], the legend, [win.show()] and, with subplots
    only, the synchronization options: for the x axis switched on, for
    the y axis switched off, both over all channels.  None of the
    finishing calls is made before. *)
Theorem finishing_calls (sigs : list AnalogSignal)
    (events : option (list Event)) (epochs : option (list Epoch))
    (trains : option (list SpikeTrain)) (spikes : option (list Spike))
    (stw us : bool) (tu : TimeUnit) (yu : option string) (w w' : World) :
  signals sigs events epochs trains spikes stw us tu yu w = (inr tt, w') ->
  exists body units,
    calls w'
    = calls w ++ body
      ++ [add_custom_curve_tools false;
          progress_done;
          make_window_legend units false;
          win_show]
      ++ (if us
          then [add_x_synchronization_option true
                  (seq 0 (List.length sigs));
                add_y_synchronization_option false
                  (seq 0 (List.length sigs))]
          else []) /\
    select a_finish body = [].
Proof.
  intros H. apply signals_returns in H as (out & k & H & Hcalls & _).
  apply signals_calls_inv in H
    as (title & x & main & _ & _ & _ & Hmain & ->).
  assert (Hsel : select a_finish main = []).
  { eapply select_branch_outer; [| | | exact Hmain];
      [apply finish_none_inside | easy | easy]. }
  eexists (_ :: _ :: main), _. split.
  - rewrite Hcalls. reflexivity.
  - now rewrite !select_cons, Hsel.
Qed.

(** X6: the legend of a run that returns is made once, for the set of
    the units of the spike trains and of the spikes: every such unit
    occurs in it, once, and nothing else does. *)
Theorem legend_units (sigs : list AnalogSignal)
    (events : option (list Event)) (epochs : option (list Epoch))
    (trains : option (list SpikeTrain)) (spikes : option (list Spike))
    (stw us : bool) (tu : TimeUnit) (yu : option string) (w w' : World) :
  signals sigs events epochs trains spikes stw us tu yu w = (inr tt, w') ->
  exists units,
    select a_legend (calls w')
    = select a_legend (calls w) ++ [(units, false)] /\
    List.NoDup units /\
    forall u,
      In u units <->
      (exists t, In t (or_default trains) /\ train_unit t = u) \/
      (exists s, In s (or_default spikes) /\ spike_unit s = u).
Proof.
  intros H. apply signals_returns in H as (out & k & H & Hcalls & _).
  apply signals_calls_inv in H
    as (title & x & main & _ & _ & _ & Hmain & ->).
  assert (Hsel : select a_legend main = []).
  { eapply select_branch_outer; [| | | exact Hmain];
      [now intros [] | easy | easy]. }
  eexists. split; [| split].
  - rewrite Hcalls. rewrite !select_app, Hsel. now destruct us.
  - apply NoDup_nodup.
  - intros u. rewrite nodup_In, in_app_iff, !in_map_iff.
    split; intros [(a & Ha & Hin) | (a & Ha & Hin)]; eauto.
Qed.

(** X5: a stacked run that returns constructs one curve widget, adds
    it to the window at position 0 and gives its y axis the unit
    string of the first signal of the list, whichever channel is drawn
    first. *)
Theorem stacked_mode_plot (sigs : list AnalogSignal)
    (events : option (list Event)) (epochs : option (list Epoch))
    (trains : option (list SpikeTrain)) (spikes : option (list Spike))
    (stw : bool) (tu : TimeUnit) (yu : option string) (w w' : World) :
  signals sigs events epochs trains spikes stw false tu yu w = (inr tt, w') ->
  exists s0,
    hd_error sigs = Some s0 /\
    widgets w' = widgets w + 1 /\
    select a_widget (calls w') = select a_widget (calls w) ++ [widgets w] /\
    select a_subplot (calls w')
    = select a_subplot (calls w) ++ [(widgets w, 0)] /\
    select (an_axis_unit Y_LEFT) (calls w')
    = select (an_axis_unit Y_LEFT) (calls w)
      ++ [(widgets w, sig_units s0)].
Proof.
  intros H. apply stacked_run_calls in H
    as (title & x & mo & off & rows & s0 & _ & _ & _ & _ & Hs0 & _ & _ & _
        & _ & _ & Hw & Hcalls).
  exists s0. split; [exact Hs0 |]. split; [exact Hw |].
  rewrite Hcalls. repeat split; select_out;
    rewrite select_stacked_none by reflexivity;
    rewrite select_train_if_none by reflexivity;
    reflexivity.
Qed.

Lemma subplots_layers (ev : list Event) (ep : list Epoch)
    (tr : list SpikeTrain) (stw : bool) (x : list Q) (xu : TimeUnit)
    (rows : list Row) (p : nat) :
  Forall row_styled rows ->
  select a_layer
    (subplots_calls get_object_color ev ep tr stw x xu p rows)
  = flat_map (fun ps =>
                [(fst ps, Epochs ep xu);
                 (fst ps, Trace (sig_samples (snd ps)));
                 (fst ps, Events ev xu)])
      (combine (seq p (List.length rows)) (map row_signal rows)).
Proof.
  intros Hrows. revert p.
  induction Hrows as [| r rows [H1 H2] _ IH]; intros p; [reflexivity |].
  cbn [subplots_calls List.length seq map combine flat_map].
  rewrite select_app, IH. f_equal.
  unfold subplot_calls. rewrite !select_app.
  rewrite !(select_waveform_none a_layer).
  - rewrite select_train_if_none by reflexivity. reflexivity.
  - intros cv Hcv. rewrite List.Forall_forall in H2.
    specialize (H2 cv Hcv). unfold styled in H2. simpl.
    now destruct (curve_style cv).
  - reflexivity.
  - intros cv Hcv. rewrite List.Forall_forall in H1.
    specialize (H1 cv Hcv). unfold styled in H1. simpl.
    now destruct (curve_style cv).
  - reflexivity.
Qed.

Lemma stacked_layers (x : list Q) (p : nat) (rows : list Row) :
  Forall row_styled rows ->
  select a_layer (stacked_calls x p rows)
  = map (fun r =>
           (p, Trace (shifted (sig_samples (row_signal r)) (row_offset r))))
      rows.
Proof.
  unfold stacked_calls.
  induction 1 as [| r rows [H1 H2] _ IH]; [reflexivity |].
  cbn [flat_map map]. rewrite select_app, IH. f_equal.
  rewrite !select_app, !(select_waveform_none a_layer).
  - reflexivity.
  - intros cv Hcv. rewrite List.Forall_forall in H2.
    specialize (H2 cv Hcv). unfold styled in H2. simpl.
    now destruct (curve_style cv).
  - reflexivity.
  - intros cv Hcv. rewrite List.Forall_forall in H1.
    specialize (H1 cv Hcv). unfold styled in H1. simpl.
    now destruct (curve_style cv).
  - reflexivity.
Qed.

(** X7: in a run that returns, epochs, traces and events come in this
    order on every plot, all in the time unit of the x axis, with empty
    collections where none were given: with subplots each plot gets the
    epochs, then the samples of its signal as they are, then the
    events; stacked, the one plot gets the epochs, then one trace per
    signal, then the events. *)
Theorem plot_layers (sigs : list AnalogSignal)
    (events : option (list Event)) (epochs : option (list Epoch))
    (trains : option (list SpikeTrain)) (spikes : option (list Spike))
    (stw us : bool) (tu : TimeUnit) (yu : option string) (w w' : World) :
  signals sigs events epochs trains spikes stw us tu yu w = (inr tt, w') ->
  let ep := Epochs (or_default epochs) tu in
  let ev := Events (or_default events) tu in
  if us
  then
    select a_layer (calls w')
    = select a_layer (calls w)
      ++ flat_map (fun ps =>
                     [(fst ps, ep);
                      (fst ps, Trace (sig_samples (snd ps)));
                      (fst ps, ev)])
           (combine (seq (widgets w) (List.length sigs)) sigs)
  else
    exists traces,
      List.length traces = List.length sigs /\
      select a_layer (calls w')
      = select a_layer (calls w)
        ++ [(widgets w, ep)]
        ++ map (fun y => (widgets w, Trace y)) traces
        ++ [(widgets w, ev)].
Proof.
  intros H ep ev. destruct us.
  - apply split_run in H
      as (title & x & rows & plot & _ & _ & Hlen & _ & Hsig & Hst & _
          & _ & Hcalls).
    rewrite Hcalls. select_out.
    rewrite subplots_layers by assumption.
    now rewrite Hsig, Hlen.
  - apply stacked_run_calls in H
      as (title & x & mo & off & rows & s0 & _ & _ & _ & _ & _ & Hlen & _
          & _ & Hst & _ & _ & Hcalls).
    exists (map (fun r => shifted (sig_samples (row_signal r))
                            (row_offset r)) rows).
    split; [now rewrite length_map |].
    rewrite Hcalls. select_out.
    rewrite stacked_layers by assumption.
    rewrite select_train_if_none by reflexivity.
    now rewrite map_map.
Qed.

Lemma subplots_trains (ev : list Event) (ep : list Epoch)
    (tr : list SpikeTrain) (stw : bool) (x : list Q) (xu : TimeUnit)
    (rows : list Row) (p : nat) :
  select a_train
    (subplots_calls get_object_color ev ep tr stw x xu p rows)
  = flat_map (fun q =>
                if stw then []
                else map (fun t => (q, t, get_object_color (train_unit t)))
                       tr)
      (seq p (List.length rows)).
Proof.
  revert p. induction rows as [| r rows IH]; intros p; [reflexivity |].
  cbn [subplots_calls List.length seq flat_map].
  now rewrite select_app, IH, subplot_trains.
Qed.

(** X8: with spike train waveforms switched off, a run that returns
    draws every spike train as vertical lines in the color of its
    unit, with subplots on every plot and stacked once on the one
    plot; with them switched on no spike train is drawn as lines. *)
Theorem spike_train_lines (sigs : list AnalogSignal)
    (events : option (list Event)) (epochs : option (list Epoch))
    (trains : option (list SpikeTrain)) (spikes : option (list Spike))
    (stw us : bool) (tu : TimeUnit) (yu : option string) (w w' : World) :
  signals sigs events epochs trains spikes stw us tu yu w = (inr tt, w') ->
  select a_train (calls w')
  = select a_train (calls w)
    ++ flat_map
         (fun plot =>
            if stw then []
            else map (fun t => (plot, t, get_object_color (train_unit t)))
                   (or_default trains))
         (if us then seq (widgets w) (List.length sigs) else [widgets w]).
Proof.
  intros H. destruct us.
  - apply split_run in H
      as (title & x & rows & plot & _ & _ & Hlen & _ & _ & _ & _ & _
          & Hcalls).
    rewrite Hcalls. select_out. now rewrite subplots_trains, Hlen.
  - apply stacked_run_calls in H
      as (title & x & mo & off & rows & s0 & _ & _ & _ & _ & _ & _ & _
          & _ & _ & _ & _ & Hcalls).
    rewrite Hcalls. select_out.
    rewrite select_stacked_none by (intros; reflexivity).
    cbn [flat_map]. rewrite app_nil_r.
    destruct stw; cbn [negb]; [reflexivity |].
    now rewrite select_trains.
Qed.

(** X11: when no signal of a non-empty list has a recording channel,
    or none has a segment, the builder raises [AttributeError] while it
    puts the title together, before anything is created. *)
Theorem unattached_signals_raise (sigs : list AnalogSignal)
    (events : option (list Event)) (epochs : option (list Epoch))
    (trains : option (list SpikeTrain)) (spikes : option (list Spike))
    (stw us : bool) (tu : TimeUnit) (yu : option string) (w : World) :
  sigs <> [] ->
  (forall s, In s sigs -> recordingchannel s = None) \/
  (forall s, In s sigs -> segment s = None) ->
  signals sigs events epochs trains spikes stw us tu yu w
  = (inl AttributeError, w).
Proof.
  intros Hne Hnone.
  assert (Htitle : make_title sigs = inl AttributeError).
  { unfold make_title. destruct Hnone as [Hrc | Hseg].
    - now rewrite title_part_unattached.
    - destruct (title_part " | Recording Channel: " recordingchannel sigs
                  "Analog Signal") as [e | t] eqn:Hfirst; simpl.
      + apply title_part_error in Hfirst. now subst e.
      + now apply title_part_unattached. }
  destruct sigs as [| s0 sigs]; [contradiction |].
  now apply signals_title_error.
Qed.

(** X3: when the builder raises, none of the finishing calls has been
    made: the progress is not done, there is no legend, the window has
    not been shown and no synchronization option is registered. *)
Theorem failed_run_unfinished (sigs : list AnalogSignal)
    (events : option (list Event)) (epochs : option (list Epoch))
    (trains : option (list SpikeTrain)) (spikes : option (list Spike))
    (stw us : bool) (tu : TimeUnit) (yu : option string) (w : World)
    (e : exn) :
  fst (signals sigs events epochs trains spikes stw us tu yu w) = inl e ->
  select a_finish
    (calls (snd (signals sigs events epochs trains spikes stw us tu yu w)))
  = select a_finish (calls w).
Proof. apply signals_fails_unfinished. Qed.


(** The traces of a stacked run that returns. *)
Lemma stacked_traces (sigs : list AnalogSignal)
    (events : option (list Event)) (epochs : option (list Epoch))
    (trains : option (list SpikeTrain)) (spikes : option (list Spike))
    (stw : bool) (tu : TimeUnit) (yu : option string) (w w' : World) :
  signals sigs events epochs trains spikes stw false tu yu w = (inr tt, w') ->
  exists x mo off first others rows,
    rev sigs = first :: others /\
    scan_offsets 0 first others = inr mo /\
    (exists lo, IsMin (sig_samples first) lo /\ off = (0 - lo)%Q) /\
    map row_signal rows = rev sigs /\
    map row_offset rows = offsets_from mo off (List.length sigs) /\
    select signal_curve (calls w')
    = select signal_curve (calls w)
      ++ map (fun r =>
                (widgets w,
                 mkCurve x (shifted (sig_samples (row_signal r))
                              (row_offset r)) None)) rows.
Proof.
  intros H. apply stacked_run_calls in H
    as (title & x & mo & off & rows & s0 & _ & _ & Hmo & Hoff & Hs0 & Hlen
        & Hsig & Hoffs & Hst & _ & _ & Hcalls).
  destruct (rev sigs) as [| first others] eqn:Hrev.
  { destruct sigs as [| s sigs']; [discriminate |].
    apply (f_equal (@List.length _)) in Hrev.
    rewrite length_rev in Hrev. discriminate. }
  rewrite (find_max_offset_scan _ _ _ Hrev) in Hmo.
  rewrite (first_offset_value _ _ _ _ Hrev) in Hoff.
  apply bindE_ok in Hoff as (lo & Hlo & Hoff).
  inversion Hoff; subst off; clear Hoff.
  apply array_min_spec in Hlo.
  exists x, mo, (0 - lo)%Q, first, others, rows.
  repeat split; try assumption; [eauto |].
  rewrite Hcalls. select_out.
  rewrite stacked_signal_curves by assumption.
  rewrite select_train_if_none by reflexivity.
  now rewrite ?app_nil_r.
Qed.

Lemma in_shifted (a : list Q) (off v : Q) :
  In v (shifted a off) -> exists u, In u a /\ v = (u + off)%Q.
Proof.
  unfold shifted. intros H. apply in_map_iff in H as (u & <- & Hu). eauto.
Qed.


(** X13: when the signals carry one unit, the lowest value of the
    first trace of a stacked run that returns is zero: no value of
    that trace is negative, and one of them is zero. *)
Theorem stacked_first_trace_at_zero (sigs : list AnalogSignal)
    (events : option (list Event)) (epochs : option (list Epoch))
    (trains : option (list SpikeTrain)) (spikes : option (list Spike))
    (stw : bool) (tu : TimeUnit) (yu : option string) (w w' : World) :
  same_units sigs ->
  signals sigs events epochs trains spikes stw false tu yu w = (inr tt, w') ->
  exists first curves,
    select signal_curve (calls w')
    = select signal_curve (calls w) ++ first :: curves /\
    (forall a, In a (curve_y (snd first)) -> (0 <= a)%Q) /\
    (exists a, In a (curve_y (snd first)) /\ (a == 0)%Q).
Proof.
  intros _ H. apply stacked_traces in H
    as (x & mo & off & first & others & rows & Hrev & _ & (lo & Hlo & ->)
        & Hsig & Hoffs & Hcurves).
  destruct rows as [| r rows].
  { rewrite Hrev in Hsig. discriminate. }
  assert (Hr : row_signal r = first)
    by (rewrite Hrev in Hsig; now inversion Hsig).
  assert (Ho : row_offset r = (0 - lo)%Q).
  { destruct sigs as [| s sigs']; [discriminate |].
    simpl in Hoffs. now inversion Hoffs. }
  eexists _, _. split; [exact Hcurves |]. simpl. rewrite Hr, Ho.
  destruct Hlo as [Hin Hmin]. split.
  - intros a Ha. apply in_shifted in Ha as (v & Hv & ->).
    specialize (Hmin v Hv). lra.
  - exists (lo + (0 - lo))%Q. split; [| lra].
    unfold shifted. apply in_map_iff. eauto.
Qed.

(** X14: with subplots, a run that returns puts on the plot of channel
    [c] the samples of [signals[c]] and then, for the spikes and for
    the spikes drawn besides them, channel [c] of their waveforms, not
    moved (the offset is zero), and no other curve. *)
Theorem split_mode_overlays (sigs : list AnalogSignal)
    (events : option (list Event)) (epochs : option (list Epoch))
    (trains : option (list SpikeTrain)) (spikes : option (list Spike))
    (stw : bool) (tu : TimeUnit) (yu : option string) (w w' : World) :
  signals sigs events epochs trains spikes stw true tu yu w = (inr tt, w') ->
  exists x rows,
    map row_channel rows = seq 0 (List.length sigs) /\
    Forall (fun r => row_offset r = 0%Q) rows /\
    Forall (row_drawn sigs (or_default spikes)
              (draw_spikes_of trains spikes stw)) rows /\
    select an_item (calls w')
    = select an_item (calls w)
      ++ flat_map
           (fun pr =>
              (fst pr, mkCurve x (sig_samples (row_signal (snd pr))) None)
              :: map (pair (fst pr))
                   (row_spikes (snd pr) ++ row_draw_spikes (snd pr)))
           (combine (seq (widgets w) (List.length sigs)) rows).
Proof.
  intros H. apply signals_returns in H as (out & k & H & Hcalls & _).
  apply signals_calls_inv in H
    as (title & x & main & _ & _ & _ & Hmain & ->).
  apply branch_split_inv in Hmain as (rows & plot & Hrows & _ & _ & ->).
  pose proof (mapE_length _ _ _ Hrows) as Hlen. rewrite length_seq in Hlen.
  apply split_rows_drawn in Hrows as (Hch & Hoff & Hdrawn).
  exists x, rows. repeat split; try assumption.
  rewrite Hcalls. select_out. now rewrite subplots_items, Hlen.
Qed.

(** X15: stacked, when the signals and the waveforms of the spikes
    carry one unit, a run that returns draws the channels last to
    first; for each it puts the samples of the signal plus the offset
    of the channel on the plot and then, for the spikes and for the
    spikes drawn besides them, that channel of their waveforms plus
    the same offset, and no other curve. *)
Theorem stacked_mode_overlays (sigs : list AnalogSignal)
    (events : option (list Event)) (epochs : option (list Epoch))
    (trains : option (list SpikeTrain)) (spikes : option (list Spike))
    (stw : bool) (tu : TimeUnit) (yu : option string) (w w' : World) :
  common_unit sigs (or_default spikes ++ draw_spikes_of trains spikes stw) ->
  signals sigs events epochs trains spikes stw false tu yu w = (inr tt, w') ->
  exists x rows,
    map row_channel rows = rev (seq 0 (List.length sigs)) /\
    Forall (row_drawn sigs (or_default spikes)
              (draw_spikes_of trains spikes stw)) rows /\
    select an_item (calls w')
    = select an_item (calls w)
      ++ flat_map
           (fun r =>
              (widgets w,
               mkCurve x (shifted (sig_samples (row_signal r))
                            (row_offset r)) None)
              :: map (pair (widgets w))
                   (row_spikes r ++ row_draw_spikes r))
           rows.
Proof.
  intros _ H. apply signals_returns in H as (out & k & H & Hcalls & _).
  apply signals_calls_inv in H
    as (title & x & main & _ & _ & _ & Hmain & ->).
  apply branch_stacked_inv in Hmain
    as (mo & off & rows & s0 & _ & _ & Hrows & _ & _ & ->).
  apply stacked_rows_drawn in Hrows as (Hch & Hdrawn).
  exists x, rows. repeat split; try assumption.
  rewrite Hcalls. select_out. rewrite stacked_items.
  rewrite (select_train_if_none get_object_color (or_default trains) tu
             an_item) by reflexivity.
  now rewrite ?app_nil_r.
Qed.

End Extras.

(** ** The further properties at the sample data *)

Lemma signals_returns_witness :
  exists w',
    signals Sample.palette Sample.spikes_of
      [Sample.high; Sample.base] None None
      (Some [Sample.train0]) (Some [Sample.spike0; Sample.spike1])
      true false Sample.ms None empty_world = (inr tt, w').
Proof.
  apply signals_returns_when_well_formed.
  split; [| split; [| split]].
  - exists Sample.high.
    split; [reflexivity |]. split; [discriminate |].
    split; [discriminate |]. split; [reflexivity |].
    simpl.
    repeat (constructor;
            [intros wf Hwf; inversion Hwf; reflexivity |]).
    constructor.
  - reflexivity.
  - simpl.
    repeat (constructor;
            [eexists; split; [reflexivity |];
             split; [reflexivity | simpl; lia] |]).
    constructor.
  - intros _. split.
    + exists "mV". repeat constructor.
    + repeat (constructor; [discriminate |]). constructor.
Defined.

Lemma budget_is_consumed_witness :
  let w' := snd (signals Sample.palette Sample.spikes_of
                   [Sample.high; Sample.low] None None
                   (Some [Sample.train0]) (Some [Sample.spike0])
                   false true Sample.ms None empty_world) in
  exists budget,
    select a_budget (calls w')
    = select a_budget (calls empty_world) ++ [budget] /\
    ticks (calls w') = ticks (calls empty_world) + budget.
Proof.
  intros w'.
  assert (H : signals Sample.palette Sample.spikes_of
                   [Sample.high; Sample.low] None None
                   (Some [Sample.train0]) (Some [Sample.spike0])
                   false true Sample.ms None empty_world = (inr tt, w'))
    by (vm_compute; reflexivity).
  exact (budget_is_consumed _ _ _ _ _ _ _ _ _ _ _ _ _ H).
Defined.

Lemma failed_run_unfinished_witness :
  let r := signals Sample.palette Sample.spikes_of
             [Sample.high; Sample.low] None None None
             (Some [Sample.spike0; Faulty.bare])
             true true Sample.ms None empty_world in
  fst r = inl AttributeError /\
  select a_finish (calls (snd r)) = select a_finish (calls empty_world).
Proof.
  intros r.
  assert (H : fst r = inl AttributeError) by (vm_compute; reflexivity).
  split; [exact H |].
  exact (failed_run_unfinished _ _ _ _ _ _ _ _ _ _ _ _ _ H).
Defined.

Lemma finishing_calls_witness :
  let w' := snd (signals Sample.palette Sample.spikes_of
                   [Sample.high; Sample.low] None None
                   (Some [Sample.train0]) (Some [Sample.spike0])
                   false true Sample.ms None empty_world) in
  exists body units,
    calls w'
    = calls empty_world ++ body
      ++ [add_custom_curve_tools false;
          progress_done;
          make_window_legend units false;
          win_show]
      ++ [add_x_synchronization_option true [0; 1];
          add_y_synchronization_option false [0; 1]] /\
    select a_finish body = [].
Proof.
  intros w'.
  assert (H : signals Sample.palette Sample.spikes_of
                   [Sample.high; Sample.low] None None
                   (Some [Sample.train0]) (Some [Sample.spike0])
                   false true Sample.ms None empty_world = (inr tt, w'))
    by (vm_compute; reflexivity).
  exact (finishing_calls _ _ _ _ _ _ _ _ _ _ _ _ _ H).
Defined.

Lemma stacked_mode_plot_witness :
  let w' := snd (signals Sample.palette Sample.spikes_of
                   [Sample.low; Sample.high] None None
                   (Some [Sample.train0; Sample.train1])
                   (Some [Sample.spike0; Sample.spike1])
                   true false Sample.ms None empty_world) in
  select a_subplot (calls w')
  = select a_subplot (calls empty_world) ++ [(0, 0)] /\
  select (an_axis_unit Y_LEFT) (calls w')
  = select (an_axis_unit Y_LEFT) (calls empty_world) ++ [(0, "uV")].
Proof.
  intros w'.
  assert (H : signals Sample.palette Sample.spikes_of
                   [Sample.low; Sample.high] None None
                   (Some [Sample.train0; Sample.train1])
                   (Some [Sample.spike0; Sample.spike1])
                   true false Sample.ms None empty_world = (inr tt, w'))
    by (vm_compute; reflexivity).
  destruct (stacked_mode_plot _ _ _ _ _ _ _ _ _ _ _ _ H)
    as (s0 & Hs0 & _ & _ & Hsub & Hy).
  inversion Hs0; subst s0. split; [exact Hsub | exact Hy].
Defined.

Lemma legend_units_witness :
  let w' := snd (signals Sample.palette Sample.spikes_of
                   [Sample.low; Sample.high] None None
                   (Some [Sample.train0; Sample.train1])
                   (Some [Sample.spike0; Sample.spike1])
                   true false Sample.ms None empty_world) in
  exists units,
    select a_legend (calls w')
    = select a_legend (calls empty_world) ++ [(units, false)] /\
    List.NoDup units /\
    In (Some 1) units.
Proof.
  intros w'.
  assert (H : signals Sample.palette Sample.spikes_of
                   [Sample.low; Sample.high] None None
                   (Some [Sample.train0; Sample.train1])
                   (Some [Sample.spike0; Sample.spike1])
                   true false Sample.ms None empty_world = (inr tt, w'))
    by (vm_compute; reflexivity).
  destruct (legend_units _ _ _ _ _ _ _ _ _ _ _ _ _ H)
    as (units & Hl & Hnd & Hin).
  exists units. split; [exact Hl |]. split; [exact Hnd |].
  apply Hin. left. exists Sample.train1.
  split; [right; left; reflexivity | reflexivity].
Defined.

Lemma plot_layers_witness :
  let w' := snd (signals Sample.palette Sample.spikes_of
                   [Sample.high; Sample.low] None None
                   (Some [Sample.train0]) (Some [Sample.spike0])
                   false true Sample.ms None empty_world) in
  select a_layer (calls w')
  = select a_layer (calls empty_world)
    ++ [(0, Epochs [] Sample.ms);
        (0, Trace (sig_samples Sample.high));
        (0, Events [] Sample.ms);
        (1, Epochs [] Sample.ms);
        (1, Trace (sig_samples Sample.low));
        (1, Events [] Sample.ms)].
Proof.
  intros w'.
  assert (H : signals Sample.palette Sample.spikes_of
                   [Sample.high; Sample.low] None None
                   (Some [Sample.train0]) (Some [Sample.spike0])
                   false true Sample.ms None empty_world = (inr tt, w'))
    by (vm_compute; reflexivity).
  exact (plot_layers _ _ _ _ _ _ _ _ _ _ _ _ _ H).
Defined.

Lemma spike_train_lines_witness :
  let w' := snd (signals Sample.palette Sample.spikes_of
                   [Sample.high; Sample.low] None None
                   (Some [Sample.train0]) (Some [Sample.spike0])
                   false true Sample.ms None empty_world) in
  select a_train (calls w')
  = select a_train (calls empty_world)
    ++ [(0, Sample.train0, "red"); (1, Sample.train0, "red")].
Proof.
  intros w'.
  assert (H : signals Sample.palette Sample.spikes_of
                   [Sample.high; Sample.low] None None
                   (Some [Sample.train0]) (Some [Sample.spike0])
                   false true Sample.ms None empty_world = (inr tt, w'))
    by (vm_compute; reflexivity).
  exact (spike_train_lines _ _ _ _ _ _ _ _ _ _ _ _ _ H).
Defined.


Lemma add_spike_waveforms_stops_witness :
  let r := _add_spike_waveforms Sample.palette 0
             ([Sample.spike0] ++ Faulty.bare :: [Sample.spike1])
             Sample.ms 1 0 empty_world in
  fst r = inl AttributeError /\
  ticks (calls (snd r)) = ticks (calls empty_world) + 1 /\
  List.length (select waveform_curve (calls (snd r)))
  = List.length (select waveform_curve (calls empty_world)) + 1.
Proof.
  apply (add_spike_waveforms_stops Sample.palette 0 [Sample.spike0]
           Faulty.bare [Sample.spike1] Sample.ms 1 0 empty_world).
  - reflexivity.
  - constructor; [| constructor].
    eexists. split; [reflexivity |].
    split; [reflexivity | simpl; lia].
  - reflexivity.
Defined.

Lemma unattached_signals_witness :
  signals Sample.palette Sample.spikes_of [Faulty.loose] None None None
    None true true Sample.ms None empty_world
  = (inl AttributeError, empty_world).
Proof.
  apply unattached_signals_raise.
  - discriminate.
  - left. intros s [<- | []]. reflexivity.
Defined.


Lemma stacked_first_trace_witness :
  let w' := snd (signals Sample.palette Sample.spikes_of
                   [Sample.base; Sample.high] None None
                   (Some [Sample.train0; Sample.train1])
                   (Some [Sample.spike0; Sample.spike1])
                   true false Sample.ms None empty_world) in
  exists first curves,
    select signal_curve (calls w')
    = select signal_curve (calls empty_world) ++ first :: curves /\
    (forall a, In a (curve_y (snd first)) -> (0 <= a)%Q) /\
    (exists a, In a (curve_y (snd first)) /\ (a == 0)%Q).
Proof.
  intros w'.
  assert (H : signals Sample.palette Sample.spikes_of
                   [Sample.base; Sample.high] None None
                   (Some [Sample.train0; Sample.train1])
                   (Some [Sample.spike0; Sample.spike1])
                   true false Sample.ms None empty_world = (inr tt, w'))
    by (vm_compute; reflexivity).
  assert (Hu : same_units [Sample.base; Sample.high]).
  { exists "mV". repeat constructor. }
  exact (stacked_first_trace_at_zero _ _ _ _ _ _ _ _ _ _ _ _ Hu H).
Defined.

Lemma split_mode_overlays_witness :
  let w' := snd (signals Sample.palette Sample.spikes_of
                   [Sample.high; Sample.low] None None
                   (Some [Sample.train0]) (Some [Sample.spike0])
                   false true Sample.ms None empty_world) in
  exists x rows,
    map row_channel rows = [0; 1] /\
    Forall (fun r => row_offset r = 0%Q) rows /\
    Forall (row_drawn [Sample.high; Sample.low] [Sample.spike0]
              [Sample.spike0]) rows /\
    select an_item (calls w')
    = select an_item (calls empty_world)
      ++ flat_map
           (fun pr =>
              (fst pr, mkCurve x (sig_samples (row_signal (snd pr))) None)
              :: map (pair (fst pr))
                   (row_spikes (snd pr) ++ row_draw_spikes (snd pr)))
           (combine [0; 1] rows).
Proof.
  intros w'.
  assert (H : signals Sample.palette Sample.spikes_of
                   [Sample.high; Sample.low] None None
                   (Some [Sample.train0]) (Some [Sample.spike0])
                   false true Sample.ms None empty_world = (inr tt, w'))
    by (vm_compute; reflexivity).
  exact (split_mode_overlays _ _ _ _ _ _ _ _ _ _ _ _ H).
Defined.

Lemma stacked_mode_overlays_witness :
  let w' := snd (signals Sample.palette Sample.spikes_of
                   [Sample.base; Sample.high] None None
                   (Some [Sample.train0; Sample.train1])
                   (Some [Sample.spike0; Sample.spike1])
                   true false Sample.ms None empty_world) in
  exists x rows,
    map row_channel rows = [1; 0] /\
    Forall (row_drawn [Sample.base; Sample.high]
              [Sample.spike0; Sample.spike1]
              (flat_map Sample.spikes_of [Sample.train0; Sample.train1]))
      rows /\
    select an_item (calls w')
    = select an_item (calls empty_world)
      ++ flat_map
           (fun r =>
              (0,
               mkCurve x (shifted (sig_samples (row_signal r))
                            (row_offset r)) None)
              :: map (pair 0) (row_spikes r ++ row_draw_spikes r))
           rows.
Proof.
  intros w'.
  assert (H : signals Sample.palette Sample.spikes_of
                   [Sample.base; Sample.high] None None
                   (Some [Sample.train0; Sample.train1])
                   (Some [Sample.spike0; Sample.spike1])
                   true false Sample.ms None empty_world = (inr tt, w'))
    by (vm_compute; reflexivity).
  assert (Hu : common_unit [Sample.base; Sample.high]
                 ([Sample.spike0; Sample.spike1]
                  ++ flat_map Sample.spikes_of
                       [Sample.train0; Sample.train1])).
  { exists "mV". split; [repeat constructor |]. simpl.
    repeat (constructor;
            [intros wf Hwf; inversion Hwf; reflexivity |]).
    constructor. }
  exact (stacked_mode_overlays Sample.palette Sample.spikes_of
           [Sample.base; Sample.high] None None
           (Some [Sample.train0; Sample.train1])
           (Some [Sample.spike0; Sample.spike1])
           true Sample.ms None empty_world w' Hu H).
Defined.
